(** * Lotka-Volterra Gillespie simulator ([robert_gillespie.ipynb], class [LV])

    A shallow embedding of the notebook's [LV] class: the constructor, the
    hazard function [get_hazards] and the simulation loop [run].

    Modelling choices.
    - Species counts and transition rows are Python integers: [Z].  This is
      the table of the docstring, whose rows are lists.  The notebook itself
      passes rows of a numpy array of 64-bit integers; their sums agree with
      the integers' as long as they fit 64 bits and wrap around beyond, so
      a statement that depends on the value of a sum carries that range.
    - In the run, rate constants, hazards and times are read as exact
      rationals [Q]: the labels a run binds, the counts it records and the
      lookups that raise do not depend on their rounding.  [get_hazards] is
      given a second time in Python's own arithmetic ([Py.get_hazards]:
      unbounded [int]s, binary64 [float]s, the OverflowError of a count that
      does not convert to a float); the statements about the values of the
      hazards are made there, and a statement that a run completes carries
      the range of counts in which that conversion cannot raise.
    - [hazards] and the hypothesis prior are dictionaries whose enumeration
      order reaches [Discrete]: insertion-ordered association lists.
      Dictionaries that are only looked up are [gmap]s.
    - The [initial] dictionary is an object shared with the caller: it lives
      in a heap and [LV] holds its address.
    - [env.bind] belongs to the external [particle] library.  A run is a tree
      of [env.bind] calls, interpreted against an arbitrary stateful
      environment.
    - The arithmetic of the scenario with concrete rates is checked a second
      time in IEEE 754 binary64. *)

From Stdlib Require Import QArith Sorted Lqa.
From Corelib Require Import PrimFloat SpecFloat FloatOps.
From stdpp Require Import gmap strings pretty list list_numbers fin_maps.

Local Open Scope Z_scope.

(** ** Python values, exceptions and distributions *)

(** What [env.bind] hands back: a dictionary key or a number. *)
Inductive value : Type :=
| VStr (s : string)
| VNum (q : Q).

Inductive exn : Type :=
| KeyError (k : value)
| IndexError
| TypeError
| EnvError        (* raised inside [env.bind], by the external library *)
| NoSuchObject.   (* an address the heap does not hold *)

Inductive result (A : Type) : Type :=
| Ok (a : A)
| Err (e : exn).
Arguments Ok {A} a.
Arguments Err {A} e.

(** The two distribution constructors the notebook imports from [particle]. *)
Inductive dist : Type :=
| Discrete (weights : list (string * Q))
| Exponential (rate : Q).

(** ** Insertion-ordered dictionaries *)

(** A dictionary display [{k1: v1, ..., k: v}]: a repeated key keeps its first
    position and takes the last value. *)
Fixpoint dict_set {V : Type} (k : string) (v : V) (d : list (string * V))
  : list (string * V) :=
  match d with
  | [] => [(k, v)]
  | (k', v') :: d' =>
      if decide (k' = k) then (k', v) :: d' else (k', v') :: dict_set k v d'
  end.

Definition dict_values {V : Type} (d : list (string * V)) : list V := d.*2.

(** Python's [sum]: starts from [0] and adds from the left. *)
Definition sum (l : list Q) : Q := fold_left Qplus l 0%Q.

(** [d[k]] on a looked-up dictionary. *)
Definition getitem {V : Type} (d : gmap string V) (k : value) : result V :=
  match k with
  | VStr s => match d !! s with Some v => Ok v | None => Err (KeyError k) end
  | VNum _ => Err (KeyError k)
  end.

(** [row[i]] on a transition row. *)
Definition index (row : list Z) (i : nat) : result Z :=
  match row !! i with Some z => Ok z | None => Err IndexError end.

(** Python's [max(0, x)] on integers. *)
Definition max0 (x : Z) : Z := Z.max 0 x.

(** ** Objects *)

Definition loc := nat.

(** [self.trajectory]: the dictionary [{'prey': [...], 'pred': [...]}] that
    [__init__] creates; its two keys never change. *)
Record Trajectory : Type := mkTrajectory {
  prey : list Z;
  pred : list Z
}.

(** The fields of an [LV] object.  [transitions] maps an event name to its row
    of the transition matrix (a list, as the docstring has it; the notebook
    passes numpy columns with the same integers); [initial] is the address of
    the caller's dictionary. *)
Record LV : Type := mkLV {
  transitions : gmap string (list Z);
  select_hyp : string;
  initial : loc;
  times : list Q;
  trajectory : Trajectory;
  N : Z
}.

(** The part of the Python store a run can touch: the heap of population
    dictionaries and the simulator object. *)
Record store : Type := mkStore {
  heap : gmap loc (gmap string Z);
  self : LV
}.

(** ** Programs over [env.bind] *)

(** A program either returns or calls [env.bind(label, d)] and continues with
    the reply; [None] stands for an exception raised inside the call. *)
Inductive prog (X : Type) : Type :=
| Ret (x : X)
| Call (label : string) (d : dist) (k : option value -> prog X).
Arguments Ret {X} x.
Arguments Call {X} label d k.

Fixpoint pbind {X Y : Type} (p : prog X) (f : X -> prog Y) : prog Y :=
  match p with
  | Ret x => f x
  | Call l d k => Call l d (fun r => pbind (k r) f)
  end.

(** Statements of a method body: they read and write the store, may raise, and
    may call [env.bind].  A raised exception keeps the store as it was left. *)
Definition M (A : Type) : Type := store -> prog (result A * store).

Definition ret {A : Type} (a : A) : M A := fun s => Ret (Ok a, s).

Definition raise {A : Type} (e : exn) : M A := fun s => Ret (Err e, s).

Definition bindM {A B : Type} (m : M A) (f : A -> M B) : M B :=
  fun s => pbind (m s) (fun rs =>
    match rs.1 with
    | Ok a => f a rs.2
    | Err e => Ret (Err e, rs.2)
    end).

Notation "x <- m ;; k" := (bindM m (fun x => k))
  (at level 100, m at next level, right associativity).
Notation "m ;;; k" := (bindM m (fun _ => k))
  (at level 100, right associativity).

Definition lift {A : Type} (r : result A) : M A :=
  match r with Ok a => ret a | Err e => raise e end.

Definition get_self : M LV := fun s => Ret (Ok (self s), s).

Definition set_self (o : LV) : M unit :=
  fun s => Ret (Ok tt, mkStore (heap s) o).

Definition env_bind (label : string) (d : dist) : M value :=
  fun s => Call label d (fun r =>
    match r with
    | Some v => Ret (Ok v, s)
    | None => Ret (Err EnvError, s)
    end).

(** [copy.deepcopy] of a dictionary of integers: a new object with the same
    content. *)
Definition deepcopy (l : loc) : M loc :=
  fun s =>
    match heap s !! l with
    | Some d =>
        let l' := fresh (dom (heap s)) in
        Ret (Ok l', mkStore (<[l' := d]> (heap s)) (self s))
    | None => Ret (Err NoSuchObject, s)
    end.

Definition read_dict (l : loc) : M (gmap string Z) :=
  fun s =>
    match heap s !! l with
    | Some d => Ret (Ok d, s)
    | None => Ret (Err NoSuchObject, s)
    end.

(** [d[k] += delta] on the dictionary at [l]. *)
Definition iadd_item (l : loc) (k : string) (delta : result Z) : M unit :=
  d <- read_dict l ;;
  v <- lift (getitem d (VStr k)) ;;
  dz <- lift delta ;;
  fun s => Ret (Ok tt, mkStore (<[l := <[k := v + dz]> d]> (heap s)) (self s)).

(** [d[k] = max(0, d[k])] on the dictionary at [l]. *)
Definition clamp_item (l : loc) (k : string) : M unit :=
  d <- read_dict l ;;
  v <- lift (getitem d (VStr k)) ;;
  fun s => Ret (Ok tt, mkStore (<[l := <[k := max0 v]> d]> (heap s)) (self s)).

(** [self.trajectory[k].append(d[k])] for [k] = 'prey', then 'pred', then
    [self.times.append(t)]. *)
Definition append_prey (l : loc) : M unit :=
  d <- read_dict l ;;
  v <- lift (getitem d (VStr "prey")) ;;
  o <- get_self ;;
  set_self (mkLV (transitions o) (select_hyp o) (initial o) (times o)
              (mkTrajectory (prey (trajectory o) ++ [v]) (pred (trajectory o)))
              (N o)).

Definition append_pred (l : loc) : M unit :=
  d <- read_dict l ;;
  v <- lift (getitem d (VStr "pred")) ;;
  o <- get_self ;;
  set_self (mkLV (transitions o) (select_hyp o) (initial o) (times o)
              (mkTrajectory (prey (trajectory o)) (pred (trajectory o) ++ [v]))
              (N o)).

Definition append_time (t : Q) : M unit :=
  o <- get_self ;;
  set_self (mkLV (transitions o) (select_hyp o) (initial o) (times o ++ [t])
              (trajectory o) (N o)).

(** ** The class [LV] *)

(** [LV.__init__(self, transitions, initial, N, select_hyp="none", t0=0.0)]
    (lines 82-87).  [initial] is the address of the caller's dictionary; the
    first trajectory entries are read from it. *)
Definition __init__ (transitions : gmap string (list Z)) (initial : loc) (N : Z)
    (select_hyp : string) (t0 : Q) (h : gmap loc (gmap string Z)) : result LV :=
  match h !! initial with
  | None => Err NoSuchObject
  | Some d =>
      match getitem d (VStr "prey") with
      | Err e => Err e
      | Ok prey0 =>
          match getitem d (VStr "pred") with
          | Err e => Err e
          | Ok pred0 =>
              Ok (mkLV transitions select_hyp initial [t0]
                    (mkTrajectory [prey0] [pred0]) N)
          end
      end
  end.

Definition default_select_hyp : string := "none".
Definition default_t0 : Q := 0%Q.

(** [LV.get_hazards(self, ecology, theta)] (lines 104-108); a missing key
    raises [KeyError], in the order the dictionary display evaluates. *)
Definition get_hazards (ecology : gmap string Z) (theta : gmap string Q)
  : result (list (string * Q)) :=
  match getitem theta (VStr "spawn_prey") with
  | Err e => Err e
  | Ok th_spawn =>
  match getitem ecology (VStr "prey") with
  | Err e => Err e
  | Ok n_prey =>
  match getitem theta (VStr "prey2pred") with
  | Err e => Err e
  | Ok th_eat =>
  match getitem ecology (VStr "pred") with
  | Err e => Err e
  | Ok n_pred =>
  match getitem theta (VStr "pred_dies") with
  | Err e => Err e
  | Ok th_dies =>
      Ok [ ("spawn_prey", th_spawn * inject_Z n_prey);
           ("prey2pred", th_eat * inject_Z n_prey * inject_Z n_pred);
           ("pred_dies", th_dies * inject_Z n_pred) ]%Q
  end end end end end.

Definition H1 : gmap string Q :=
  list_to_map [("spawn_prey", 1); ("prey2pred", 0.005); ("pred_dies", 0.6)]%Q.
Definition H2 : gmap string Q :=
  list_to_map [("spawn_prey", 0.9); ("prey2pred", 0.004); ("pred_dies", 0.4)]%Q.
Definition H3 : gmap string Q :=
  list_to_map [("spawn_prey", 1.5); ("prey2pred", 0.01); ("pred_dies", 0.8)]%Q.

Definition theta_hypotheses : gmap string (gmap string Q) :=
  list_to_map [("H1", H1); ("H2", H2); ("H3", H3)].

(** The argument of [Discrete] in the binding of "theta".  The notebook tests
    [select_hyp is not "none"]; on the interned literals it is called with,
    identity is equality of strings. *)
Definition hypothesis_prior (select_hyp : string) : list (string * Q) :=
  if decide (select_hyp ≠ "none")
  then dict_set select_hyp 1%Q [("H1", 0); ("H2", 0); ("H3", 0)]%Q
  else [("H1", 1 - 0.6666); ("H2", 0.3333); ("H3", 0.3333)]%Q.

(** [t + w] where [w] came out of [env.bind]. *)
Definition add_time (t : Q) (w : value) : result Q :=
  match w with
  | VNum q => Ok (t + q)%Q
  | VStr _ => Err TypeError
  end.

(** One pass through the body of the [for] loop of [run] (lines 126-138);
    the local [t] is threaded through. *)
Definition step (ecology : loc) (theta : gmap string Q) (i : Z) (t : Q) : M Q :=
  eco <- read_dict ecology ;;
  hazards <- lift (get_hazards eco theta) ;;
  o <- get_self ;;
  ev <- env_bind ("event_" +:+ pretty i) (Discrete hazards) ;;
  transition <- lift (getitem (transitions o) ev) ;;
  w <- env_bind ("t_" +:+ pretty i) (Exponential (sum (dict_values hazards))) ;;
  t' <- lift (add_time t w) ;;
  iadd_item ecology "prey" (index transition 0) ;;;
  iadd_item ecology "pred" (index transition 1) ;;;
  clamp_item ecology "prey" ;;;
  clamp_item ecology "pred" ;;;
  append_prey ecology ;;;
  append_pred ecology ;;;
  append_time t' ;;;
  ret t'.

(** [for i in rng: t = body(i, t)]. *)
Fixpoint for_each (rng : list Z) (body : Z -> Q -> M Q) (t : Q) : M Q :=
  match rng with
  | [] => ret t
  | i :: rng' => t' <- body i t ;; for_each rng' body t'
  end.

(** Python's [range(a, b)]. *)
Definition range (a b : Z) : list Z := seqZ a (b - a).

(** [LV.run(self, env)] (lines 110-138).  The three hypotheses of lines
    113-115 are [theta_hypotheses]. *)
Definition run : M unit :=
  o <- get_self ;;
  ecology <- deepcopy (initial o) ;;
  theta_dex <- env_bind "theta" (Discrete (hypothesis_prior (select_hyp o))) ;;
  theta <- lift (getitem theta_hypotheses theta_dex) ;;
  t <- lift (match times o with t0 :: _ => Ok t0 | [] => Err IndexError end) ;;
  for_each (range 1 (N o)) (step ecology theta) t ;;;
  ret tt.

(** ** Environments *)

(** One recorded call of [env.bind]. *)
Record call : Type := mkCall {
  c_label : string;
  c_dist : dist;
  c_reply : option value
}.

Section Interp.
Context {E : Type}.
(** [env.bind] of an environment with internal state [E]. *)
Variable bind : string -> dist -> E -> option value * E.

(** Run a program against the environment; the calls made are logged in
    order. *)
Fixpoint interp {X : Type} (p : prog X) (e : E) : X * E * list call :=
  match p with
  | Ret x => (x, e, [])
  | Call l d k =>
      let re := bind l d e in
      let xel := interp (k re.1) re.2 in
      (xel.1.1, xel.1.2, mkCall l d re.1 :: xel.2)
  end.
End Interp.

(** The outcome, final store and call log of [sim.run(env)]. *)
Definition run_in {E : Type} (bind : string -> dist -> E -> option value * E)
    (s : store) (e : E) : result unit * store * list call :=
  let xel := interp bind (run s) e in (xel.1.1, xel.2).

Abbreviation outcome r := (fst (fst r)) (only parsing).
Abbreviation final_store r := (snd (fst r)) (only parsing).
Abbreviation calls r := (snd r) (only parsing).

(** An environment that replays a fixed list of replies, then raises. *)
Definition scripted (l : string) (d : dist) (e : list value)
  : option value * list value :=
  match e with
  | v :: e' => (Some v, e')
  | [] => (None, [])
  end.

(** The notebook's transition table: the columns of [Post - Pre]. *)
Definition notebook_transitions : gmap string (list Z) :=
  list_to_map [("spawn_prey", [1; 0]); ("prey2pred", [-1; 1]); ("pred_dies", [0; -1])].

Definition ecology_of (n_prey n_pred : Z) : gmap string Z :=
  list_to_map [("prey", n_prey); ("pred", n_pred)].

(** The net effect of lines 130-138 of the loop body, for a population
    dictionary [d] at [ecology] that holds [x] prey and [y] predators. *)
Definition fire (ecology : loc) (row : list Z) (t' : Q) (d : gmap string Z)
    (x y : Z) (s : store) : result Q * store :=
  match row !! 0%nat with
  | None => (Err IndexError, s)
  | Some dx =>
      let d1 := <["prey" := x + dx]> d in
      match row !! 1%nat with
      | None => (Err IndexError, mkStore (<[ecology := d1]> (heap s)) (self s))
      | Some dy =>
          let d4 := <["pred" := max0 (y + dy)]>
                      (<["prey" := max0 (x + dx)]>
                         (<["pred" := y + dy]> d1)) in
          (Ok t',
           mkStore (<[ecology := d4]> (heap s))
             (mkLV (transitions (self s)) (select_hyp (self s))
                (initial (self s)) (times (self s) ++ [t'])
                (mkTrajectory (prey (trajectory (self s)) ++ [max0 (x + dx)])
                   (pred (trajectory (self s)) ++ [max0 (y + dy)]))
                (N (self s))))
      end
  end.

(** ** Specification vocabulary *)

Section Sat.
(** What is assumed of the replies of the environment. *)
Variable A : call -> Prop.

(** [sat P p]: on every path of [p] whose calls satisfy [A], the returned
    value and the calls made satisfy [P]. *)
Fixpoint sat {X : Type} (P : X -> list call -> Prop) (p : prog X) : Prop :=
  match p with
  | Ret x => P x []
  | Call l d k =>
      forall r, A (mkCall l d r) ->
                sat (fun x log => P x (mkCall l d r :: log)) (k r)
  end.
End Sat.

Definition unit_of {B : Type} (r : result B) : result unit :=
  match r with Ok _ => Ok tt | Err e => Err e end.

(** Every waiting time drawn from an [Exponential] is non-negative. *)
Definition nonneg_wait (c : call) : Prop :=
  match c_dist c, c_reply c with
  | Exponential _, Some (VNum q) => (0 <= q)%Q
  | _, _ => True
  end.

(** The replies of an environment that answers every call from the support
    of the distribution: a key of a [Discrete], a number for an
    [Exponential]. *)
Definition in_support (c : call) : Prop :=
  match c_dist c with
  | Discrete weights => exists k, c_reply c = Some (VStr k) /\ k ∈ weights.*1
  | Exponential _ => exists q, c_reply c = Some (VNum q)
  end.

(** A transition table with a row of two entries or more for each event. *)
Definition has_rows (tr : gmap string (list Z)) : Prop :=
  forall k, k ∈ ["spawn_prey"; "prey2pred"; "pred_dies"] ->
            exists dx dy rest, tr !! k = Some (dx :: dy :: rest).

(** The distribution of a call is built from the hazards of the rate mapping
    [theta] at some population. *)
Definition uses_rates (theta : gmap string Q) (c : call) : Prop :=
  exists ecology hz,
    get_hazards ecology theta = Ok hz /\
    (c_dist c = Discrete hz \/ c_dist c = Exponential (sum (dict_values hz))).

(** The labels of a loop pass and of a whole run, in the order of the
    calls. *)
Definition step_labels (i : Z) : list string :=
  ["event_" +:+ pretty i; "t_" +:+ pretty i].

Definition run_labels (n : Z) : list string :=
  "theta" :: (range 1 n ≫= step_labels).

(** The trace of a run: the value bound at each label. *)
Definition trace_of (log : list call) : gmap string value :=
  list_to_map (omap (fun c => (fun v => (c_label c, v)) <$> c_reply c) log).

(** An environment forces an evidence mapping when it replies the mapped
    value at every label the mapping holds (the contract of conditioning). *)
Definition forces {E : Type} (evidence : gmap string value)
    (bind : string -> dist -> E -> option value * E) : Prop :=
  forall l d e v, evidence !! l = Some v -> (bind l d e).1 = Some v.

(** The forcing environment over an environment underneath: a label of the
    evidence gets its value and leaves the state as it is, any other call
    goes underneath. *)
Definition conditioned {E : Type} (evidence : gmap string value)
    (bind : string -> dist -> E -> option value * E)
    (l : string) (d : dist) (e : E) : option value * E :=
  match evidence !! l with
  | Some v => (Some v, e)
  | None => bind l d e
  end.

(** ** The notebook's simulator *)

(** The simulator of the notebook: [LV(transitions, {'prey': x, 'pred': y}, n,
    select_hyp=hyp)], with the dictionary at address 0 of the caller's heap. *)
Definition notebook_heap (x y : Z) : gmap loc (gmap string Z) :=
  {[ 0%nat := ecology_of x y ]}.

Definition notebook_sim (x y n : Z) (hyp : string) : result LV :=
  __init__ notebook_transitions 0%nat n hyp default_t0 (notebook_heap x y).

Definition notebook_store (x y n : Z) (hyp : string) : result store :=
  match notebook_sim x y n hyp with
  | Ok o => Ok (mkStore (notebook_heap x y) o)
  | Err e => Err e
  end.

(** [sim.run(env)] on the notebook's simulator, against a scripted
    environment. *)
Definition notebook_run (x y n : Z) (hyp : string) (replies : list value)
  : result (result unit * store * list call) :=
  match notebook_store x y n hyp with
  | Ok s => Ok (run_in scripted s replies)
  | Err e => Err e
  end.

(** The object [LV(transitions, {'prey': 50, 'pred': 100}, n, "H1")]. *)
Definition sim_50_100 (n : Z) : LV :=
  mkLV notebook_transitions "H1" 0%nat [default_t0] (mkTrajectory [50] [100]) n.

Definition replies_3 : list value :=
  [VStr "H1"; VStr "spawn_prey"; VNum 0.5; VStr "prey2pred"; VNum 0.25].

(** A store whose working dictionary, at address 1, has both species
    extinct. *)
Definition extinct_store : store :=
  mkStore (<[1%nat := ecology_of 0 0]> (notebook_heap 0 0)) (sim_50_100 2).

(** ** The same hazards in binary64 *)

(** In the notebook the rates are Python floats.  This is the arithmetic of
    [get_hazards] in IEEE 754 binary64, on counts already converted to
    floats, to compare with the rational reading above. *)
Definition hazard_values_binary64 (th_spawn th_eat th_dies x y : float)
  : list float :=
  [ th_spawn * x; th_eat * x * y; th_dies * y ]%float.

Definition sum_binary64 (l : list float) : float :=
  fold_left PrimFloat.add l 0%float.

(** ** The hazards in Python's arithmetic *)

(** A Python number: an [int], of any size, or a [float], which is an
    IEEE 754 binary64 value. *)
Inductive num : Type :=
| Int (z : Z)
| Float (f : spec_float).

(** What evaluating an expression raises: the exception of a lookup, or an
    exception of the arithmetic. *)
Inductive py_exn : Type :=
| Raised (e : exn)
| OverflowError
| ZeroDivisionError.

Inductive py_result (A : Type) : Type :=
| Value (a : A)
| Fails (e : py_exn).
Arguments Value {A} a.
Arguments Fails {A} e.

Definition and_then {A B : Type} (m : py_result A) (f : A -> py_result B)
  : py_result B :=
  match m with
  | Value a => f a
  | Fails e => Fails e
  end.

(** [d[k]] for a key given as a string literal. *)
Definition item {V : Type} (d : gmap string V) (k : string) : py_result V :=
  match getitem d (VStr k) with
  | Ok v => Value v
  | Err e => Fails (Raised e)
  end.

(** The conversion of an [int] operand that meets a [float]: the nearest
    binary64 value, ties to even; an [int] beyond the range of the floats
    raises OverflowError ("int too large to convert to float"). *)
Definition float_of_int (z : Z) : py_result spec_float :=
  match binary_normalize prec emax z 0 false with
  | S754_infinity _ => Fails OverflowError
  | f => Value f
  end.

(** [a * b].  Two [int]s multiply exactly.  Otherwise an [int] operand is
    converted and the product is the binary64 product, which raises
    nothing: a product beyond the range is an infinity, and an infinity
    times zero is NaN. *)
Definition py_mul (a b : num) : py_result num :=
  match a, b with
  | Int x, Int y => Value (Int (x * y))
  | Int x, Float g =>
      and_then (float_of_int x) (fun f => Value (Float (SFmul prec emax f g)))
  | Float f, Int y =>
      and_then (float_of_int y) (fun g => Value (Float (SFmul prec emax f g)))
  | Float f, Float g => Value (Float (SFmul prec emax f g))
  end.

(** [h >= 0] and [h == 0]; both are false of NaN. *)
Definition py_nonneg (h : num) : bool :=
  match h with
  | Int z => 0 <=? z
  | Float f => SFleb (S754_zero false) f
  end.

Definition py_is_zero (h : num) : bool :=
  match h with
  | Int z => z =? 0
  | Float f => SFeqb f (S754_zero false)
  end.

(** A rate that is positive and finite. *)
Definition positive_rate (r : num) : Prop :=
  match r with
  | Int z => 0 < z
  | Float (S754_finite false _ _) => True
  | Float _ => False
  end.

Module Py.

(** [LV.get_hazards(self, ecology, theta)] (lines 104-108) on Python
    numbers, for counts that are [int]s as the initial dictionary has them:
    the three items are evaluated in the order of the display, each lookup
    and each product from left to right. *)
Definition get_hazards (ecology : gmap string Z) (theta : gmap string num)
  : py_result (list (string * num)) :=
  and_then (item theta "spawn_prey") (fun th_spawn =>
  and_then (item ecology "prey") (fun n_prey =>
  and_then (py_mul th_spawn (Int n_prey)) (fun h_spawn =>
  and_then (item theta "prey2pred") (fun th_eat =>
  and_then (item ecology "prey") (fun n_prey' =>
  and_then (py_mul th_eat (Int n_prey')) (fun th_eat_prey =>
  and_then (item ecology "pred") (fun n_pred =>
  and_then (py_mul th_eat_prey (Int n_pred)) (fun h_eat =>
  and_then (item theta "pred_dies") (fun th_dies =>
  and_then (item ecology "pred") (fun n_pred' =>
  and_then (py_mul th_dies (Int n_pred')) (fun h_dies =>
  Value [ ("spawn_prey", h_spawn);
          ("prey2pred", h_eat);
          ("pred_dies", h_dies) ]))))))))))).

(** The entries of [theta_hypotheses] (lines 113-115) as Python reads the
    literals: [1] is an [int], the others are [float]s. *)
#[warnings="-inexact-float"]
Definition H1 : gmap string num :=
  list_to_map [("spawn_prey", Int 1);
               ("prey2pred", Float (Prim2SF 0.005));
               ("pred_dies", Float (Prim2SF 0.6))].
#[warnings="-inexact-float"]
Definition H2 : gmap string num :=
  list_to_map [("spawn_prey", Float (Prim2SF 0.9));
               ("prey2pred", Float (Prim2SF 0.004));
               ("pred_dies", Float (Prim2SF 0.4))].
#[warnings="-inexact-float"]
Definition H3 : gmap string num :=
  list_to_map [("spawn_prey", Float (Prim2SF 1.5));
               ("prey2pred", Float (Prim2SF 0.01));
               ("pred_dies", Float (Prim2SF 0.8))].

End Py.

(** ** Integers of 64 bits *)

(** The notebook builds its transition table from a numpy array (lines
    170-174): there a row holds 64-bit signed integers, and adding one to a
    count that fits 64 bits is numpy's addition, which wraps around at
    [2^63] (with a warning, not an exception). *)
Definition fits_int64 (z : Z) : Prop := - 2 ^ 63 <= z < 2 ^ 63.

Definition wrap64 (z : Z) : Z := (z + 2 ^ 63) mod 2 ^ 64 - 2 ^ 63.

(** Lines 130-134 for a row of such an array and counts [x], [y] that fit
    64 bits: the counts they leave. *)
Definition add_and_clamp_int64 (row : list Z) (x y : Z) : result (Z * Z) :=
  match index row 0 with
  | Err e => Err e
  | Ok dx =>
      match index row 1 with
      | Err e => Err e
      | Ok dy => Ok (max0 (wrap64 (x + dx)), max0 (wrap64 (y + dy)))
      end
  end.

(** Every entry of every row of a transition table fits 64 bits. *)
Definition rows_fit_int64 (tr : gmap string (list Z)) : Prop :=
  forall k row, tr !! k = Some row -> Forall fits_int64 row.

(** ** Vocabulary for the values of the hazards *)

(** A binary64 value of sign [s] that is not NaN: a zero, a finite value or
    an infinity of that sign. *)
Definition signed (s : bool) (f : spec_float) : Prop :=
  f = S754_zero s \/ (exists m e, f = S754_finite s m e) \/ f = S754_infinity s.

(** A number that is not negative and not NaN; a number that is zero. *)
Definition nonneg_num (h : num) : Prop :=
  match h with
  | Int k => 0 <= k
  | Float f => signed false f
  end.

Definition zero_num (h : num) : Prop :=
  h = Int 0 \/ h = Float (S754_zero false).

(** Rates with a prey2pred constant near the top of the binary64 range. *)
#[warnings="-inexact-float"]
Definition overflowing_rates : gmap string num :=
  list_to_map [("spawn_prey", Int 1);
               ("prey2pred", Float (Prim2SF 1e308));
               ("pred_dies", Float (Prim2SF 0.6))].

(** ** What a run records *)

(** Pass [k] (counted from 0) as the embedding computes it, on rows of
    Python integers and times read as rationals: the calls of the loop come
    in pairs, the [k]-th pair bound "event_k+1" to an event [ev] with a row
    in the transition table and "t_k+1" to a number [w]; entry [k + 1] of
    each sequence is entry [k] moved by [w], respectively by the row and
    clamped. *)
Definition pass_exact (tr : gmap string (list Z)) (passes : list call)
    (ts : list Q) (xs ys : list Z) (k : nat) : Prop :=
  exists ev w dx dy rest d1 d2 t x y,
    passes !! (2 * k)%nat =
      Some (mkCall ("event_" +:+ pretty (Z.of_nat k + 1)) d1 (Some (VStr ev))) /\
    passes !! (2 * k + 1)%nat =
      Some (mkCall ("t_" +:+ pretty (Z.of_nat k + 1)) d2 (Some (VNum w))) /\
    tr !! ev = Some (dx :: dy :: rest) /\
    ts !! k = Some t /\ xs !! k = Some x /\ ys !! k = Some y /\
    ts !! S k = Some (t + w)%Q /\
    xs !! S k = Some (Z.max 0 (x + dx)) /\
    ys !! S k = Some (Z.max 0 (y + dy)).

(** Pass [k] (counted from 0) as the run recorded it in the count sequences
    [xs] and [ys]: the [k]-th pair of calls of the loop bound "event_k+1" to
    an event [ev] with a row [dx, dy] in the transition table and "t_k+1" to
    a number; entry [k + 1] of each count sequence is entry [k] plus its
    component of the row, clamped at zero, for a count, a row entry and a sum
    that fit 64 bits (where a row of a numpy array adds like a row of Python
    integers). *)
Definition pass_recorded (tr : gmap string (list Z)) (passes : list call)
    (xs ys : list Z) (k : nat) : Prop :=
  exists ev w dx dy rest d1 d2 x y,
    passes !! (2 * k)%nat =
      Some (mkCall ("event_" +:+ pretty (Z.of_nat k + 1)) d1 (Some (VStr ev))) /\
    passes !! (2 * k + 1)%nat =
      Some (mkCall ("t_" +:+ pretty (Z.of_nat k + 1)) d2 (Some (VNum w))) /\
    tr !! ev = Some (dx :: dy :: rest) /\
    xs !! k = Some x /\ ys !! k = Some y /\
    (fits_int64 x -> fits_int64 dx -> fits_int64 (x + dx) ->
     xs !! S k = Some (Z.max 0 (x + dx))) /\
    (fits_int64 y -> fits_int64 dy -> fits_int64 (y + dy) ->
     ys !! S k = Some (Z.max 0 (y + dy))).

(** ** The calls of a run *)

(** Either every call got a reply and the outcome is not an exception of the
    environment, or the last call, and only the last, raised, and the outcome
    is that exception. *)
Definition stops_when_env_raises {B : Type} (out : result B) (log : list call)
  : Prop :=
  (Forall (fun c => is_Some (c_reply c)) log /\ out ≠ Err EnvError) \/
  (exists pre c,
      log = pre ++ [c] /\ Forall (fun c => is_Some (c_reply c)) pre /\
      c_reply c = None /\ out = Err EnvError).

(** The distribution handed to [env.bind] has no negative weight,
    respectively no negative rate. *)
Definition nonneg_dist (c : call) : Prop :=
  match c_dist c with
  | Discrete weights => Forall (fun kv => (0 <= kv.2)%Q) weights
  | Exponential rate => (0 <= rate)%Q
  end.

(** ** The evidence of the notebook *)

(** [a] is the beginning of [b]. *)
Fixpoint starts_with (a b : string) : bool :=
  match a, b with
  | EmptyString, _ => true
  | String _ _, EmptyString => false
  | String c a', String c' b' => Ascii.eqb c c' && starts_with a' b'
  end.

(** Python's [a in b] on strings: [a] occurs in [b] as a substring. *)
Fixpoint occurs_in (a b : string) : bool :=
  starts_with a b ||
  match b with
  | EmptyString => false
  | String _ b' => occurs_in a b'
  end.

(** [{k: v for k, v in trace.value.items() if k not in 'theta'}] (line 271),
    for the mapping [trace_value] of a trace. *)
Definition evidence_of (trace_value : gmap string value) : gmap string value :=
  filter (fun kv => occurs_in kv.1 "theta" = false) trace_value.

(** ** Two runs side by side *)

(** Two programs make the same calls label by label, whatever the
    distributions they pass, and on the same replies return results related
    by [R]. *)
Fixpoint sim {X1 X2 : Type} (R : X1 -> X2 -> Prop) (p1 : prog X1) (p2 : prog X2)
  : Prop :=
  match p1, p2 with
  | Ret x1, Ret x2 => R x1 x2
  | Call l1 _ k1, Call l2 _ k2 => l1 = l2 /\ forall r, sim R (k1 r) (k2 r)
  | _, _ => False
  end.

(** Two stores that differ at most in the field [select_hyp]. *)
Definition same_but_hyp (s1 s2 : store) : Prop :=
  heap s1 = heap s2 /\
  transitions (self s1) = transitions (self s2) /\
  initial (self s1) = initial (self s2) /\
  times (self s1) = times (self s2) /\
  trajectory (self s1) = trajectory (self s2) /\
  N (self s1) = N (self s2).

(** Two statements end alike: with the same result, in stores that differ at
    most in [select_hyp]. *)
Definition ends_alike {B : Type} (rs1 rs2 : result B * store) : Prop :=
  rs1.1 = rs2.1 /\ same_but_hyp rs1.2 rs2.2.

(** ** The hypothesis marginals of the notebook *)

(** Python's [==] on the values of a trace: a string never equals a
    number. *)
Definition value_eqb (a b : value) : bool :=
  match a, b with
  | VStr s, VStr s' => bool_decide (s = s')
  | VNum q, VNum q' => Qeq_bool q q'
  | _, _ => false
  end.

(** [l.count(x)]. *)
Fixpoint count (l : list value) (x : value) : Z :=
  match l with
  | [] => 0
  | v :: l' => (if value_eqb v x then 1 else 0) + count l' x
  end.

(** [[output.results[i].value['theta'] for i in range(len(output.results))]],
    for the mappings of the traces in [output.results]: the first one
    without a "theta" raises. *)
Fixpoint thetas (results : list (gmap string value)) : result (list value) :=
  match results with
  | [] => Ok []
  | trace_value :: rest =>
      match getitem trace_value (VStr "theta") with
      | Err e => Err e
      | Ok v =>
          match thetas rest with
          | Err e => Err e
          | Ok vs => Ok (v :: vs)
          end
      end
  end.

(** An [int] operand of a true division: the quotient is rounded once, from
    the operands as they are. *)
Definition int_operand (z : Z) : spec_float :=
  match z with
  | Z0 => S754_zero false
  | Zpos p => S754_finite false p 0
  | Zneg p => S754_finite true p 0
  end.

(** [a / b] on two [int]s: the binary64 value nearest to the quotient, ties
    to even; a zero divisor raises ZeroDivisionError and a quotient beyond
    the range of the floats raises OverflowError. *)
Definition py_truediv (a b : Z) : py_result num :=
  if decide (b = 0) then Fails ZeroDivisionError
  else match SFdiv prec emax (int_operand a) (int_operand b) with
       | S754_infinity _ => Fails OverflowError
       | f => Value (Float f)
       end.

(** One item of the dictionary: the key ['H{}'.format(i)] and the value
    [[...].count('H{}'.format(i)) / num_samp].  The list is built first,
    counted next and divided last. *)
Definition marginal (results : list (gmap string value)) (num_samp : Z) (i : Z)
  : py_result (string * num) :=
  match thetas results with
  | Err e => Fails (Raised e)
  | Ok vs =>
      and_then (py_truediv (count vs (VStr ("H" +:+ pretty i))) num_samp)
        (fun q => Value ("H" +:+ pretty i, q))
  end.

(** [{key: value for i in indices}], filled item by item. *)
Fixpoint dict_comprehension (indices : list Z)
    (item_of : Z -> py_result (string * num)) (acc : list (string * num))
  : py_result (list (string * num)) :=
  match indices with
  | [] => Value acc
  | i :: rest =>
      match item_of i with
      | Fails e => Fails e
      | Value (k, v) => dict_comprehension rest item_of (dict_set k v acc)
      end
  end.

(** The cell of line 299. *)
Definition marginals (results : list (gmap string value)) (num_samp : Z)
  : py_result (list (string * num)) :=
  dict_comprehension [1; 2; 3] (marginal results num_samp) [].

(** The mapping of the trace of a run that returned. *)
Inductive completed_trace (trace_value : gmap string value) : Prop :=
| completed_trace_of {E : Type}
    (bind : string -> dist -> E -> option value * E) (s : store) (e : E) :
    outcome (run_in bind s e) = Ok tt ->
    trace_value = trace_of (calls (run_in bind s e)) ->
    completed_trace trace_value.

(** ** Rates below [2^-6] *)

(** A float rate below [2^-6]: a positive finite binary64 value with a
    mantissa of 53 bits at most and an exponent of -59 at most. *)
Definition small_rate (r : num) : Prop :=
  match r with
  | Float (S754_finite false m e) => Zdigits2 (Z.pos m) <= prec /\ e <= -59
  | _ => False
  end.

(** ** Reasoning about programs *)

Section SatRules.
Variable A : call -> Prop.

Lemma sat_mono {X : Type} (P P' : X -> list call -> Prop) (p : prog X) :
  (forall x log, P x log -> P' x log) -> sat A P p -> sat A P' p.
Proof.
  revert P P'. induction p as [x | l d k IH]; intros P P' HPP' Hs.
  - apply HPP', Hs.
  - intros r Hr. eapply IH; [| apply Hs, Hr].
    intros x log. apply HPP'.
Qed.

Lemma sat_pbind {X Y : Type} (p : prog X) (f : X -> prog Y)
    (P : Y -> list call -> Prop) :
  sat A (fun x log1 => sat A (fun y log2 => P y (log1 ++ log2)) (f x)) p ->
  sat A P (pbind p f).
Proof.
  revert P. induction p as [x | l d k IH]; intros P Hs.
  - exact Hs.
  - intros r Hr. apply IH. exact (Hs r Hr).
Qed.

Lemma sat_interp {E X : Type} (bind : string -> dist -> E -> option value * E)
    (p : prog X) (P : X -> list call -> Prop) (e : E) :
  sat A P p ->
  Forall A (interp bind p e).2 ->
  P (interp bind p e).1.1 (interp bind p e).2.
Proof.
  revert P e. induction p as [x | l d k IH]; intros P e Hs HA.
  - exact Hs.
  - cbn [interp] in *. cbn [fst snd] in *.
    apply Forall_cons in HA as [Hr HA].
    exact (IH _ _ _ (Hs _ Hr) HA).
Qed.

Lemma sat_bindM {B C : Type} (m : M B) (f : B -> M C)
    (P : result C * store -> list call -> Prop) s :
  sat A (fun rs log1 =>
         match rs.1 with
         | Ok a => sat A (fun rs' log2 => P rs' (log1 ++ log2)) (f a rs.2)
         | Err e => P (Err e, rs.2) log1
         end) (m s) ->
  sat A P (bindM m f s).
Proof.
  intros H. unfold bindM. apply sat_pbind.
  eapply sat_mono; [| exact H].
  intros [[a | e] s'] log; cbn [fst snd]; intros Hx.
  - exact Hx.
  - cbn [sat]. rewrite app_nil_r. exact Hx.
Qed.

Lemma sat_env_bind (l : string) (d : dist)
    (P : result value * store -> list call -> Prop) s :
  (forall v, A (mkCall l d (Some v)) -> P (Ok v, s) [mkCall l d (Some v)]) ->
  (A (mkCall l d None) -> P (Err EnvError, s) [mkCall l d None]) ->
  sat A P (env_bind l d s).
Proof.
  intros Hv Hn [v |] Hr; cbn [sat]; auto.
Qed.

Lemma sat_for_each (body : Z -> Q -> M Q) (rng : list Z)
    (Inv : nat -> Q -> store -> list call -> Prop)
    (P : result Q * store -> list call -> Prop) :
  (forall k i t s log, rng !! k = Some i -> Inv k t s log ->
      sat A (fun rs log' =>
             match rs.1 with
             | Ok t' => Inv (S k) t' rs.2 (log ++ log')
             | Err e => P (Err e, rs.2) (log ++ log')
             end) (body i t s)) ->
  (forall t s log, Inv (length rng) t s log -> P (Ok t, s) log) ->
  forall t s, Inv 0%nat t s [] -> sat A P (for_each rng body t s).
Proof.
  revert Inv P. induction rng as [| i rng IH]; intros Inv P Hbody Hend t s H0.
  - apply Hend, H0.
  - cbn [for_each]. apply sat_bindM.
    eapply sat_mono; [| exact (Hbody 0%nat i t s [] eq_refl H0)].
    intros [[t' | e] s'] log'; cbn [app fst snd]; intros H1; [| exact H1].
    apply (IH (fun k t s log => Inv (S k) t s (log' ++ log))
              (fun rs log => P rs (log' ++ log))).
    + intros k j t1 s1 log Hk HI.
      eapply sat_mono; [| exact (Hbody (S k) j t1 s1 (log' ++ log) Hk HI)].
      intros [[t2 | e2] s2] log2; cbn [fst snd]; rewrite <- app_assoc; auto.
    + intros t1 s1 log HI. apply Hend, HI.
    + rewrite app_nil_r. exact H1.
Qed.
End SatRules.

(** ** Equations of the store operations *)

Lemma bindM_Ret {B C : Type} (m : M B) (f : B -> M C) s rs :
  m s = Ret rs ->
  bindM m f s = match rs.1 with Ok a => f a rs.2 | Err e => Ret (Err e, rs.2) end.
Proof. intros Hm. unfold bindM. rewrite Hm. reflexivity. Qed.

(** Run the first statement of a sequence by its equation. *)
Tactic Notation "run_stmt" uconstr(H) :=
  rewrite (bindM_Ret _ _ _ _ H); cbn [fst snd].

Lemma read_dict_eq l s d :
  heap s !! l = Some d -> read_dict l s = Ret (Ok d, s).
Proof. intros H. unfold read_dict. rewrite H. reflexivity. Qed.

Lemma getitem_Some {V : Type} (d : gmap string V) k v :
  d !! k = Some v -> getitem d (VStr k) = Ok v.
Proof. intros H. unfold getitem. rewrite H. reflexivity. Qed.

Lemma iadd_item_eq l k delta s d v :
  heap s !! l = Some d -> d !! k = Some v ->
  iadd_item l k delta s =
  Ret (match delta with
       | Ok dz => (Ok tt, mkStore (<[l := <[k := v + dz]> d]> (heap s)) (self s))
       | Err e => (Err e, s)
       end).
Proof.
  intros Hl Hk. unfold iadd_item.
  run_stmt (read_dict_eq _ _ _ Hl).
  rewrite (getitem_Some _ _ _ Hk). cbn [lift].
  run_stmt (eq_refl : ret v s = Ret (Ok v, s)).
  destruct delta as [dz | e]; reflexivity.
Qed.

Lemma clamp_item_eq l k s d v :
  heap s !! l = Some d -> d !! k = Some v ->
  clamp_item l k s =
  Ret (Ok tt, mkStore (<[l := <[k := max0 v]> d]> (heap s)) (self s)).
Proof.
  intros Hl Hk. unfold clamp_item.
  run_stmt (read_dict_eq _ _ _ Hl).
  rewrite (getitem_Some _ _ _ Hk). reflexivity.
Qed.

Lemma append_prey_eq l s d v :
  heap s !! l = Some d -> d !! "prey" = Some v ->
  append_prey l s =
  Ret (Ok tt,
       mkStore (heap s)
         (mkLV (transitions (self s)) (select_hyp (self s)) (initial (self s))
            (times (self s))
            (mkTrajectory (prey (trajectory (self s)) ++ [v])
               (pred (trajectory (self s))))
            (N (self s)))).
Proof.
  intros Hl Hk. unfold append_prey.
  run_stmt (read_dict_eq _ _ _ Hl).
  rewrite (getitem_Some _ _ _ Hk). reflexivity.
Qed.

Lemma append_pred_eq l s d v :
  heap s !! l = Some d -> d !! "pred" = Some v ->
  append_pred l s =
  Ret (Ok tt,
       mkStore (heap s)
         (mkLV (transitions (self s)) (select_hyp (self s)) (initial (self s))
            (times (self s))
            (mkTrajectory (prey (trajectory (self s)))
               (pred (trajectory (self s)) ++ [v]))
            (N (self s)))).
Proof.
  intros Hl Hk. unfold append_pred.
  run_stmt (read_dict_eq _ _ _ Hl).
  rewrite (getitem_Some _ _ _ Hk). reflexivity.
Qed.

Lemma prey_ne_pred : "prey" ≠ "pred".
Proof. discriminate. Qed.

Lemma step_tail_eq ecology row t' s d x y :
  heap s !! ecology = Some d -> d !! "prey" = Some x -> d !! "pred" = Some y ->
  (iadd_item ecology "prey" (index row 0) ;;;
   iadd_item ecology "pred" (index row 1) ;;;
   clamp_item ecology "prey" ;;;
   clamp_item ecology "pred" ;;;
   append_prey ecology ;;;
   append_pred ecology ;;;
   append_time t' ;;;
   ret t') s = Ret (fire ecology row t' d x y s).
Proof.
  intros Hl Hx Hy. unfold fire.
  run_stmt (iadd_item_eq _ _ _ _ _ _ Hl Hx).
  unfold index. destruct (row !! 0%nat) as [dx |]; cbn [fst snd]; [| reflexivity].
  set (d1 := <["prey" := x + dx]> d).
  set (s1 := mkStore (<[ecology := d1]> (heap s)) (self s)).
  assert (H1 : heap s1 !! ecology = Some d1) by apply lookup_insert_eq.
  assert (H1y : d1 !! "pred" = Some y).
  { unfold d1. rewrite lookup_insert_ne; [exact Hy | exact prey_ne_pred]. }
  run_stmt (iadd_item_eq _ _ _ _ _ _ H1 H1y).
  destruct (row !! 1%nat) as [dy |]; cbn [fst snd]; [| reflexivity].
  set (d2 := <["pred" := y + dy]> d1).
  set (s2 := mkStore (<[ecology := d2]> (heap s1)) (self s1)).
  assert (H2 : heap s2 !! ecology = Some d2) by apply lookup_insert_eq.
  assert (H2x : d2 !! "prey" = Some (x + dx)).
  { unfold d2, d1. rewrite lookup_insert_ne by (symmetry; exact prey_ne_pred).
    apply lookup_insert_eq. }
  run_stmt (clamp_item_eq _ _ _ _ _ H2 H2x).
  set (d3 := <["prey" := max0 (x + dx)]> d2).
  set (s3 := mkStore (<[ecology := d3]> (heap s2)) (self s2)).
  assert (H3 : heap s3 !! ecology = Some d3) by apply lookup_insert_eq.
  assert (H3y : d3 !! "pred" = Some (y + dy)).
  { unfold d3, d2. rewrite lookup_insert_ne by exact prey_ne_pred.
    apply lookup_insert_eq. }
  run_stmt (clamp_item_eq _ _ _ _ _ H3 H3y).
  set (d4 := <["pred" := max0 (y + dy)]> d3).
  set (s4 := mkStore (<[ecology := d4]> (heap s3)) (self s3)).
  assert (H4 : heap s4 !! ecology = Some d4) by apply lookup_insert_eq.
  assert (H4x : d4 !! "prey" = Some (max0 (x + dx))).
  { unfold d4, d3. rewrite lookup_insert_ne by (symmetry; exact prey_ne_pred).
    apply lookup_insert_eq. }
  assert (H4y : d4 !! "pred" = Some (max0 (y + dy))) by apply lookup_insert_eq.
  run_stmt (append_prey_eq _ _ _ _ H4 H4x).
  match goal with |- bindM _ _ ?s5 = _ => set (s5' := s5) end.
  assert (H5 : heap s5' !! ecology = Some d4) by exact H4.
  run_stmt (append_pred_eq _ _ _ _ H5 H4y).
  unfold s5', s4, s3, s2, s1. cbn [heap self].
  rewrite !insert_insert_eq.
  reflexivity.
Qed.

(** ** The loop body and the run, exit by exit *)

Lemma get_hazards_Ok ecology theta hz :
  get_hazards ecology theta = Ok hz ->
  exists a b c x y,
    theta !! "spawn_prey" = Some a /\ theta !! "prey2pred" = Some b /\
    theta !! "pred_dies" = Some c /\
    ecology !! "prey" = Some x /\ ecology !! "pred" = Some y /\
    hz = [ ("spawn_prey", a * inject_Z x);
           ("prey2pred", b * inject_Z x * inject_Z y);
           ("pred_dies", c * inject_Z y) ]%Q.
Proof.
  unfold get_hazards, getitem.
  destruct (theta !! "spawn_prey") as [a |]; [| discriminate].
  destruct (ecology !! "prey") as [x |]; [| discriminate].
  destruct (theta !! "prey2pred") as [b |]; [| discriminate].
  destruct (ecology !! "pred") as [y |]; [| discriminate].
  destruct (theta !! "pred_dies") as [c |]; [| discriminate].
  intros [= <-]. exists a, b, c, x, y. auto 10.
Qed.

Lemma sat_step (A : call -> Prop) ecology theta i t s d
    (P : result Q * store -> list call -> Prop) :
  heap s !! ecology = Some d ->
  (forall e, get_hazards d theta = Err e -> P (Err e, s) []) ->
  (forall hz x y,
      get_hazards d theta = Ok hz ->
      d !! "prey" = Some x -> d !! "pred" = Some y ->
      let c1 := mkCall ("event_" +:+ pretty i) (Discrete hz) in
      let c2 := mkCall ("t_" +:+ pretty i)
                  (Exponential (sum (dict_values hz))) in
      (A (c1 None) -> P (Err EnvError, s) [c1 None]) /\
      (forall ev, A (c1 (Some ev)) ->
         (forall e, getitem (transitions (self s)) ev = Err e ->
                    P (Err e, s) [c1 (Some ev)]) /\
         (forall row, getitem (transitions (self s)) ev = Ok row ->
            (A (c2 None) -> P (Err EnvError, s) [c1 (Some ev); c2 None]) /\
            (forall w, A (c2 (Some w)) ->
               match add_time t w with
               | Err e => P (Err e, s) [c1 (Some ev); c2 (Some w)]
               | Ok t' =>
                   P (fire ecology row t' d x y s) [c1 (Some ev); c2 (Some w)]
               end)))) ->
  sat A P (step ecology theta i t s).
Proof.
  intros Hl Herr Hok. unfold step.
  run_stmt (read_dict_eq _ _ _ Hl).
  destruct (get_hazards d theta) as [hz | e] eqn:Hhz.
  2:{ run_stmt (eq_refl : lift (Err e) s = Ret (Err e, s)). apply Herr. reflexivity. }
  run_stmt (eq_refl : lift (Ok hz) s = Ret (Ok hz, s)).
  run_stmt (eq_refl : get_self s = Ret (Ok (self s), s)).
  destruct (get_hazards_Ok _ _ _ Hhz) as (a & b & c & x & y & _ & _ & _ & Hx & Hy & _).
  destruct (Hok hz x y eq_refl Hx Hy) as [Hnone Hsome].
  apply sat_bindM, sat_env_bind; cbn [fst snd]; [| exact Hnone].
  intros ev Hev. destruct (Hsome ev Hev) as [Hkey Hrow].
  destruct (getitem (transitions (self s)) ev) as [row | e] eqn:Hget.
  2:{ run_stmt (eq_refl : lift (Err e) s = Ret (Err e, s)). apply Hkey. reflexivity. }
  run_stmt (eq_refl : lift (Ok row) s = Ret (Ok row, s)).
  destruct (Hrow row eq_refl) as [Hnone2 Hsome2].
  apply sat_bindM, sat_env_bind; cbn [fst snd]; [| exact Hnone2].
  intros w Hw. specialize (Hsome2 w Hw).
  destruct (add_time t w) as [t' | e] eqn:Hadd.
  2:{ run_stmt (eq_refl : lift (Err e) s = Ret (Err e, s)). exact Hsome2. }
  run_stmt (eq_refl : lift (Ok t') s = Ret (Ok t', s)).
  rewrite (step_tail_eq _ _ _ _ _ _ _ Hl Hx Hy).
  exact Hsome2.
Qed.

Lemma sat_run (A : call -> Prop) s (P : result unit * store -> list call -> Prop) :
  (heap s !! initial (self s) = None -> P (Err NoSuchObject, s) []) ->
  (forall d0, heap s !! initial (self s) = Some d0 ->
     let ecology := fresh (dom (heap s)) in
     let s1 := mkStore (<[ecology := d0]> (heap s)) (self s) in
     let c0 := mkCall "theta" (Discrete (hypothesis_prior (select_hyp (self s)))) in
     (A (c0 None) -> P (Err EnvError, s1) [c0 None]) /\
     (forall v, A (c0 (Some v)) ->
        (forall e, getitem theta_hypotheses v = Err e ->
                   P (Err e, s1) [c0 (Some v)]) /\
        (forall theta, getitem theta_hypotheses v = Ok theta ->
           (times (self s) = [] -> P (Err IndexError, s1) [c0 (Some v)]) /\
           (forall t0 ts, times (self s) = t0 :: ts ->
              sat A (fun rs log => P (unit_of rs.1, rs.2) (c0 (Some v) :: log))
                (for_each (range 1 (N (self s))) (step ecology theta) t0 s1))))) ->
  sat A P (run s).
Proof.
  intros Hnone Hsome. unfold run.
  run_stmt (eq_refl : get_self s = Ret (Ok (self s), s)).
  destruct (heap s !! initial (self s)) as [d0 |] eqn:Hd0.
  2:{ assert (Hdc : deepcopy (initial (self s)) s = Ret (Err NoSuchObject, s)).
      { unfold deepcopy. rewrite Hd0. reflexivity. }
      run_stmt Hdc. apply Hnone. reflexivity. }
  assert (Hdc : deepcopy (initial (self s)) s =
                Ret (Ok (fresh (dom (heap s))),
                     mkStore (<[fresh (dom (heap s)) := d0]> (heap s)) (self s))).
  { unfold deepcopy. rewrite Hd0. reflexivity. }
  run_stmt Hdc.
  destruct (Hsome d0 eq_refl) as [Hn Hv].
  apply sat_bindM, sat_env_bind; cbn [fst snd]; [| exact Hn].
  intros v HAv. destruct (Hv v HAv) as [Hkey Hth].
  set (s1 := mkStore _ _) in *.
  destruct (getitem theta_hypotheses v) as [theta | e] eqn:Hget.
  2:{ run_stmt (eq_refl : lift (Err e) s1 = Ret (Err e, s1)). apply Hkey. reflexivity. }
  run_stmt (eq_refl : lift (Ok theta) s1 = Ret (Ok theta, s1)).
  destruct (Hth theta eq_refl) as [Hnil Hcons].
  destruct (times (self s)) as [| t0 ts] eqn:Hts.
  { run_stmt (eq_refl : lift (Err IndexError) s1 = Ret (Err IndexError, s1)).
    apply Hnil. reflexivity. }
  run_stmt (eq_refl : lift (Ok t0) s1 = Ret (Ok t0, s1)).
  apply sat_bindM. eapply sat_mono; [| exact (Hcons t0 ts eq_refl)].
  intros [[t' | e] s'] log; cbn [unit_of fst snd app]; intros HP.
  - cbn [ret sat]. rewrite app_nil_r. exact HP.
  - exact HP.
Qed.

Lemma sat_run_in (A : call -> Prop) (P : result unit * store -> list call -> Prop)
    {E : Type} (bind : string -> dist -> E -> option value * E) s e :
  sat A P (run s) ->
  Forall A (calls (run_in bind s e)) ->
  P (fst (run_in bind s e)) (calls (run_in bind s e)).
Proof. intros Hs HA. exact (sat_interp A bind (run s) P e Hs HA). Qed.

Lemma Forall_True {X : Type} (l : list X) : Forall (fun _ => True) l.
Proof. apply Forall_forall. auto. Qed.

(** ** The caller's dictionary is left alone *)

Lemma init_initial tr l n hyp t0 h o :
  __init__ tr l n hyp t0 h = Ok o ->
  initial o = l /\ transitions o = tr /\ select_hyp o = hyp /\ N o = n /\
  times o = [t0] /\
  exists d x y, h !! l = Some d /\ d !! "prey" = Some x /\ d !! "pred" = Some y /\
                trajectory o = mkTrajectory [x] [y].
Proof.
  unfold __init__, getitem.
  destruct (h !! l) as [d |]; [| discriminate].
  destruct (d !! "prey") as [x |] eqn:Hx; [| discriminate].
  destruct (d !! "pred") as [y |] eqn:Hy; [| discriminate].
  intros [= <-]. cbn [initial transitions select_hyp N times trajectory].
  repeat (split; [reflexivity |]). exists d, x, y. auto.
Qed.

Lemma run_frame {E : Type} (bind : string -> dist -> E -> option value * E) s e :
  initial (self (final_store (run_in bind s e))) = initial (self s) /\
  forall l d, heap s !! l = Some d ->
              heap (final_store (run_in bind s e)) !! l = Some d.
Proof.
  pose (R := fun s' : store =>
    initial (self s') = initial (self s) /\
    forall l d, heap s !! l = Some d -> heap s' !! l = Some d).
  assert (HR0 : R s) by (split; auto).
  apply (sat_run_in (fun _ => True) (fun rs _ => R rs.2)); [| apply Forall_True].
  apply sat_run; [auto |].
  intros d0 Hd0 ecology s1 c0.
  assert (Hfresh : heap s !! ecology = None).
  { apply not_elem_of_dom, is_fresh. }
  assert (HR1 : R s1).
  { split; [reflexivity |]. intros l d Hl. cbn.
    rewrite lookup_insert_ne; [exact Hl |]. intros ->. congruence. }
  split; [auto |]. intros v _. split; [auto |]. intros theta _. split; [auto |].
  intros t0 ts _.
  apply (sat_for_each _ _ _
           (fun _ _ s' _ => R s' /\ exists d, heap s' !! ecology = Some d)).
  - intros k i t s' log _ [HR [d Hd]].
    apply (sat_step _ _ _ _ _ _ d); [exact Hd | auto |].
    intros hz x y _ Hx Hy c1 c2.
    split; [auto |]. intros ev _. split; [auto |]. intros row _.
    split; [auto |]. intros w _.
    destruct (add_time t w) as [t' | e']; [| exact HR].
    destruct HR as [HRi HRh].
    unfold fire.
    destruct (row !! 0%nat) as [dx |]; [| split; auto].
    destruct (row !! 1%nat) as [dy |]; unfold R; cbn [fst snd heap self initial].
    + split; [split |].
      * exact HRi.
      * intros l d' Hl. rewrite lookup_insert_ne; [auto |]. intros ->. congruence.
      * eexists. apply lookup_insert_eq.
    + split; [exact HRi |].
      intros l d' Hl. rewrite lookup_insert_ne; [auto |]. intros ->. congruence.
  - intros t s' log [HR _]. exact HR.
  - split; [exact HR1 |]. exists d0. apply lookup_insert_eq.
Qed.

(** C10.  A run leaves the dictionary passed to the constructor as it was:
    [run] works on a deep copy at a fresh address, so after a run from a
    simulator built by [__init__], whatever the environment replies and
    however the run ends, [self.initial] still is the caller's address and
    the heap holds the same mapping there (and at every other address the
    caller had). *)
Theorem run_never_mutates_initial {E : Type}
    (bind : string -> dist -> E -> option value * E) (e : E)
    tr l n hyp t0 (h : gmap loc (gmap string Z)) o :
  __init__ tr l n hyp t0 h = Ok o ->
  initial o = l /\
  initial (self (final_store (run_in bind (mkStore h o) e))) = l /\
  heap (final_store (run_in bind (mkStore h o) e)) !! l = h !! l /\
  forall l' d, h !! l' = Some d ->
               heap (final_store (run_in bind (mkStore h o) e)) !! l' = Some d.
Proof.
  intros Hinit.
  destruct (init_initial _ _ _ _ _ _ _ Hinit)
    as (Hl & _ & _ & _ & _ & d & _ & _ & Hd & _).
  destruct (run_frame bind (mkStore h o) e) as [Hi Hh]. cbn [heap self] in *.
  split; [exact Hl |]. split; [congruence |]. split; [| exact Hh].
  rewrite Hd. apply Hh, Hd.
Qed.

(** ** Recorded counts *)

Lemma run_appends {E : Type} (bind : string -> dist -> E -> option value * E) s e :
  exists app_prey app_pred,
    prey (trajectory (self (final_store (run_in bind s e)))) =
      prey (trajectory (self s)) ++ app_prey /\
    pred (trajectory (self (final_store (run_in bind s e)))) =
      pred (trajectory (self s)) ++ app_pred /\
    Forall (fun z => 0 <= z) app_prey /\ Forall (fun z => 0 <= z) app_pred.
Proof.
  pose (R := fun s' : store =>
    exists app_prey app_pred,
      prey (trajectory (self s')) = prey (trajectory (self s)) ++ app_prey /\
      pred (trajectory (self s')) = pred (trajectory (self s)) ++ app_pred /\
      Forall (fun z => 0 <= z) app_prey /\ Forall (fun z => 0 <= z) app_pred).
  assert (HR0 : R s).
  { exists [], []. rewrite !app_nil_r. auto. }
  apply (sat_run_in (fun _ => True) (fun rs _ => R rs.2)); [| apply Forall_True].
  apply sat_run; [auto |].
  intros d0 Hd0 ecology s1 c0.
  split; [auto |]. intros v _. split; [auto |]. intros theta _. split; [auto |].
  intros t0 ts _.
  apply (sat_for_each _ _ _
           (fun _ _ s' _ => R s' /\ exists d, heap s' !! ecology = Some d)).
  - intros k i t s' log _ [HR [d Hd]].
    apply (sat_step _ _ _ _ _ _ d); [exact Hd | auto |].
    intros hz x y _ Hx Hy c1 c2.
    split; [auto |]. intros ev _. split; [auto |]. intros row _.
    split; [auto |]. intros w _.
    destruct (add_time t w) as [t' | e']; [| exact HR].
    unfold fire.
    destruct (row !! 0%nat) as [dx |]; [| exact HR].
    destruct (row !! 1%nat) as [dy |]; cbn [fst snd]; [| exact HR].
    split; [| eexists; apply lookup_insert_eq].
    destruct HR as (ap & aq & Hp & Hq & Fp & Fq).
    exists (ap ++ [max0 (x + dx)]), (aq ++ [max0 (y + dy)]).
    cbn [self trajectory prey pred]. rewrite Hp, Hq, <- !app_assoc.
    split; [reflexivity |]. split; [reflexivity |].
    split; apply Forall_app; (split; [assumption |]);
      apply Forall_singleton; unfold max0; lia.
  - intros t s' log [HR _]. exact HR.
  - split; [exact HR0 |]. exists d0. apply lookup_insert_eq.
Qed.

(** C1.  Every count a run appends to the prey and pred trajectories is
    non-negative: for a simulator built by [__init__] from initial counts [x]
    and [y], any step count [N], and any replies of the environment (also
    when the run ends in an exception), the trajectories after the run are
    [x] and [y] followed by non-negative integers; so with [x] and [y]
    non-negative every recorded count is. *)
Theorem run_records_nonnegative_counts {E : Type}
    (bind : string -> dist -> E -> option value * E) (e : E)
    tr l n hyp t0 (h : gmap loc (gmap string Z)) o :
  __init__ tr l n hyp t0 h = Ok o ->
  exists x y app_prey app_pred,
    trajectory o = mkTrajectory [x] [y] /\
    prey (trajectory (self (final_store (run_in bind (mkStore h o) e)))) =
      x :: app_prey /\
    pred (trajectory (self (final_store (run_in bind (mkStore h o) e)))) =
      y :: app_pred /\
    Forall (fun z => 0 <= z) app_prey /\ Forall (fun z => 0 <= z) app_pred /\
    (0 <= x -> 0 <= y ->
     Forall (fun z => 0 <= z)
       (prey (trajectory (self (final_store (run_in bind (mkStore h o) e))))) /\
     Forall (fun z => 0 <= z)
       (pred (trajectory (self (final_store (run_in bind (mkStore h o) e)))))).
Proof.
  intros Hinit.
  destruct (init_initial _ _ _ _ _ _ _ Hinit)
    as (_ & _ & _ & _ & _ & d & x & y & _ & _ & _ & Htr).
  destruct (run_appends bind (mkStore h o) e)
    as (app_prey & app_pred & Hp & Hq & Fp & Fq).
  cbn [self] in Hp, Hq. rewrite Htr in Hp, Hq. cbn [prey pred app] in Hp, Hq.
  exists x, y, app_prey, app_pred.
  split; [exact Htr |]. split; [exact Hp |]. split; [exact Hq |].
  split; [exact Fp |]. split; [exact Fq |].
  intros Hx Hy. rewrite Hp, Hq.
  split; apply Forall_cons; split; assumption.
Qed.

(** ** Lengths and times *)

Lemma run_lengths {E : Type} (bind : string -> dist -> E -> option value * E)
    s e t0 x y :
  times (self s) = [t0] ->
  trajectory (self s) = mkTrajectory [x] [y] ->
  outcome (run_in bind s e) = Ok tt ->
  length (times (self (final_store (run_in bind s e)))) =
    Z.to_nat (Z.max 1 (N (self s))) /\
  length (prey (trajectory (self (final_store (run_in bind s e))))) =
    Z.to_nat (Z.max 1 (N (self s))) /\
  length (pred (trajectory (self (final_store (run_in bind s e))))) =
    Z.to_nat (Z.max 1 (N (self s))).
Proof.
  intros Ht Htr.
  pose (L := fun (k : nat) (s' : store) =>
    length (times (self s')) = S k /\
    length (prey (trajectory (self s'))) = S k /\
    length (pred (trajectory (self s'))) = S k).
  assert (HL0 : L 0%nat s).
  { unfold L. rewrite Ht, Htr. auto. }
  assert (Hlen : S (length (range 1 (N (self s)))) = Z.to_nat (Z.max 1 (N (self s)))).
  { unfold range. rewrite length_seqZ. lia. }
  rewrite <- Hlen.
  apply (sat_run_in (fun _ => True)
           (fun rs _ => rs.1 = Ok tt -> L (length (range 1 (N (self s)))) rs.2)
           bind s e); [| apply Forall_True].
  apply sat_run; [discriminate |].
  intros d0 Hd0 ecology s1 c0.
  split; [discriminate |]. intros v _. split; [discriminate |].
  intros theta _. split; [discriminate |].
  intros t1 ts _.
  apply (sat_for_each _ _ _
           (fun k _ s' _ => L k s' /\ exists d, heap s' !! ecology = Some d)).
  - intros k i t s' log _ [HL [d Hd]].
    apply (sat_step _ _ _ _ _ _ d); [exact Hd | discriminate |].
    intros hz x' y' _ Hx Hy c1 c2.
    split; [discriminate |]. intros ev _. split; [discriminate |]. intros row _.
    split; [discriminate |]. intros w _.
    destruct (add_time t w) as [t' | e']; [| discriminate].
    unfold fire.
    destruct (row !! 0%nat) as [dx |]; [| discriminate].
    destruct (row !! 1%nat) as [dy |]; cbn [fst snd]; [| discriminate].
    split; [| eexists; apply lookup_insert_eq].
    destruct HL as (H1 & H2 & H3). unfold L.
    cbn [self times trajectory prey pred].
    rewrite !length_app, H1, H2, H3. cbn [length]. lia.
  - intros t s' log [HL _] _. exact HL.
  - split; [exact HL0 |]. exists d0. apply lookup_insert_eq.
Qed.

Lemma Sorted_Qle_snoc (l : list Q) (a b : Q) :
  Sorted Qle (l ++ [a]) -> (a <= b)%Q -> Sorted Qle ((l ++ [a]) ++ [b]).
Proof.
  intros Hs Hab. induction l as [| c l IH]; cbn [app] in *.
  - repeat constructor. exact Hab.
  - apply Sorted_inv in Hs as [Hs Hhd]. constructor; [apply IH, Hs |].
    destruct l; cbn [app] in *; apply HdRel_inv in Hhd; constructor; exact Hhd.
Qed.

Lemma run_times_sorted {E : Type} (bind : string -> dist -> E -> option value * E)
    s e t0 :
  times (self s) = [t0] ->
  Forall nonneg_wait (calls (run_in bind s e)) ->
  Sorted Qle (times (self (final_store (run_in bind s e)))).
Proof.
  intros Ht.
  assert (HS0 : Sorted Qle (times (self s))).
  { rewrite Ht. repeat constructor. }
  apply (sat_run_in nonneg_wait (fun rs _ => Sorted Qle (times (self rs.2)))).
  apply sat_run; [auto |].
  intros d0 Hd0 ecology s1 c0.
  split; [auto |]. intros v _. split; [auto |]. intros theta _. split; [auto |].
  intros t1 ts Hts. rewrite Ht in Hts. injection Hts as <- <-.
  apply (sat_for_each _ _ _
           (fun _ t s' _ =>
              (exists ts, times (self s') = ts ++ [t] /\ Sorted Qle (ts ++ [t])) /\
              exists d, heap s' !! ecology = Some d)).
  - intros k i t s' log _ [(ts & Hts & Hsorted) [d Hd]].
    assert (HS : Sorted Qle (times (self s'))) by (rewrite Hts; exact Hsorted).
    apply (sat_step _ _ _ _ _ _ d); [exact Hd | auto |].
    intros hz x y _ Hx Hy c1 c2.
    split; [auto |]. intros ev _. split; [auto |]. intros row _.
    split; [auto |]. intros [? | q] Hw; cbn [add_time]; [exact HS |].
    unfold fire.
    destruct (row !! 0%nat) as [dx |]; [| exact HS].
    destruct (row !! 1%nat) as [dy |]; cbn [fst snd]; [| exact HS].
    assert (Hle : (t <= t + q)%Q).
    { unfold nonneg_wait in Hw. cbn in Hw.
      rewrite <- (Qplus_0_r t) at 1. apply Qplus_le_r. exact Hw. }
    split; [| eexists; apply lookup_insert_eq].
    exists (ts ++ [t]). cbn [self times]. rewrite Hts.
    split; [reflexivity |]. apply Sorted_Qle_snoc; assumption.
  - intros t s' log [(ts & Hts & Hsorted) _]. cbn [fst snd]. rewrite Hts. exact Hsorted.
  - split; [| exists d0; apply lookup_insert_eq].
    exists []. cbn [s1 self app]. rewrite Ht.
    split; [reflexivity |]. repeat constructor.
Qed.

(** C5 (as amended).  A run that completes on a simulator built by [__init__]
    with step count [N] leaves time, prey and pred sequences of one common
    length, [max(1, N)] (so exactly [N] when [N >= 1]: the constructor's
    entry and one per loop pass); and when every waiting time the
    environment draws from an [Exponential] is non-negative, the time
    sequence is non-decreasing. *)
Theorem completed_run_lengths_and_times {E : Type}
    (bind : string -> dist -> E -> option value * E) (e : E)
    tr l n hyp t0 (h : gmap loc (gmap string Z)) o :
  __init__ tr l n hyp t0 h = Ok o ->
  outcome (run_in bind (mkStore h o) e) = Ok tt ->
  length (times (self (final_store (run_in bind (mkStore h o) e)))) =
    Z.to_nat (Z.max 1 n) /\
  length (prey (trajectory (self (final_store (run_in bind (mkStore h o) e))))) =
    Z.to_nat (Z.max 1 n) /\
  length (pred (trajectory (self (final_store (run_in bind (mkStore h o) e))))) =
    Z.to_nat (Z.max 1 n) /\
  (Forall nonneg_wait (calls (run_in bind (mkStore h o) e)) ->
   Sorted Qle (times (self (final_store (run_in bind (mkStore h o) e))))).
Proof.
  intros Hinit Hok.
  destruct (init_initial _ _ _ _ _ _ _ Hinit)
    as (_ & _ & _ & Hn & Ht & d & x & y & _ & _ & _ & Htr).
  destruct (run_lengths bind (mkStore h o) e t0 x y Ht Htr Hok) as (H1 & H2 & H3).
  cbn [self] in *. rewrite Hn in *.
  repeat (split; [assumption |]).
  apply (run_times_sorted bind (mkStore h o) e t0 Ht).
Qed.

(** ** Hazards *)

Lemma inject_Z_nonneg (z : Z) : 0 <= z -> (0 <= inject_Z z)%Q.
Proof. intros H. change 0%Q with (inject_Z 0). rewrite <- Zle_Qle. exact H. Qed.

(** ** Signs in binary64 *)

Lemma shr_1_nonneg (mrs : shr_record) : 0 <= shr_m mrs -> 0 <= shr_m (shr_1 mrs).
Proof.
  destruct mrs as [m r s]. cbn [shr_m].
  destruct m as [| [p | p |] | p]; cbn [shr_1 shr_m]; lia.
Qed.

Lemma iter_pos_shr_1_nonneg (p : positive) (mrs : shr_record) :
  0 <= shr_m mrs -> 0 <= shr_m (SpecFloat.iter_pos shr_1 p mrs).
Proof.
  revert mrs. induction p as [p IH | p IH |]; intros mrs H; cbn [SpecFloat.iter_pos].
  - apply IH, IH, shr_1_nonneg, H.
  - apply IH, IH, H.
  - apply shr_1_nonneg, H.
Qed.

Lemma shr_fexp_nonneg (m e : Z) (l : location) :
  0 <= m -> 0 <= shr_m (shr_fexp prec emax m e l).1.
Proof.
  intros H. unfold shr_fexp, shr.
  assert (H0 : 0 <= shr_m (shr_record_of_loc m l)).
  { destruct l as [| []]; exact H. }
  destruct (fexp prec emax (Zdigits2 m + e) - e) as [| p | p]; cbn [fst];
    [exact H0 | apply iter_pos_shr_1_nonneg, H0 | exact H0].
Qed.

Lemma round_nearest_even_nonneg (m : Z) (l : location) :
  0 <= m -> 0 <= round_nearest_even m l.
Proof.
  intros H. destruct l as [| []]; cbn [round_nearest_even]; try lia.
  destruct (Z.even m); lia.
Qed.

(** A rounded value keeps the sign it was given. *)
Lemma binary_round_aux_signed (s : bool) (m : positive) (e : Z) :
  signed s (binary_round_aux prec emax s (Zpos m) e loc_Exact).
Proof.
  unfold binary_round_aux.
  pose proof (shr_fexp_nonneg (Zpos m) e loc_Exact ltac:(lia)) as H1.
  destruct (shr_fexp prec emax (Z.pos m) e loc_Exact) as [mrs' e'].
  cbn [fst] in H1.
  pose proof (shr_fexp_nonneg _ e' loc_Exact
                (round_nearest_even_nonneg _ (loc_of_shr_record mrs') H1)) as H2.
  destruct (shr_fexp prec emax _ e' loc_Exact) as [mrs'' e''].
  cbn [fst] in H2.
  destruct (shr_m mrs'') as [| p | p]; [left; reflexivity | | lia].
  destruct (e'' <=? emax - prec); [right; left; eauto | right; right; reflexivity].
Qed.

Lemma float_of_int_nonneg (z : Z) (f : spec_float) :
  0 <= z -> float_of_int z = Value f ->
  f = S754_zero false \/ exists m e, f = S754_finite false m e.
Proof.
  intros Hz. unfold float_of_int, binary_normalize.
  destruct z as [| p | p]; [intros [= <-]; auto | | lia].
  unfold binary_round.
  destruct (shl_align _ _ _) as [mz ez].
  destruct (binary_round_aux_signed false mz ez) as [-> | [(m & e & ->) | ->]];
    [intros [= <-]; auto | intros [= <-]; eauto | discriminate].
Qed.

Lemma SFmul_signed (s1 s2 : bool) (f g : spec_float) :
  (exists m e, f = S754_finite s1 m e) ->
  g = S754_zero s2 \/ (exists m e, g = S754_finite s2 m e) ->
  signed (xorb s1 s2) (SFmul prec emax f g) /\
  (g = S754_zero s2 -> SFmul prec emax f g = S754_zero (xorb s1 s2)).
Proof.
  intros (m & e & ->) [-> | (m' & e' & ->)]; cbn [SFmul].
  - split; [left |]; reflexivity.
  - split; [apply binary_round_aux_signed | discriminate].
Qed.

Lemma py_nonneg_of (h : num) : nonneg_num h -> py_nonneg h = true.
Proof.
  destruct h as [k | f]; cbn [nonneg_num py_nonneg].
  - intros H. apply Z.leb_le, H.
  - intros [-> | [(m & e & ->) | ->]]; reflexivity.
Qed.

Lemma py_is_zero_of (h : num) : zero_num h -> py_is_zero h = true.
Proof. intros [-> | ->]; reflexivity. Qed.

Lemma float_of_int_0 : float_of_int 0 = Value (S754_zero false).
Proof. reflexivity. Qed.

(** A positive finite rate times a count that is not negative. *)
Lemma py_mul_rate_count (r : num) (z : Z) (h : num) :
  positive_rate r -> 0 <= z -> py_mul r (Int z) = Value h ->
  nonneg_num h /\ (z = 0 -> zero_num h).
Proof.
  intros Hr Hz. destruct r as [k | f]; cbn [py_mul positive_rate] in *.
  - intros [= <-]. cbn [nonneg_num]. split; [nia |].
    intros ->. left. f_equal. lia.
  - destruct f as [| | | [] m e]; try contradiction.
    destruct (float_of_int z) as [g |] eqn:Hg; [| discriminate].
    cbn [and_then]. intros [= <-].
    destruct (SFmul_signed false false (S754_finite false m e) g
                ltac:(eauto) (float_of_int_nonneg z g Hz Hg)) as [Hs Hzero].
    split; [exact Hs |].
    intros ->. rewrite float_of_int_0 in Hg. injection Hg as <-.
    right. reflexivity.
Qed.

(** A product that is not negative and not infinite, times a count that is
    not negative. *)
Lemma py_mul_product_count (q : num) (z : Z) (h : num) :
  nonneg_num q -> q <> Float (S754_infinity false) -> 0 <= z ->
  py_mul q (Int z) = Value h ->
  nonneg_num h /\ (zero_num q -> zero_num h) /\ (z = 0 -> zero_num h).
Proof.
  intros Hq Hfin Hz. destruct q as [k | f]; cbn [py_mul nonneg_num] in *.
  - intros [= <-]. cbn [nonneg_num]. split; [nia |].
    split.
    + intros [[= ->] | [=]]. left. reflexivity.
    + intros ->. left. f_equal. lia.
  - destruct (float_of_int z) as [g |] eqn:Hg; [| discriminate].
    cbn [and_then]. intros [= <-].
    pose proof (float_of_int_nonneg z g Hz Hg) as Hg'.
    destruct Hq as [-> | [(m & e & ->) | ->]]; [| | contradiction].
    + assert (Hzero : SFmul prec emax (S754_zero false) g = S754_zero false).
      { destruct Hg' as [-> | (m' & e' & ->)]; reflexivity. }
      rewrite Hzero. split; [left; reflexivity |].
      split; intros _; right; reflexivity.
    + destruct (SFmul_signed false false (S754_finite false m e) g
                  ltac:(eauto) Hg') as [Hs Hzero].
      split; [exact Hs |]. split.
      * intros [[=] | [=]].
      * intros ->. rewrite float_of_int_0 in Hg. injection Hg as <-.
        right. reflexivity.
Qed.

Lemma item_Some {V : Type} (d : gmap string V) (k : string) (v : V) :
  d !! k = Some v -> item d k = Value v.
Proof. intros H. unfold item, getitem. rewrite H. reflexivity. Qed.

Lemma and_then_Value {A B : Type} (m : py_result A) (f : A -> py_result B) (b : B) :
  and_then m f = Value b -> exists a, m = Value a /\ f a = Value b.
Proof. destruct m as [a | e]; [eauto | discriminate]. Qed.

Lemma py_mul_Fails (a b : num) (e : py_exn) :
  py_mul a b = Fails e -> e = OverflowError.
Proof.
  assert (Hconv : forall z e', float_of_int z = Fails e' -> e' = OverflowError).
  { intros z e'. unfold float_of_int.
    destruct (binary_normalize prec emax z 0 false); congruence. }
  destruct a as [x | f], b as [y | g]; cbn [py_mul]; try discriminate.
  - destruct (float_of_int x) as [f |] eqn:Hx; [discriminate |].
    cbn [and_then]. intros [= <-]. exact (Hconv _ _ Hx).
  - destruct (float_of_int y) as [g |] eqn:Hy; [discriminate |].
    cbn [and_then]. intros [= <-]. exact (Hconv _ _ Hy).
Qed.

(** C2 (as amended).  In Python's arithmetic, for counts [x] of prey and [y]
    of predators that are not negative and rates [a], [b], [c] that are
    positive and finite, [get_hazards] evaluates the products [a * x],
    [(b * x) * y] and [c * y] in this order and returns them under the keys
    spawn_prey, prey2pred and pred_dies, unless the conversion of a count
    to a float raises OverflowError.  Of the mapping it returns, the hazards
    of spawn_prey and pred_dies are [>= 0]; the hazard of spawn_prey is zero
    when there is no prey and that of pred_dies when there are no predators;
    the hazard of prey2pred is zero when there is no prey, and it is
    [>= 0], and zero when there are no predators, as long as [b * x] has not
    overflowed to infinity; when it has and there are no predators the
    hazard is NaN. *)
Theorem get_hazards_mass_action (ecology : gmap string Z) (theta : gmap string num)
    (a b c : num) (x y : Z) :
  theta !! "spawn_prey" = Some a ->
  theta !! "prey2pred" = Some b ->
  theta !! "pred_dies" = Some c ->
  positive_rate a -> positive_rate b -> positive_rate c ->
  ecology !! "prey" = Some x -> ecology !! "pred" = Some y ->
  0 <= x -> 0 <= y ->
  Py.get_hazards ecology theta =
    and_then (py_mul a (Int x)) (fun h1 =>
    and_then (py_mul b (Int x)) (fun q =>
    and_then (py_mul q (Int y)) (fun h2 =>
    and_then (py_mul c (Int y)) (fun h3 =>
    Value [("spawn_prey", h1); ("prey2pred", h2); ("pred_dies", h3)])))) /\
  (forall e, Py.get_hazards ecology theta = Fails e -> e = OverflowError) /\
  (forall hz, Py.get_hazards ecology theta = Value hz ->
     exists h1 q h2 h3,
       hz = [("spawn_prey", h1); ("prey2pred", h2); ("pred_dies", h3)] /\
       py_mul a (Int x) = Value h1 /\
       py_mul b (Int x) = Value q /\
       py_mul q (Int y) = Value h2 /\
       py_mul c (Int y) = Value h3 /\
       py_nonneg h1 = true /\ py_nonneg h3 = true /\
       (x = 0 -> py_is_zero h1 = true /\ py_is_zero h2 = true) /\
       (y = 0 -> py_is_zero h3 = true) /\
       (q <> Float (S754_infinity false) ->
        py_nonneg h2 = true /\ (y = 0 -> py_is_zero h2 = true)) /\
       (q = Float (S754_infinity false) -> y = 0 -> h2 = Float S754_nan)).
Proof.
  intros Ha Hb Hc Pa Pb Pc Hx Hy Px Py.
  assert (Heq : Py.get_hazards ecology theta =
    and_then (py_mul a (Int x)) (fun h1 =>
    and_then (py_mul b (Int x)) (fun q =>
    and_then (py_mul q (Int y)) (fun h2 =>
    and_then (py_mul c (Int y)) (fun h3 =>
    Value [("spawn_prey", h1); ("prey2pred", h2); ("pred_dies", h3)]))))).
  { unfold Py.get_hazards.
    rewrite (item_Some _ _ _ Ha), (item_Some _ _ _ Hb), (item_Some _ _ _ Hc),
      (item_Some _ _ _ Hx), (item_Some _ _ _ Hy).
    reflexivity. }
  split; [exact Heq |]. rewrite Heq. split.
  - intros e.
    destruct (py_mul a (Int x)) as [h1 |] eqn:E1; cbn [and_then];
      [| intros [= <-]; exact (py_mul_Fails _ _ _ E1)].
    destruct (py_mul b (Int x)) as [q |] eqn:E2; cbn [and_then];
      [| intros [= <-]; exact (py_mul_Fails _ _ _ E2)].
    destruct (py_mul q (Int y)) as [h2 |] eqn:E3; cbn [and_then];
      [| intros [= <-]; exact (py_mul_Fails _ _ _ E3)].
    destruct (py_mul c (Int y)) as [h3 |] eqn:E4; cbn [and_then];
      [discriminate | intros [= <-]; exact (py_mul_Fails _ _ _ E4)].
  - intros hz Hhz.
    apply and_then_Value in Hhz as (h1 & E1 & Hhz).
    apply and_then_Value in Hhz as (q & E2 & Hhz).
    apply and_then_Value in Hhz as (h2 & E3 & Hhz).
    apply and_then_Value in Hhz as (h3 & E4 & [= <-]).
    exists h1, q, h2, h3.
    destruct (py_mul_rate_count a x h1 Pa Px E1) as [N1 Z1].
    destruct (py_mul_rate_count b x q Pb Px E2) as [Nq Zq].
    destruct (py_mul_rate_count c y h3 Pc Py E4) as [N3 Z3].
    repeat (split; [reflexivity || assumption |]).
    split; [exact (py_nonneg_of _ N1) |].
    split; [exact (py_nonneg_of _ N3) |].
    split.
    { intros X0. split; [exact (py_is_zero_of _ (Z1 X0)) |].
      assert (Hfin : q <> Float (S754_infinity false)).
      { destruct (Zq X0) as [-> | ->]; discriminate. }
      destruct (py_mul_product_count q y h2 Nq Hfin Py E3) as (_ & Zz & _).
      exact (py_is_zero_of _ (Zz (Zq X0))). }
    split; [intros Y0; exact (py_is_zero_of _ (Z3 Y0)) |].
    split.
    { intros Hfin.
      destruct (py_mul_product_count q y h2 Nq Hfin Py E3) as (N2 & _ & Z2).
      split; [exact (py_nonneg_of _ N2) |].
      intros Y0. exact (py_is_zero_of _ (Z2 Y0)). }
    intros -> ->. cbn in E3. congruence.
Qed.

(** C2 (counterexample).  With the positive rate [1e308] for prey2pred, 10
    prey and no predators, the product [1e308 * 10] overflows to infinity
    and the hazard of prey2pred, infinity times zero, is NaN: it is neither
    zero nor [>= 0], with no predators.  And with [10^400] prey no mapping
    is returned: the conversion of the count raises OverflowError. *)
Lemma hazard_of_overflowed_product_is_nan :
  (exists a b c,
      overflowing_rates !! "spawn_prey" = Some a /\
      overflowing_rates !! "prey2pred" = Some b /\
      overflowing_rates !! "pred_dies" = Some c /\
      positive_rate a /\ positive_rate b /\ positive_rate c) /\
  Py.get_hazards (ecology_of 10 0) overflowing_rates =
    Value [("spawn_prey", Int 10);
           ("prey2pred", Float S754_nan);
           ("pred_dies", Float (S754_zero false))] /\
  py_nonneg (Float S754_nan) = false /\
  py_is_zero (Float S754_nan) = false /\
  Py.get_hazards (ecology_of (10 ^ 400) 5) Py.H1 = Fails OverflowError.
Proof.
  split.
  { eexists _, _, _.
    split; [vm_compute; reflexivity |]. split; [vm_compute; reflexivity |].
    split; [vm_compute; reflexivity |].
    split; [reflexivity |]. split; exact I. }
  split; [vm_compute; reflexivity |].
  split; [reflexivity |]. split; [reflexivity |].
  vm_compute. reflexivity.
Qed.


(** ** Integers that convert to a float *)

Lemma digits2_pos_size (p : positive) : digits2_pos p = Pos.size p.
Proof. induction p as [p IH | p IH |]; cbn [digits2_pos Pos.size]; congruence. Qed.

(** [Zdigits2 m] is the number of bits of [m]. *)
Lemma Zdigits2_bound (m k : Z) : 0 <= m -> 0 <= k -> m < 2 ^ k -> Zdigits2 m <= k.
Proof.
  intros Hm Hk Hlt. destruct m as [| p | p]; [exact Hk | | lia].
  cbn [Zdigits2]. rewrite digits2_pos_size.
  pose proof (Pos.size_le p) as Hle.
  apply Pos2Z.pos_le_pos in Hle. rewrite Pos2Z.inj_pow in Hle.
  change (Z.pos p~0) with (2 * Z.pos p) in Hle. change (Z.pos 2) with 2 in Hle.
  destruct (Z_lt_le_dec k (Z.pos (Pos.size p))) as [Hgt | ]; [| assumption].
  exfalso.
  assert (2 ^ (k + 1) <= 2 ^ Z.pos (Pos.size p)) by (apply Z.pow_le_mono_r; lia).
  rewrite Z.pow_add_r in H by lia. lia.
Qed.

Lemma Zdigits2_gt (m : Z) : 0 <= m -> m < 2 ^ Zdigits2 m.
Proof.
  intros Hm. destruct m as [| p | p]; [reflexivity | | lia].
  cbn [Zdigits2]. rewrite digits2_pos_size.
  pose proof (Pos.size_gt p) as Hgt.
  apply Pos2Z.pos_lt_pos in Hgt. rewrite Pos2Z.inj_pow in Hgt. exact Hgt.
Qed.

Lemma Zdigits2_nonneg (m : Z) : 0 <= Zdigits2 m.
Proof. destruct m; cbn [Zdigits2]; lia. Qed.

Lemma Zdigits2_succ (m : Z) : 0 <= m -> Zdigits2 (m + 1) <= Zdigits2 m + 1.
Proof.
  intros Hm. pose proof (Zdigits2_gt m Hm). pose proof (Zdigits2_nonneg m).
  apply Zdigits2_bound; [lia | lia |].
  rewrite Z.pow_add_r by lia. lia.
Qed.

Lemma Zdigits2_round (m : Z) (l : location) :
  0 <= m -> Zdigits2 (round_nearest_even m l) <= Zdigits2 m + 1.
Proof.
  intros Hm. pose proof (Zdigits2_succ m Hm).
  destruct l as [| []]; cbn [round_nearest_even]; try lia.
  destruct (Z.even m); lia.
Qed.

Lemma Zdigits2_shr_1 (mrs : shr_record) :
  0 <= shr_m mrs ->
  Zdigits2 (shr_m (shr_1 mrs)) <= Z.max 0 (Zdigits2 (shr_m mrs) - 1).
Proof.
  destruct mrs as [m r s]. cbn [shr_m].
  destruct m as [| [p | p |] | p]; cbn [shr_1 shr_m Zdigits2 digits2_pos]; lia.
Qed.

Lemma Zdigits2_iter_shr_1 (p : positive) (mrs : shr_record) :
  0 <= shr_m mrs ->
  Zdigits2 (shr_m (SpecFloat.iter_pos shr_1 p mrs))
  <= Z.max 0 (Zdigits2 (shr_m mrs) - Z.pos p).
Proof.
  revert mrs. induction p as [p IH | p IH |]; intros mrs H; cbn [SpecFloat.iter_pos].
  - pose proof (shr_1_nonneg mrs H) as H1.
    pose proof (iter_pos_shr_1_nonneg p _ H1) as H2.
    pose proof (Zdigits2_shr_1 mrs H). pose proof (IH _ H1). pose proof (IH _ H2).
    lia.
  - pose proof (iter_pos_shr_1_nonneg p _ H) as H2.
    pose proof (IH _ H). pose proof (IH _ H2). lia.
  - pose proof (Zdigits2_shr_1 mrs H). lia.
Qed.

(** One shift to the exponent [fexp]: the exponent does not go down, and
    mantissa and exponent together do not grow. *)
Lemma shr_fexp_bound (m e : Z) (l : location) :
  0 <= m ->
  let r := shr_fexp prec emax m e l in
  0 <= shr_m r.1 /\
  r.2 = Z.max e (fexp prec emax (Zdigits2 m + e)) /\
  (shr_m r.1 = 0 \/ Zdigits2 (shr_m r.1) + r.2 <= Zdigits2 m + e).
Proof.
  intros Hm r. split; [apply shr_fexp_nonneg, Hm |].
  subst r. unfold shr_fexp, shr.
  assert (H0 : shr_m (shr_record_of_loc m l) = m) by (destruct l as [| []]; reflexivity).
  destruct (fexp prec emax (Zdigits2 m + e) - e) as [| p | p] eqn:Hn; cbn [fst snd].
  - split; [lia |]. right. rewrite H0. lia.
  - split; [lia |].
    pose proof (Zdigits2_iter_shr_1 p (shr_record_of_loc m l)) as Hd.
    rewrite H0 in Hd. specialize (Hd Hm).
    pose proof (iter_pos_shr_1_nonneg p (shr_record_of_loc m l)) as Hnn.
    rewrite H0 in Hnn. specialize (Hnn Hm).
    destruct (shr_m (SpecFloat.iter_pos shr_1 p (shr_record_of_loc m l)))
      as [| q | q] eqn:Hq; [left; reflexivity | right | lia].
    assert (0 < Zdigits2 (Z.pos q)) by (cbn [Zdigits2]; lia).
    lia.
  - split; [lia |]. right. rewrite H0. lia.
Qed.

Lemma fexp_le (k : Z) : k <= 1024 -> fexp prec emax k <= emax - prec.
Proof. unfold fexp, SpecFloat.emin, prec, emax. lia. Qed.

(** Rounding a value below [2^1023] does not overflow. *)
Lemma binary_round_aux_finite (s : bool) (m e : Z) (l : location) :
  0 <= m ->
  e <= emax - prec ->
  Zdigits2 m + e <= 1023 ->
  binary_round_aux prec emax s m e l = S754_zero s \/
  exists m' e', binary_round_aux prec emax s m e l = S754_finite s m' e'.
Proof.
  intros Hm He Hd. unfold binary_round_aux.
  destruct (shr_fexp_bound m e l Hm) as (N1 & E1 & D1).
  destruct (shr_fexp prec emax m e l) as [mrs' e'].
  cbn [fst snd] in N1, E1, D1.
  set (mr := round_nearest_even (shr_m mrs') (loc_of_shr_record mrs')).
  assert (Nr : 0 <= mr) by (apply round_nearest_even_nonneg, N1).
  assert (Dr : Zdigits2 mr + e' <= 1024).
  { pose proof (Zdigits2_round (shr_m mrs') (loc_of_shr_record mrs') N1) as Hr.
    fold mr in Hr.
    pose proof (fexp_le (Zdigits2 m + e) ltac:(lia)).
    destruct D1 as [Z0 | D1]; [| lia].
    rewrite Z0 in Hr. cbn [Zdigits2] in Hr. unfold prec, emax in *. lia. }
  assert (He' : e' <= emax - prec).
  { pose proof (fexp_le (Zdigits2 m + e) ltac:(lia)). lia. }
  destruct (shr_fexp_bound mr e' loc_Exact Nr) as (N2 & E2 & _).
  destruct (shr_fexp prec emax mr e' loc_Exact) as [mrs'' e''].
  cbn [fst snd] in N2, E2.
  destruct (shr_m mrs'') as [| q | q]; [left; reflexivity | right | lia].
  assert (Hle : e'' <= emax - prec).
  { pose proof (fexp_le (Zdigits2 mr + e') Dr). lia. }
  apply Z.leb_le in Hle. rewrite Hle. eauto.
Qed.

Lemma digits2_pos_iter_xO (m k : positive) :
  Z.pos (digits2_pos (Pos.iter xO m k)) = Z.pos (digits2_pos m) + Z.pos k.
Proof.
  induction k as [| k IH] using Pos.peano_ind.
  - cbn [Pos.iter digits2_pos]. lia.
  - rewrite Pos.iter_succ. cbn [digits2_pos]. lia.
Qed.

(** An integer below [2^1023] in magnitude converts to a float. *)
Lemma float_of_int_in_range (z : Z) :
  Z.abs z < 2 ^ 1023 -> exists f, float_of_int z = Value f.
Proof.
  intros Hz. unfold float_of_int, binary_normalize.
  assert (Hround : forall s p, Z.pos p < 2 ^ 1023 ->
            binary_round prec emax s p 0 = S754_zero s \/
            exists m' e', binary_round prec emax s p 0 = S754_finite s m' e').
  { intros s p Hp. unfold binary_round.
    assert (Hd : Zdigits2 (Z.pos p) <= 1023) by (apply Zdigits2_bound; lia).
    cbn [Zdigits2] in Hd.
    unfold shl_align.
    destruct (fexp prec emax (Z.pos (digits2_pos p) + 0) - 0) as [| k | k] eqn:Hk.
    - apply binary_round_aux_finite; [lia | unfold emax, prec; lia |].
      cbn [Zdigits2]. lia.
    - apply binary_round_aux_finite; [lia | unfold emax, prec; lia |].
      cbn [Zdigits2]. lia.
    - apply binary_round_aux_finite; [lia | |].
      + unfold fexp, SpecFloat.emin, emax, prec in *. lia.
      + cbn [Zdigits2]. rewrite digits2_pos_iter_xO.
        unfold fexp, SpecFloat.emin, emax, prec in *. lia. }
  destruct z as [| p | p].
  - eauto.
  - destruct (Hround false p ltac:(lia)) as [-> | (m' & e' & ->)]; eauto.
  - destruct (Hround true p ltac:(lia)) as [-> | (m' & e' & ->)]; eauto.
Qed.

(** For counts below [2^1023] in magnitude no product of [get_hazards]
    raises: it returns the mapping. *)
Lemma py_mul_in_range (a : num) (z : Z) :
  Z.abs z < 2 ^ 1023 -> exists h, py_mul a (Int z) = Value h.
Proof.
  intros Hz. destruct a as [k | f]; cbn [py_mul]; [eauto |].
  destruct (float_of_int_in_range z Hz) as [g ->]. cbn [and_then]. eauto.
Qed.

(** ** The first step under hypothesis 1 *)

(** C8.  The parameters of the scenario are the [H1] entry of
    [theta_hypotheses]; for the population [{prey: 50, pred: 100}] they give
    the hazards 50, 25 and 60, whose total is 135; these are the weights and
    the rate the first step of a run pinned to "H1" hands to [Discrete] and
    to [Exponential]; the weights over their total are 50/135, 25/135 and
    60/135, and the reciprocal of the rate is 1/135. *)
Theorem first_step_under_H1 :
  theta_hypotheses !! "H1" = Some H1 /\
  H1 !! "spawn_prey" = Some 1%Q /\
  H1 !! "prey2pred" = Some 0.005%Q /\
  H1 !! "pred_dies" = Some 0.6%Q /\
  exists h1 h2 h3 total,
    get_hazards (ecology_of 50 100) H1 =
      Ok [("spawn_prey", h1); ("prey2pred", h2); ("pred_dies", h3)] /\
    total =
      sum (dict_values [("spawn_prey", h1); ("prey2pred", h2); ("pred_dies", h3)]) /\
    (h1 == 50 /\ h2 == 25 /\ h3 == 60)%Q /\
    (total == 135)%Q /\
    (h1 / total == 50 / 135 /\ h2 / total == 25 / 135 /\
     h3 / total == 60 / 135)%Q /\
    (1 / total == 1 / 135)%Q /\
    (exists s' c0,
        notebook_run 50 100 2 "H1" [VStr "H1"; VStr "spawn_prey"; VNum 1] =
          Ok (Ok tt, s',
              [c0;
               mkCall "event_1"
                 (Discrete [("spawn_prey", h1); ("prey2pred", h2); ("pred_dies", h3)])
                 (Some (VStr "spawn_prey"));
               mkCall "t_1" (Exponential total) (Some (VNum 1))])).
Proof.
  split; [vm_compute; reflexivity |].
  split; [vm_compute; reflexivity |].
  split; [vm_compute; reflexivity |].
  split; [vm_compute; reflexivity |].
  eexists _, _, _, _.
  split; [vm_compute; reflexivity |].
  split; [vm_compute; reflexivity |].
  split; [repeat split; reflexivity |].
  split; [reflexivity |].
  split; [repeat split; reflexivity |].
  split; [reflexivity |].
  eexists _, _. vm_compute. reflexivity.
Qed.

(** The hazards and their total of C8 come out the same in binary64: the
    roundings of [0.005 * 50 * 100] and [0.6 * 100] are exactly 25 and 60. *)
#[warnings="-inexact-float"]
Lemma first_step_under_H1_binary64 :
  hazard_values_binary64 1 0.005 0.6 50 100 = [50; 25; 60]%float /\
  sum_binary64 (hazard_values_binary64 1 0.005 0.6 50 100) = 135%float.
Proof. split; vm_compute; reflexivity. Qed.

(** ** Running a sequence against an environment *)

Lemma interp_env_bind_then {E B : Type} (bind : string -> dist -> E -> option value * E)
    (l : string) (d : dist) (f : value -> M B) (s : store) (e : E) :
  interp bind (bindM (env_bind l d) f s) e =
  match (bind l d e).1 with
  | Some v =>
      ((interp bind (f v s) (bind l d e).2).1,
       mkCall l d (Some v) :: (interp bind (f v s) (bind l d e).2).2)
  | None => (Err EnvError, s, (bind l d e).2, [mkCall l d None])
  end.
Proof.
  unfold bindM, env_bind. cbn [pbind interp fst snd].
  destruct (bind l d e) as [[v |] e']; cbn [fst snd pbind interp]; [| reflexivity].
  destruct (interp bind (f v s) e') as [[y e''] log]. reflexivity.
Qed.

(** One loop pass against an environment, when the population dictionary has
    both keys and the rate mapping gives hazards. *)
Lemma interp_step {E : Type} (bind : string -> dist -> E -> option value * E)
    ecology theta i t s d hz x y (e : E) :
  heap s !! ecology = Some d ->
  get_hazards d theta = Ok hz ->
  d !! "prey" = Some x -> d !! "pred" = Some y ->
  let l1 := "event_" +:+ pretty i in
  let d1 := Discrete hz in
  let l2 := "t_" +:+ pretty i in
  let d2 := Exponential (sum (dict_values hz)) in
  interp bind (step ecology theta i t s) e =
  match (bind l1 d1 e).1 with
  | None => (Err EnvError, s, (bind l1 d1 e).2, [mkCall l1 d1 None])
  | Some ev =>
      match getitem (transitions (self s)) ev with
      | Err err => (Err err, s, (bind l1 d1 e).2, [mkCall l1 d1 (Some ev)])
      | Ok row =>
          let e1 := (bind l1 d1 e).2 in
          match (bind l2 d2 e1).1 with
          | None =>
              (Err EnvError, s, (bind l2 d2 e1).2,
               [mkCall l1 d1 (Some ev); mkCall l2 d2 None])
          | Some w =>
              (match add_time t w with
               | Err err => (Err err, s)
               | Ok t' => fire ecology row t' d x y s
               end,
               (bind l2 d2 e1).2,
               [mkCall l1 d1 (Some ev); mkCall l2 d2 (Some w)])
          end
      end
  end.
Proof.
  intros Hl Hhz Hx Hy l1 d1 l2 d2. unfold step.
  run_stmt (read_dict_eq _ _ _ Hl). rewrite Hhz.
  run_stmt (eq_refl : lift (Ok hz) s = Ret (Ok hz, s)).
  run_stmt (eq_refl : get_self s = Ret (Ok (self s), s)).
  rewrite interp_env_bind_then. fold l1 d1.
  destruct (bind l1 d1 e) as [[ev |] e1]; cbn [fst snd]; [| reflexivity].
  destruct (getitem (transitions (self s)) ev) as [row | err].
  2:{ run_stmt (eq_refl : lift (Err err) s = Ret (Err err, s)). reflexivity. }
  run_stmt (eq_refl : lift (Ok row) s = Ret (Ok row, s)).
  rewrite interp_env_bind_then. fold l2 d2.
  destruct (bind l2 d2 e1) as [[w |] e2]; cbn [fst snd]; [| reflexivity].
  destruct (add_time t w) as [t' | err].
  2:{ run_stmt (eq_refl : lift (Err err) s = Ret (Err err, s)). reflexivity. }
  run_stmt (eq_refl : lift (Ok t') s = Ret (Ok t', s)).
  rewrite (step_tail_eq _ _ _ _ _ _ _ Hl Hx Hy). reflexivity.
Qed.

(** ** The clamp acts on each species by itself *)

Lemma wrap64_fits (z : Z) : fits_int64 z -> wrap64 z = z.
Proof.
  unfold fits_int64, wrap64. intros H.
  rewrite Z.mod_small by lia. lia.
Qed.

(** C9 (counterexample).  With the notebook's rows of 64-bit integers,
    predation at no prey and [2^63 - 1] predators leaves no prey and no
    predators: the sum [2^63 - 1 + 1] wraps around to [- 2^63] and the clamp
    makes it 0.  The predators are not incremented by 1.  With rows that
    are lists of Python integers the same pass leaves [2^63] predators. *)
Lemma predation_wraps_at_int64_max :
  notebook_transitions !! "prey2pred" = Some [-1; 1] /\
  fits_int64 0 /\ fits_int64 (2 ^ 63 - 1) /\
  wrap64 (2 ^ 63 - 1 + 1) = - 2 ^ 63 /\
  add_and_clamp_int64 [-1; 1] 0 (2 ^ 63 - 1) = Ok (0, 0) /\
  (0 <> 2 ^ 63 - 1 + 1) /\
  exists s' d' log,
    interp scripted
      (step 1%nat H1 1 0
         (mkStore (<[1%nat := ecology_of 0 (2 ^ 63 - 1)]> (notebook_heap 0 0))
            (sim_50_100 2)))
      [VStr "prey2pred"; VNum 1] = (Ok (0 + 1)%Q, s', [], log) /\
    heap s' !! 1%nat = Some d' /\
    d' !! "prey" = Some 0 /\ d' !! "pred" = Some (2 ^ 63).
Proof.
  split; [vm_compute; reflexivity |].
  split; [unfold fits_int64; lia |]. split; [unfold fits_int64; lia |].
  split; [reflexivity |]. split; [reflexivity |]. split; [lia |].
  eexists _, _, _. split; [vm_compute; reflexivity |].
  split; [vm_compute; reflexivity |].
  split; vm_compute; reflexivity.
Qed.

(** C9 (as amended).  A loop pass adds the whole transition row and then
    clamps each count on its own.  For counts [x], [y] and a row [dx, dy]
    that fit 64 bits, with sums [x + dx] and [y + dy] that fit 64 bits, the
    pass leaves [max(0, x + dx)] prey and [max(0, y + dy)] predators and
    records them, and these are the counts whether the row is a list of
    Python integers or a row of 64-bit integers, whose sums then do not wrap
    around.  So predation (row [-1, 1]) at zero prey leaves zero prey and, as
    long as [y + 1] fits 64 bits, one predator more: the transition is not
    rejected. *)
Theorem clamp_is_per_species ecology theta i t s d hz (x y dx dy : Z)
    (rest : list Z) (ev : string) (w : Q) :
  heap s !! ecology = Some d ->
  get_hazards d theta = Ok hz ->
  d !! "prey" = Some x -> d !! "pred" = Some y ->
  transitions (self s) !! ev = Some (dx :: dy :: rest) ->
  fits_int64 x -> fits_int64 y -> fits_int64 dx -> fits_int64 dy ->
  fits_int64 (x + dx) -> fits_int64 (y + dy) ->
  exists s' d' log,
    interp scripted (step ecology theta i t s) [VStr ev; VNum w] =
      (Ok (t + w)%Q, s', [], log) /\
    heap s' !! ecology = Some d' /\
    d' !! "prey" = Some (Z.max 0 (x + dx)) /\
    d' !! "pred" = Some (Z.max 0 (y + dy)) /\
    prey (trajectory (self s')) =
      prey (trajectory (self s)) ++ [Z.max 0 (x + dx)] /\
    pred (trajectory (self s')) =
      pred (trajectory (self s)) ++ [Z.max 0 (y + dy)] /\
    add_and_clamp_int64 (dx :: dy :: rest) x y =
      Ok (Z.max 0 (x + dx), Z.max 0 (y + dy)) /\
    (x = 0 -> dx = -1 -> dy = 1 -> 0 <= y ->
     d' !! "prey" = Some 0 /\ d' !! "pred" = Some (y + 1)).
Proof.
  intros Hl Hhz Hx Hy Hev Fx Fy Fdx Fdy Fsx Fsy.
  rewrite (interp_step scripted _ _ _ _ _ _ _ _ _ _ Hl Hhz Hx Hy).
  cbn [scripted fst snd]. rewrite (getitem_Some _ _ _ Hev).
  cbn [scripted fst snd add_time]. unfold fire. cbn [lookup list_lookup].
  eexists _, _, _. split; [reflexivity |]. cbn [heap self trajectory prey pred].
  assert (Hp : (<["pred" := max0 (y + dy)]>
                  (<["prey" := max0 (x + dx)]>
                     (<["pred" := y + dy]> (<["prey" := x + dx]> d))) : gmap string Z)
               !! "prey" = Some (Z.max 0 (x + dx))).
  { rewrite lookup_insert_ne by (symmetry; exact prey_ne_pred).
    apply lookup_insert_eq. }
  assert (Hq : (<["pred" := max0 (y + dy)]>
                  (<["prey" := max0 (x + dx)]>
                     (<["pred" := y + dy]> (<["prey" := x + dx]> d))) : gmap string Z)
               !! "pred" = Some (Z.max 0 (y + dy))).
  { apply lookup_insert_eq. }
  split; [apply lookup_insert_eq |].
  split; [exact Hp |]. split; [exact Hq |].
  split; [reflexivity |]. split; [reflexivity |].
  split.
  { unfold add_and_clamp_int64, index. cbn [lookup list_lookup].
    rewrite (wrap64_fits _ Fsx), (wrap64_fits _ Fsy). reflexivity. }
  intros -> -> -> Hy0. rewrite Hp, Hq. split; f_equal; lia.
Qed.

(** ** No check of the total hazard *)



(** ** No validation of the inputs *)

(** C7 (counterexample).  A negative initial prey count is accepted by the
    constructor and recorded; the run hands a negative hazard to [env.bind]
    and completes without any exception. *)
Lemma negative_population_is_simulated :
  exists s' c0 c2 hz,
    get_hazards (ecology_of (-5) 3) H1 = Ok hz /\
    notebook_run (-5) 3 2 "H1" [VStr "H1"; VStr "pred_dies"; VNum 1] =
      Ok (Ok tt, s',
          [c0; mkCall "event_1" (Discrete hz) (Some (VStr "pred_dies")); c2]) /\
    (exists v, ("spawn_prey", v) ∈ hz /\ (v < 0)%Q) /\
    trajectory (self s') = mkTrajectory [-5; 0] [3; 2].
Proof.
  eexists _, _, _, _. split; [vm_compute; reflexivity |].
  split; [vm_compute; reflexivity |].
  split; [| reflexivity].
  eexists. split; [apply list_elem_of_here | reflexivity].
Qed.

Lemma hypothesis_prior_keys hyp k :
  hyp ∈ ["none"; "H1"; "H2"; "H3"] ->
  k ∈ (hypothesis_prior hyp).*1 -> k ∈ ["H1"; "H2"; "H3"].
Proof.
  intros Hhyp.
  assert (Hkeys : (hypothesis_prior hyp).*1 = ["H1"; "H2"; "H3"]).
  { rewrite !elem_of_cons, elem_of_nil in Hhyp.
    destruct Hhyp as [-> | [-> | [-> | [-> | []]]]]; vm_compute; reflexivity. }
  rewrite Hkeys. auto.
Qed.

Lemma theta_hypotheses_keys k theta :
  k ∈ ["H1"; "H2"; "H3"] ->
  getitem theta_hypotheses (VStr k) = Ok theta ->
  exists a b c,
    theta !! "spawn_prey" = Some a /\ theta !! "prey2pred" = Some b /\
    theta !! "pred_dies" = Some c.
Proof.
  rewrite !elem_of_cons, elem_of_nil.
  intros [-> | [-> | [-> | []]]]; vm_compute; intros [= <-];
    eexists _, _, _; repeat split; vm_compute; reflexivity.
Qed.

Lemma theta_hypotheses_total k :
  k ∈ ["H1"; "H2"; "H3"] ->
  exists theta, getitem theta_hypotheses (VStr k) = Ok theta.
Proof.
  rewrite !elem_of_cons, elem_of_nil.
  intros [-> | [-> | [-> | []]]]; eexists; vm_compute; reflexivity.
Qed.

Lemma get_hazards_total d theta a b c x y :
  theta !! "spawn_prey" = Some a -> theta !! "prey2pred" = Some b ->
  theta !! "pred_dies" = Some c ->
  d !! "prey" = Some x -> d !! "pred" = Some y ->
  get_hazards d theta =
    Ok [ ("spawn_prey", a * inject_Z x);
         ("prey2pred", b * inject_Z x * inject_Z y);
         ("pred_dies", c * inject_Z y) ]%Q.
Proof.
  intros Ha Hb Hc Hx Hy. unfold get_hazards.
  rewrite (getitem_Some _ _ _ Ha), (getitem_Some _ _ _ Hx),
    (getitem_Some _ _ _ Hb), (getitem_Some _ _ _ Hy), (getitem_Some _ _ _ Hc).
  reflexivity.
Qed.

Lemma run_completes_in_range {E : Type}
    (bind : string -> dist -> E -> option value * E) s e d x y t0 :
  heap s !! initial (self s) = Some d ->
  d !! "prey" = Some x -> d !! "pred" = Some y ->
  times (self s) = [t0] ->
  trajectory (self s) = mkTrajectory [x] [y] ->
  has_rows (transitions (self s)) ->
  select_hyp (self s) ∈ ["H1"; "H2"; "H3"] ->
  fits_int64 x -> fits_int64 y -> fits_int64 (N (self s)) ->
  rows_fit_int64 (transitions (self s)) ->
  Forall in_support (calls (run_in bind s e)) ->
  outcome (run_in bind s e) = Ok tt /\
  Forall (fun z => Z.abs z < 2 ^ 127)
    (prey (trajectory (self (final_store (run_in bind s e))))) /\
  Forall (fun z => Z.abs z < 2 ^ 127)
    (pred (trajectory (self (final_store (run_in bind s e))))).
Proof.
  intros Hd Hx Hy Ht Htj Hrows Hhyp Fx Fy Fn Frows.
  assert (Hhyp' : select_hyp (self s) ∈ ["none"; "H1"; "H2"; "H3"])
    by (apply list_elem_of_further, Hhyp).
  apply (sat_run_in in_support
           (fun rs _ => rs.1 = Ok tt /\
              Forall (fun z => Z.abs z < 2 ^ 127) (prey (trajectory (self rs.2))) /\
              Forall (fun z => Z.abs z < 2 ^ 127) (pred (trajectory (self rs.2))))).
  apply sat_run; [congruence |].
  intros d0 Hd0 ecology s1 c0. rewrite Hd in Hd0. injection Hd0 as <-.
  split; [intros (k & [=] & _) |].
  intros v (k & [= ->] & Hk).
  apply (hypothesis_prior_keys _ _ Hhyp') in Hk.
  split.
  { intros err Herr. destruct (theta_hypotheses_total k Hk) as [th Hth]. congruence. }
  intros theta Hth.
  destruct (theta_hypotheses_keys k theta Hk Hth) as (a & b & c & Ha & Hb & Hc).
  split; [congruence |].
  intros t1 ts _.
  set (rng := range 1 (N (self s))).
  assert (Hlen : Z.of_nat (length rng) <= 2 ^ 63).
  { unfold rng, range. rewrite length_seqZ. unfold fits_int64 in Fn. lia. }
  apply (sat_for_each _ _ _
           (fun j _ s' _ =>
              transitions (self s') = transitions (self s) /\
              Forall (fun z => Z.abs z < 2 ^ 127) (prey (trajectory (self s'))) /\
              Forall (fun z => Z.abs z < 2 ^ 127) (pred (trajectory (self s'))) /\
              exists d' x' y', heap s' !! ecology = Some d' /\
                               d' !! "prey" = Some x' /\ d' !! "pred" = Some y' /\
                               Z.abs x' <= 2 ^ 63 * (Z.of_nat j + 1) /\
                               Z.abs y' <= 2 ^ 63 * (Z.of_nat j + 1))).
  - intros j i t s' log Hj (Htr & Bp & Bq & d' & x' & y' & Hd' & Hx' & Hy' & Bx & By).
    apply lookup_lt_Some in Hj.
    pose proof (get_hazards_total d' theta a b c x' y' Ha Hb Hc Hx' Hy') as Hhz.
    apply (sat_step _ _ _ _ _ _ d'); [exact Hd' | congruence |].
    intros hz x2 y2 Hhz2 Hx2 Hy2 c1 c2.
    rewrite Hhz in Hhz2. injection Hhz2 as <-.
    assert (x2 = x') as -> by congruence. assert (y2 = y') as -> by congruence.
    split; [intros (? & [=] & _) |].
    intros ev (kev & [= ->] & Hkev). cbn [fmap list_fmap snd fst] in Hkev.
    destruct (Hrows kev Hkev) as (dx & dy & rest & Hrow).
    pose proof (Frows kev _ Hrow) as Frow.
    apply Forall_cons in Frow as [Fdx Frow]. apply Forall_cons in Frow as [Fdy _].
    rewrite <- Htr in Hrow.
    rewrite (getitem_Some _ _ _ Hrow).
    split; [discriminate |]. intros row [= <-].
    split; [intros (? & [=]) |].
    intros w (q & [= ->]). cbn [add_time]. unfold fire.
    cbn [lookup list_lookup fst snd self heap transitions trajectory prey pred].
    unfold fits_int64, max0 in *.
    assert (Bx' : Z.abs (Z.max 0 (x' + dx)) <= 2 ^ 63 * (Z.of_nat (S j) + 1)) by lia.
    assert (By' : Z.abs (Z.max 0 (y' + dy)) <= 2 ^ 63 * (Z.of_nat (S j) + 1)) by lia.
    split; [exact Htr |].
    split; [apply Forall_app; split; [exact Bp |]; repeat constructor; nia |].
    split; [apply Forall_app; split; [exact Bq |]; repeat constructor; nia |].
    eexists _, _, _. split; [apply lookup_insert_eq |].
    split.
    { rewrite lookup_insert_ne by (symmetry; exact prey_ne_pred).
      apply lookup_insert_eq. }
    split; [apply lookup_insert_eq |].
    split; assumption.
  - intros t s' log (_ & Bp & Bq & _). auto.
  - split; [reflexivity |]. cbn [s1 self]. rewrite Htj. cbn [prey pred].
    unfold fits_int64 in *.
    split; [repeat constructor; lia |]. split; [repeat constructor; lia |].
    exists d, x, y.
    split; [apply lookup_insert_eq |]. repeat split; auto; lia.
Qed.

(** C7 (as amended).  The simulator validates nothing.  For any integer
    counts [x] and [y] in the caller's dictionary, negative ones too, the
    constructor succeeds and records them as the first trajectory entries.
    When the counts, [N] and the entries of the transition rows fit 64 bits,
    each event has a row of two entries and [select_hyp] is one of "H1",
    "H2", "H3", a run against an environment that answers each call from the
    support of its distribution completes without an exception, and every
    count it records is below [2^127] in magnitude, inside the range in
    which a count converts to a float. *)
Theorem no_validation_of_counts {E : Type}
    (bind : string -> dist -> E -> option value * E) (e : E)
    tr l n hyp t0 (h : gmap loc (gmap string Z)) d (x y : Z) :
  h !! l = Some d ->
  d !! "prey" = Some x -> d !! "pred" = Some y ->
  exists o,
    __init__ tr l n hyp t0 h = Ok o /\
    trajectory o = mkTrajectory [x] [y] /\
    (has_rows tr -> hyp ∈ ["H1"; "H2"; "H3"] ->
     fits_int64 x -> fits_int64 y -> fits_int64 n -> rows_fit_int64 tr ->
     Forall in_support (calls (run_in bind (mkStore h o) e)) ->
     outcome (run_in bind (mkStore h o) e) = Ok tt /\
     Forall (fun z => Z.abs z < 2 ^ 127)
       (prey (trajectory (self (final_store (run_in bind (mkStore h o) e))))) /\
     Forall (fun z => Z.abs z < 2 ^ 127)
       (pred (trajectory (self (final_store (run_in bind (mkStore h o) e)))))).
Proof.
  intros Hd Hx Hy.
  eexists. split.
  { unfold __init__. rewrite Hd, (getitem_Some _ _ _ Hx), (getitem_Some _ _ _ Hy).
    reflexivity. }
  split; [reflexivity |].
  intros Hrows Hhyp Fx Fy Fn Frows.
  apply (run_completes_in_range bind _ e d x y t0); auto.
Qed.

(** ** Labels *)

Lemma event_label_ne_theta (i : Z) : "event_" +:+ pretty i ≠ "theta".
Proof. discriminate. Qed.

Lemma t_label_ne_theta (i : Z) : "t_" +:+ pretty i ≠ "theta".
Proof. discriminate. Qed.

Lemma event_label_ne_t (i j : Z) : "event_" +:+ pretty i ≠ "t_" +:+ pretty j.
Proof. discriminate. Qed.

Lemma event_label_inj (i j : Z) :
  "event_" +:+ pretty i = "event_" +:+ pretty j -> i = j.
Proof. intros [= H]. exact (pretty_Z_inj _ _ H). Qed.

Lemma t_label_inj (i j : Z) : "t_" +:+ pretty i = "t_" +:+ pretty j -> i = j.
Proof. intros [= H]. exact (pretty_Z_inj _ _ H). Qed.

(** ** One hypothesis per run *)

Lemma run_calls {E : Type} (bind : string -> dist -> E -> option value * E) s e d0 :
  heap s !! initial (self s) = Some d0 ->
  exists r rest,
    (calls (run_in bind s e)) =
      mkCall "theta" (Discrete (hypothesis_prior (select_hyp (self s)))) r :: rest /\
    Forall (fun c => c_label c ≠ "theta") rest /\
    (rest ≠ [] ->
     exists k theta, r = Some (VStr k) /\ theta_hypotheses !! k = Some theta) /\
    (forall k theta, r = Some (VStr k) -> theta_hypotheses !! k = Some theta ->
                     Forall (uses_rates theta) rest).
Proof.
  intros Hd0.
  apply (sat_run_in (fun _ => True)
    (fun _ log => exists r rest,
       log = mkCall "theta" (Discrete (hypothesis_prior (select_hyp (self s)))) r
             :: rest /\
       Forall (fun c => c_label c ≠ "theta") rest /\
       (rest ≠ [] ->
        exists k theta, r = Some (VStr k) /\ theta_hypotheses !! k = Some theta) /\
       (forall k theta, r = Some (VStr k) -> theta_hypotheses !! k = Some theta ->
                        Forall (uses_rates theta) rest)));
    [| apply Forall_True].
  apply sat_run; [congruence |].
  intros d1 _ ecology s1 c0.
  assert (Hnil : forall r, exists r' rest,
    [c0 r] = c0 r' :: rest /\
    Forall (fun c => c_label c ≠ "theta") rest /\
    (rest ≠ [] ->
     exists k theta, r' = Some (VStr k) /\ theta_hypotheses !! k = Some theta) /\
    (forall k theta, r' = Some (VStr k) -> theta_hypotheses !! k = Some theta ->
                     Forall (uses_rates theta) rest)).
  { intros r. exists r, []. split; [reflexivity |]. split; [constructor |].
    split; [congruence | constructor]. }
  split; [intros _; apply Hnil |]. intros v _.
  split; [intros ? _; apply Hnil |]. intros theta Hth.
  split; [intros _; apply Hnil |]. intros t0 ts _.
  assert (Hk : exists k, v = VStr k /\ theta_hypotheses !! k = Some theta).
  { unfold getitem in Hth. destruct v as [k | q]; [| discriminate].
    destruct (theta_hypotheses !! k) as [th |] eqn:Hk; [| discriminate].
    injection Hth as <-. eauto. }
  destruct Hk as (k & -> & Hk).
  pose (G := fun c => c_label c ≠ "theta" /\ uses_rates theta c).
  apply (sat_mono _ (fun _ log => Forall G log)).
  { intros _ log HG. exists (Some (VStr k)), log. split; [reflexivity |].
    split; [eapply Forall_impl; [exact HG | intros c Hc; apply Hc] |].
    split; [eauto |].
    intros k' theta' [= <-] Hk'. rewrite Hk in Hk'. injection Hk' as <-.
    eapply Forall_impl; [exact HG | intros c Hc; apply Hc]. }
  apply (sat_for_each _ _ _
           (fun _ _ s' log => Forall G log /\ exists d, heap s' !! ecology = Some d)).
  - intros j i t s' log _ [HG [d Hd]].
    apply (sat_step _ _ _ _ _ _ d); [exact Hd | |].
    { intros. rewrite app_nil_r. exact HG. }
    intros hz x y Hhz Hx Hy c1 c2.
    assert (G1 : forall r, G (c1 r)).
    { intros r. split; [apply event_label_ne_theta |]. exists d, hz. auto. }
    assert (G2 : forall r, G (c2 r)).
    { intros r. split; [apply t_label_ne_theta |]. exists d, hz. auto. }
    assert (HG1 : forall r, Forall G (log ++ [c1 r])).
    { intros r. apply Forall_app. split; [exact HG |]. apply Forall_singleton, G1. }
    assert (HG2 : forall r r', Forall G (log ++ [c1 r; c2 r'])).
    { intros r r'. apply Forall_app. split; [exact HG |].
      apply Forall_cons. split; [apply G1 | apply Forall_singleton, G2]. }
    split; [intros _; apply HG1 |]. intros ev _.
    split; [intros ? _; apply HG1 |]. intros row _.
    split; [intros _; apply HG2 |]. intros w _.
    destruct (add_time t w) as [t' | e']; [| apply HG2].
    unfold fire.
    destruct (row !! 0%nat) as [dx |]; [| apply HG2].
    destruct (row !! 1%nat) as [dy |]; cbn [fst snd]; [| apply HG2].
    split; [apply HG2 |]. eexists. apply lookup_insert_eq.
  - intros t s' log [HG _]. exact HG.
  - split; [constructor |]. exists d1. apply lookup_insert_eq.
Qed.

Lemma pinned_prior_one_hot hyp :
  hyp ∈ ["H1"; "H2"; "H3"] ->
  hypothesis_prior hyp =
    [ ("H1", if decide (hyp = "H1") then 1%Q else 0%Q);
      ("H2", if decide (hyp = "H2") then 1%Q else 0%Q);
      ("H3", if decide (hyp = "H3") then 1%Q else 0%Q) ].
Proof.
  rewrite !elem_of_cons, elem_of_nil.
  intros [-> | [-> | [-> | []]]]; vm_compute; reflexivity.
Qed.

(** C6.  A run on a simulator built by [__init__] binds "theta" exactly once,
    as its first call to [env.bind], with the prior of [select_hyp]; no later
    call has that label; loop passes happen only after the reply has selected
    an entry of [theta_hypotheses], and every later call takes its
    distribution from hazards computed with that one entry.  When [select_hyp]
    is "H1", "H2" or "H3" the prior gives weight 1 to it and 0 to the other
    two. *)
Theorem hypothesis_drawn_once {E : Type}
    (bind : string -> dist -> E -> option value * E) (e : E)
    tr l n hyp t0 (h : gmap loc (gmap string Z)) o :
  __init__ tr l n hyp t0 h = Ok o ->
  (exists r rest,
     (calls (run_in bind (mkStore h o) e)) =
       mkCall "theta" (Discrete (hypothesis_prior hyp)) r :: rest /\
     Forall (fun c => c_label c ≠ "theta") rest /\
     (rest ≠ [] ->
      exists k theta, r = Some (VStr k) /\ theta_hypotheses !! k = Some theta) /\
     (forall k theta, r = Some (VStr k) -> theta_hypotheses !! k = Some theta ->
                      Forall (uses_rates theta) rest)) /\
  (hyp ∈ ["H1"; "H2"; "H3"] ->
   hypothesis_prior hyp =
     [ ("H1", if decide (hyp = "H1") then 1%Q else 0%Q);
       ("H2", if decide (hyp = "H2") then 1%Q else 0%Q);
       ("H3", if decide (hyp = "H3") then 1%Q else 0%Q) ]).
Proof.
  intros Hinit.
  destruct (init_initial _ _ _ _ _ _ _ Hinit)
    as (Hl & _ & Hhyp & _ & _ & d & _ & _ & Hd & _).
  split; [| apply pinned_prior_one_hot].
  rewrite <- Hhyp.
  apply (run_calls bind (mkStore h o) e d). cbn [heap self]. rewrite Hl. exact Hd.
Qed.

(** ** Determinism and replay *)

Lemma interp_same_replies {E1 E2 X : Type}
    (bind1 : string -> dist -> E1 -> option value * E1)
    (bind2 : string -> dist -> E2 -> option value * E2)
    (p : prog X) (e1 : E1) (e2 : E2) :
  c_reply <$> (interp bind2 p e2).2 = c_reply <$> (interp bind1 p e1).2 ->
  (interp bind2 p e2).1.1 = (interp bind1 p e1).1.1 /\
  (interp bind2 p e2).2 = (interp bind1 p e1).2.
Proof.
  revert e1 e2. induction p as [x | l d k IH]; intros e1 e2 Hr.
  - split; reflexivity.
  - cbn [interp fst snd fmap list_fmap c_reply] in *.
    injection Hr as Hr1 Hr. rewrite Hr1 in *.
    destruct (IH _ _ _ Hr) as [Hx Hlog]. rewrite Hx, Hlog. split; reflexivity.
Qed.

Lemma conditioned_forces {E : Type} (evidence : gmap string value)
    (bind : string -> dist -> E -> option value * E) :
  forces evidence (conditioned evidence bind).
Proof. intros l d e v Hl. unfold conditioned. rewrite Hl. reflexivity. Qed.

Lemma interp_forced {E1 E2 X : Type}
    (bind1 : string -> dist -> E1 -> option value * E1)
    (bind2 : string -> dist -> E2 -> option value * E2)
    (evidence : gmap string value) (p : prog X) (e1 : E1) (e2 : E2) :
  forces evidence bind2 ->
  Forall (fun c => exists v, c_reply c = Some v /\ evidence !! c_label c = Some v)
         (interp bind1 p e1).2 ->
  (interp bind2 p e2).1.1 = (interp bind1 p e1).1.1 /\
  (interp bind2 p e2).2 = (interp bind1 p e1).2.
Proof.
  intros Hforce. revert e1 e2. induction p as [x | l d k IH]; intros e1 e2 Hev.
  - split; reflexivity.
  - cbn [interp fst snd] in Hev.
    apply Forall_cons in Hev as [(v & Hv & Hl) Hev]. cbn [c_reply c_label] in *.
    cbn [interp fst snd]. rewrite (Hforce l d e2 v Hl), Hv in *.
    destruct (IH _ _ (bind2 l d e2).2 Hev) as [Hx Hlog].
    rewrite Hx, Hlog. split; reflexivity.
Qed.

Lemma trace_of_cons (c : call) (log : list call) :
  trace_of (c :: log) =
  match c_reply c with
  | Some v => <[c_label c := v]> (trace_of log)
  | None => trace_of log
  end.
Proof. unfold trace_of. cbn [omap list_omap]. destruct (c_reply c); reflexivity. Qed.

Lemma trace_of_lookup (log : list call) :
  NoDup (c_label <$> log) ->
  Forall (fun c => is_Some (c_reply c)) log ->
  Forall (fun c => exists v, c_reply c = Some v /\ trace_of log !! c_label c = Some v)
         log.
Proof.
  intros Hnd Hsome. apply Forall_forall. intros c Hc.
  induction log as [| c0 log IH]; [inversion Hc |].
  apply Forall_cons in Hsome as [[v0 Hv0] Hsome].
  cbn [fmap list_fmap] in Hnd. apply NoDup_cons in Hnd as [Hnotin Hnd].
  rewrite trace_of_cons, Hv0.
  apply elem_of_cons in Hc as [-> | Hc].
  - exists v0. split; [exact Hv0 | apply lookup_insert_eq].
  - destruct (IH Hnd Hsome Hc) as (v & Hv & Hl).
    exists v. split; [exact Hv |].
    rewrite lookup_insert_ne; [exact Hl |].
    intros Heq. apply Hnotin. rewrite Heq.
    apply list_elem_of_fmap. exists c. auto.
Qed.

Lemma step_labels_disjoint (i j : Z) (l : string) :
  l ∈ step_labels i -> l ∈ step_labels j -> i = j.
Proof.
  unfold step_labels. rewrite !elem_of_cons, !elem_of_nil.
  intros [-> | [-> | []]] [H | [H | []]].
  - exact (event_label_inj _ _ H).
  - destruct (event_label_ne_t _ _ H).
  - symmetry in H. destruct (event_label_ne_t _ _ H).
  - exact (t_label_inj _ _ H).
Qed.

Lemma NoDup_step_labels (rng : list Z) : NoDup rng -> NoDup (rng ≫= step_labels).
Proof.
  apply NoDup_bind.
  - intros i j l _ _. apply step_labels_disjoint.
  - intros i _. unfold step_labels. apply NoDup_cons. split; [| apply NoDup_singleton].
    rewrite list_elem_of_singleton. apply event_label_ne_t.
Qed.

Lemma NoDup_run_labels (n : Z) : NoDup (run_labels n).
Proof.
  unfold run_labels. apply NoDup_cons. split.
  - intros Hin. apply list_elem_of_bind in Hin as (j & Hj & _).
    unfold step_labels in Hj. rewrite !elem_of_cons, elem_of_nil in Hj.
    destruct Hj as [Hj | [Hj | []]]; symmetry in Hj.
    + exact (event_label_ne_theta _ Hj).
    + exact (t_label_ne_theta _ Hj).
  - apply NoDup_step_labels, NoDup_seqZ.
Qed.

Lemma run_log_labels {E : Type} (bind : string -> dist -> E -> option value * E) s e :
  (c_label <$> (calls (run_in bind s e))) `prefix_of` run_labels (N (self s)).
Proof.
  apply (sat_run_in (fun _ => True)
           (fun _ log => (c_label <$> log) `prefix_of` run_labels (N (self s))));
    [| apply Forall_True].
  apply sat_run; [intros _; apply prefix_nil |].
  intros d0 _ ecology s1 c0.
  assert (Hone : forall r, (c_label <$> [c0 r]) `prefix_of` run_labels (N (self s))).
  { intros r. apply prefix_cons, prefix_nil. }
  split; [intros _; apply Hone |]. intros v _.
  split; [intros ? _; apply Hone |]. intros theta _.
  split; [intros _; apply Hone |]. intros t0 ts _.
  set (rng := range 1 (N (self s))).
  apply (sat_mono _
           (fun _ log => (c_label <$> log) `prefix_of` (rng ≫= step_labels))).
  { intros _ log Hp. cbn [fmap list_fmap]. apply prefix_cons, Hp. }
  assert (Hpre : forall k i pre,
    rng !! k = Some i -> pre `prefix_of` step_labels i ->
    ((take k rng ≫= step_labels) ++ pre) `prefix_of` (rng ≫= step_labels)).
  { intros k i pre Hk Hp.
    rewrite <- (take_drop_middle rng k i Hk) at 2.
    rewrite bind_app. apply prefix_app. cbn [mbind list_bind].
    apply prefix_app_r, Hp. }
  apply (sat_for_each _ _ _
           (fun k _ s' log =>
              c_label <$> log = take k rng ≫= step_labels /\
              exists d, heap s' !! ecology = Some d)).
  - intros k i t s' log Hk [Hlog [d Hd]].
    apply (sat_step _ _ _ _ _ _ d); [exact Hd | |].
    { intros. rewrite app_nil_r, Hlog.
      rewrite <- (app_nil_r (take k rng ≫= step_labels)).
      apply (Hpre k i [] Hk), prefix_nil. }
    intros hz x y _ Hx Hy c1 c2.
    assert (H1 : forall r,
      (c_label <$> log ++ [c1 r]) `prefix_of` (rng ≫= step_labels)).
    { intros r. rewrite fmap_app, Hlog. apply (Hpre k i _ Hk).
      apply prefix_cons, prefix_nil. }
    assert (H2 : forall r r',
      c_label <$> log ++ [c1 r; c2 r'] = take (S k) rng ≫= step_labels).
    { intros r r'. rewrite fmap_app, Hlog, (take_S_r _ _ _ Hk), bind_app.
      cbn [mbind list_bind]. rewrite app_nil_r. reflexivity. }
    assert (H2' : forall r r',
      (c_label <$> log ++ [c1 r; c2 r']) `prefix_of` (rng ≫= step_labels)).
    { intros r r'. rewrite fmap_app, Hlog. apply (Hpre k i _ Hk). reflexivity. }
    split; [intros _; apply H1 |]. intros ev _.
    split; [intros ? _; apply H1 |]. intros row _.
    split; [intros _; apply H2' |]. intros w _.
    destruct (add_time t w) as [t' | e']; [| apply H2'].
    unfold fire.
    destruct (row !! 0%nat) as [dx |]; [| apply H2'].
    destruct (row !! 1%nat) as [dy |]; cbn [fst snd]; [| apply H2'].
    split; [apply H2 |]. eexists. apply lookup_insert_eq.
  - intros t s' log [Hlog _]. rewrite Hlog, firstn_all. reflexivity.
  - split; [reflexivity |]. exists d0. apply lookup_insert_eq.
Qed.

Lemma run_log_NoDup {E : Type} (bind : string -> dist -> E -> option value * E) s e :
  NoDup (c_label <$> (calls (run_in bind s e))).
Proof.
  destruct (run_log_labels bind s e) as [k Hk].
  pose proof (NoDup_run_labels (N (self s))) as Hnd.
  rewrite Hk in Hnd. apply NoDup_app in Hnd as [Hnd _]. exact Hnd.
Qed.

(** C4.  [run] is a function of its construction inputs and of the values
    bound at its labelled choices.  Two runs from the same simulator state
    whose environments reply alike end alike, with the same outcome, times,
    trajectories and calls; and since no label is bound twice in a run, a
    re-run in any environment that forces the full trace of a run (every
    reply of which was a value) repeats that run. *)
Theorem run_is_deterministic_and_replayable {E1 E2 : Type}
    (bind1 : string -> dist -> E1 -> option value * E1)
    (bind2 : string -> dist -> E2 -> option value * E2)
    (s : store) (e1 : E1) (e2 : E2) :
  (c_reply <$> (calls (run_in bind2 s e2)) = c_reply <$> (calls (run_in bind1 s e1))
   \/ (forces (trace_of (calls (run_in bind1 s e1))) bind2 /\
       Forall (fun c => is_Some (c_reply c)) (calls (run_in bind1 s e1)))) ->
  run_in bind2 s e2 = run_in bind1 s e1 /\
  times (self (final_store (run_in bind2 s e2))) =
    times (self (final_store (run_in bind1 s e1))) /\
  trajectory (self (final_store (run_in bind2 s e2))) =
    trajectory (self (final_store (run_in bind1 s e1))).
Proof.
  intros Hcase.
  assert (Heq : run_in bind2 s e2 = run_in bind1 s e1).
  { destruct Hcase as [Hr | [Hforce Hsome]].
    - destruct (interp_same_replies bind1 bind2 (run s) e1 e2 Hr) as [Hx Hlog].
      unfold run_in. cbn zeta. rewrite Hx, Hlog. reflexivity.
    - pose proof (trace_of_lookup _ (run_log_NoDup bind1 s e1) Hsome) as Hev.
      destruct (interp_forced bind1 bind2 _ (run s) e1 e2 Hforce Hev) as [Hx Hlog].
      unfold run_in. cbn zeta. rewrite Hx, Hlog. reflexivity. }
  rewrite Heq. auto.
Qed.

(** ** Instances on the notebook's simulator *)

(** C1 on a three-entry run of the notebook's simulator. *)
Lemma run_records_nonnegative_counts_witness :
  let s := mkStore (notebook_heap 50 100) (sim_50_100 3) in
  __init__ notebook_transitions 0%nat 3 "H1" default_t0 (notebook_heap 50 100)
    = Ok (sim_50_100 3) /\
  exists x y app_prey app_pred,
    prey (trajectory (self (final_store (run_in scripted s replies_3)))) =
      x :: app_prey /\
    pred (trajectory (self (final_store (run_in scripted s replies_3)))) =
      y :: app_pred /\
    Forall (fun z => 0 <= z) app_prey /\ Forall (fun z => 0 <= z) app_pred.
Proof.
  intros s.
  assert (Hi : __init__ notebook_transitions 0%nat 3 "H1" default_t0
                 (notebook_heap 50 100) = Ok (sim_50_100 3))
    by (vm_compute; reflexivity).
  split; [exact Hi |].
  destruct (run_records_nonnegative_counts scripted replies_3
              notebook_transitions 0%nat 3 "H1" default_t0 (notebook_heap 50 100)
              (sim_50_100 3) Hi)
    as (x & y & app_prey & app_pred & _ & Hp & Hq & Fp & Fq & _).
  exists x, y, app_prey, app_pred. repeat split; assumption.
Defined.

(** C2 (as amended) at the scenario [{prey: 0, pred: 5}] under the rates of
    "H1": the hazards are [0], [0.0] and [3.0]. *)
Lemma get_hazards_mass_action_witness :
  exists a b c,
    Py.H1 !! "spawn_prey" = Some a /\
    Py.H1 !! "prey2pred" = Some b /\
    Py.H1 !! "pred_dies" = Some c /\
    positive_rate a /\ positive_rate b /\ positive_rate c /\
    ecology_of 0 5 !! "prey" = Some 0 /\ ecology_of 0 5 !! "pred" = Some 5 /\
    Py.get_hazards (ecology_of 0 5) Py.H1 =
      Value [("spawn_prey", Int 0);
             ("prey2pred", Float (S754_zero false));
             ("pred_dies", Float (Prim2SF 3))].
Proof.
  pose (b := default (Int 0) (Py.H1 !! "prey2pred")).
  pose (c := default (Int 0) (Py.H1 !! "pred_dies")).
  exists (Int 1), b, c.
  assert (Ha : Py.H1 !! "spawn_prey" = Some (Int 1)) by (vm_compute; reflexivity).
  assert (Hb : Py.H1 !! "prey2pred" = Some b) by (vm_compute; reflexivity).
  assert (Hc : Py.H1 !! "pred_dies" = Some c) by (vm_compute; reflexivity).
  assert (Pa : positive_rate (Int 1)) by reflexivity.
  assert (Pb : positive_rate b) by (vm_compute; exact I).
  assert (Pc : positive_rate c) by (vm_compute; exact I).
  assert (Hx : ecology_of 0 5 !! "prey" = Some 0) by (vm_compute; reflexivity).
  assert (Hy : ecology_of 0 5 !! "pred" = Some 5) by (vm_compute; reflexivity).
  repeat (split; [assumption |]).
  rewrite (proj1 (get_hazards_mass_action (ecology_of 0 5) Py.H1 (Int 1) b c 0 5
                    Ha Hb Hc Pa Pb Pc Hx Hy ltac:(lia) ltac:(lia))).
  vm_compute. reflexivity.
Defined.


(** C4 on the notebook's simulator: a longer script with the same replies,
    and a replay of the trace over an environment that itself would raise. *)
Lemma run_is_deterministic_and_replayable_witness :
  let s := mkStore (notebook_heap 50 100) (sim_50_100 3) in
  (c_reply <$> (calls (run_in scripted s (replies_3 ++ [VNum 7]))) =
     c_reply <$> (calls (run_in scripted s replies_3)) /\
   run_in scripted s (replies_3 ++ [VNum 7]) = run_in scripted s replies_3) /\
  (Forall (fun c => is_Some (c_reply c)) (calls (run_in scripted s replies_3)) /\
   run_in (conditioned (trace_of (calls (run_in scripted s replies_3))) scripted) s []
     = run_in scripted s replies_3).
Proof.
  intros s.
  assert (Hr : c_reply <$> (calls (run_in scripted s (replies_3 ++ [VNum 7]))) =
               c_reply <$> (calls (run_in scripted s replies_3)))
    by (vm_compute; reflexivity).
  assert (Hs : Forall (fun c => is_Some (c_reply c))
                 (calls (run_in scripted s replies_3))).
  { vm_compute. repeat (apply List.Forall_cons; [eexists; reflexivity |]).
    apply List.Forall_nil. }
  split; (split; [assumption |]).
  - exact (proj1 (run_is_deterministic_and_replayable scripted scripted s
                    replies_3 (replies_3 ++ [VNum 7]) (or_introl Hr))).
  - exact (proj1 (run_is_deterministic_and_replayable scripted
                    (conditioned
                       (trace_of (calls (run_in scripted s replies_3))) scripted)
                    s replies_3 []
                    (or_intror (conj (conditioned_forces _ scripted) Hs)))).
Defined.

(** C5 (as amended) on a completed run with [N = 3]. *)
Lemma completed_run_lengths_and_times_witness :
  let s := mkStore (notebook_heap 50 100) (sim_50_100 3) in
  __init__ notebook_transitions 0%nat 3 "H1" default_t0 (notebook_heap 50 100)
    = Ok (sim_50_100 3) /\
  outcome (run_in scripted s replies_3) = Ok tt /\
  Forall nonneg_wait (calls (run_in scripted s replies_3)) /\
  length (times (self (final_store (run_in scripted s replies_3))))
    = Z.to_nat (Z.max 1 3) /\
  Sorted Qle (times (self (final_store (run_in scripted s replies_3)))).
Proof.
  intros s.
  assert (Hi : __init__ notebook_transitions 0%nat 3 "H1" default_t0
                 (notebook_heap 50 100) = Ok (sim_50_100 3))
    by (vm_compute; reflexivity).
  assert (Hok : outcome (run_in scripted s replies_3) = Ok tt)
    by (vm_compute; reflexivity).
  assert (Hw : Forall nonneg_wait (calls (run_in scripted s replies_3))).
  { vm_compute.
    repeat (apply List.Forall_cons; [exact I || discriminate |]).
    apply List.Forall_nil. }
  destruct (completed_run_lengths_and_times scripted replies_3
              notebook_transitions 0%nat 3 "H1" default_t0
              (notebook_heap 50 100) (sim_50_100 3) Hi Hok)
    as (Hlen & _ & _ & Hsorted).
  split; [exact Hi |]. split; [exact Hok |]. split; [exact Hw |].
  split; [exact Hlen | exact (Hsorted Hw)].
Defined.

(** C5 (counterexample).  With [N = 0] the loop body never runs; the run
    completes and the time sequence has the constructor's one entry, not
    zero entries. *)
Lemma zero_steps_leave_one_entry :
  exists s' log,
    notebook_run 50 100 0 "H1" [VStr "H1"] = Ok (Ok tt, s', log) /\
    times (self s') = [default_t0] /\
    length (times (self s')) ≠ Z.to_nat 0.
Proof.
  eexists _, _. split; [vm_compute; reflexivity |].
  split; [reflexivity | discriminate].
Qed.

(** C6 on the notebook's simulator pinned to "H1". *)
Lemma hypothesis_drawn_once_witness :
  __init__ notebook_transitions 0%nat 3 "H1" default_t0 (notebook_heap 50 100)
    = Ok (sim_50_100 3) /\
  exists r rest,
    calls (run_in scripted (mkStore (notebook_heap 50 100) (sim_50_100 3))
             replies_3) =
      mkCall "theta" (Discrete (hypothesis_prior "H1")) r :: rest /\
    Forall (fun c => c_label c ≠ "theta") rest.
Proof.
  assert (Hi : __init__ notebook_transitions 0%nat 3 "H1" default_t0
                 (notebook_heap 50 100) = Ok (sim_50_100 3))
    by (vm_compute; reflexivity).
  split; [exact Hi |].
  destruct (proj1 (hypothesis_drawn_once scripted replies_3
                     notebook_transitions 0%nat 3 "H1" default_t0
                     (notebook_heap 50 100) (sim_50_100 3) Hi))
    as (r & rest & Hlog & Hne & _).
  exists r, rest. split; assumption.
Defined.

Lemma notebook_transitions_rows : has_rows notebook_transitions.
Proof.
  intros k. rewrite !elem_of_cons, elem_of_nil.
  intros [-> | [-> | [-> | []]]]; eexists _, _, _; vm_compute; reflexivity.
Defined.

Lemma notebook_transitions_fit : rows_fit_int64 notebook_transitions.
Proof.
  intros k row Hk.
  assert (Hin : row ∈ [[1; 0]; [-1; 1]; [0; -1]]).
  { destruct (decide (k = "spawn_prey")) as [-> | N1];
      [vm_compute in Hk; injection Hk as <-; set_solver |].
    destruct (decide (k = "prey2pred")) as [-> | N2];
      [vm_compute in Hk; injection Hk as <-; set_solver |].
    destruct (decide (k = "pred_dies")) as [-> | N3];
      [vm_compute in Hk; injection Hk as <-; set_solver |].
    unfold notebook_transitions in Hk. cbn [list_to_map foldr fst snd uncurry] in Hk.
    rewrite !lookup_insert_ne in Hk by congruence.
    rewrite lookup_empty in Hk. discriminate. }
  rewrite !elem_of_cons, elem_of_nil in Hin.
  destruct Hin as [-> | [-> | [-> | []]]];
    repeat constructor; unfold fits_int64; lia.
Defined.

(** C7 (as amended) on the initial population [{prey: -5, pred: 3}]: it is
    recorded and the run completes. *)
Lemma no_validation_of_counts_witness :
  notebook_heap (-5) 3 !! 0%nat = Some (ecology_of (-5) 3) /\
  ecology_of (-5) 3 !! "prey" = Some (-5) /\
  ecology_of (-5) 3 !! "pred" = Some 3 /\
  exists o,
    __init__ notebook_transitions 0%nat 2 "H1" default_t0 (notebook_heap (-5) 3)
      = Ok o /\
    trajectory o = mkTrajectory [-5] [3] /\
    Forall in_support
      (calls (run_in scripted (mkStore (notebook_heap (-5) 3) o)
                [VStr "H1"; VStr "pred_dies"; VNum 1])) /\
    outcome (run_in scripted (mkStore (notebook_heap (-5) 3) o)
               [VStr "H1"; VStr "pred_dies"; VNum 1]) = Ok tt.
Proof.
  assert (Hh : notebook_heap (-5) 3 !! 0%nat = Some (ecology_of (-5) 3))
    by (vm_compute; reflexivity).
  assert (Hx : ecology_of (-5) 3 !! "prey" = Some (-5)) by (vm_compute; reflexivity).
  assert (Hy : ecology_of (-5) 3 !! "pred" = Some 3) by (vm_compute; reflexivity).
  repeat (split; [assumption |]).
  destruct (no_validation_of_counts scripted [VStr "H1"; VStr "pred_dies"; VNum 1]
              notebook_transitions 0%nat 2 "H1" default_t0 (notebook_heap (-5) 3)
              (ecology_of (-5) 3) (-5) 3 Hh Hx Hy)
    as (o & Ho & Htr & Hrun).
  exists o. split; [exact Ho |]. split; [exact Htr |].
  assert (Ho' : o = mkLV notebook_transitions "H1" 0%nat [default_t0]
                      (mkTrajectory [-5] [3]) 2).
  { vm_compute in Ho. injection Ho as <-. reflexivity. }
  assert (Hs : Forall in_support
                 (calls (run_in scripted (mkStore (notebook_heap (-5) 3) o)
                           [VStr "H1"; VStr "pred_dies"; VNum 1]))).
  { rewrite Ho'. vm_compute.
    apply List.Forall_cons.
    { exists "H1". split; [reflexivity |]. apply list_elem_of_here. }
    apply List.Forall_cons.
    { exists "pred_dies". split; [reflexivity |].
      apply list_elem_of_further, list_elem_of_further, list_elem_of_here. }
    apply List.Forall_cons; [eexists; reflexivity |].
    apply List.Forall_nil. }
  split; [exact Hs |].
  apply Hrun; try exact Hs.
  - exact notebook_transitions_rows.
  - apply list_elem_of_here.
  - unfold fits_int64; lia.
  - unfold fits_int64; lia.
  - unfold fits_int64; lia.
  - exact notebook_transitions_fit.
Defined.

(** C9 (as amended) on predation fired with no prey and no predators. *)
Lemma clamp_is_per_species_witness :
  heap extinct_store !! 1%nat = Some (ecology_of 0 0) /\
  get_hazards (ecology_of 0 0) H1 =
    Ok [("spawn_prey", 1 * inject_Z 0);
        ("prey2pred", 0.005 * inject_Z 0 * inject_Z 0);
        ("pred_dies", 0.6 * inject_Z 0)]%Q /\
  ecology_of 0 0 !! "prey" = Some 0 /\
  ecology_of 0 0 !! "pred" = Some 0 /\
  transitions (self extinct_store) !! "prey2pred" = Some [-1; 1] /\
  fits_int64 0 /\ fits_int64 (-1) /\ fits_int64 1 /\
  fits_int64 (0 + -1) /\ fits_int64 (0 + 1) /\
  exists s' d' log,
    interp scripted (step 1%nat H1 1 0 extinct_store) [VStr "prey2pred"; VNum 1] =
      (Ok (0 + 1)%Q, s', [], log) /\
    heap s' !! 1%nat = Some d' /\
    d' !! "prey" = Some 0 /\ d' !! "pred" = Some 1.
Proof.
  assert (H1' : heap extinct_store !! 1%nat = Some (ecology_of 0 0))
    by (vm_compute; reflexivity).
  assert (H2' : get_hazards (ecology_of 0 0) H1 =
            Ok [("spawn_prey", 1 * inject_Z 0);
                ("prey2pred", 0.005 * inject_Z 0 * inject_Z 0);
                ("pred_dies", 0.6 * inject_Z 0)]%Q)
    by (vm_compute; reflexivity).
  assert (Hx : ecology_of 0 0 !! "prey" = Some 0) by (vm_compute; reflexivity).
  assert (Hy : ecology_of 0 0 !! "pred" = Some 0) by (vm_compute; reflexivity).
  assert (Hev : transitions (self extinct_store) !! "prey2pred" = Some [-1; 1])
    by (vm_compute; reflexivity).
  assert (F0 : fits_int64 0) by (unfold fits_int64; lia).
  assert (Fm : fits_int64 (-1)) by (unfold fits_int64; lia).
  assert (F1 : fits_int64 1) by (unfold fits_int64; lia).
  assert (Fsx : fits_int64 (0 + -1)) by (unfold fits_int64; lia).
  assert (Fsy : fits_int64 (0 + 1)) by (unfold fits_int64; lia).
  repeat (split; [assumption |]).
  destruct (clamp_is_per_species 1%nat H1 1 0%Q extinct_store _ _ 0 0 (-1) 1 []
              "prey2pred" 1%Q H1' H2' Hx Hy Hev F0 F0 Fm F1 Fsx Fsy)
    as (s' & d' & log & Hrun & Hd' & _ & _ & _ & _ & _ & Hzero).
  exists s', d', log. split; [exact Hrun |]. split; [exact Hd' |].
  apply Hzero; reflexivity || lia.
Defined.

(** C10 on a three-entry run of the notebook's simulator. *)
Lemma run_never_mutates_initial_witness :
  __init__ notebook_transitions 0%nat 3 "H1" default_t0 (notebook_heap 50 100)
    = Ok (sim_50_100 3) /\
  heap (final_store (run_in scripted (mkStore (notebook_heap 50 100) (sim_50_100 3))
          replies_3)) !! 0%nat = notebook_heap 50 100 !! 0%nat.
Proof.
  assert (Hi : __init__ notebook_transitions 0%nat 3 "H1" default_t0
                 (notebook_heap 50 100) = Ok (sim_50_100 3))
    by (vm_compute; reflexivity).
  split; [exact Hi |].
  exact (proj1 (proj2 (proj2
    (run_never_mutates_initial scripted replies_3
       notebook_transitions 0%nat 3 "H1" default_t0
       (notebook_heap 50 100) (sim_50_100 3) Hi)))).
Defined.

(** * Further properties of the simulator *)

(** ** What a run records *)

Lemma pass_exact_app tr passes passes' ts ts' xs xs' ys ys' k :
  pass_exact tr passes ts xs ys k ->
  pass_exact tr (passes ++ passes') (ts ++ ts') (xs ++ xs') (ys ++ ys') k.
Proof.
  intros (ev & w & dx & dy & rest & d1 & d2 & t & x & y
          & H1 & H2 & H3 & H4 & H5 & H6 & H7 & H8 & H9).
  exists ev, w, dx, dy, rest, d1, d2, t, x, y.
  repeat split; try assumption; apply lookup_app_l_Some; assumption.
Qed.

Lemma pass_exact_recorded tr passes ts xs ys k :
  pass_exact tr passes ts xs ys k -> pass_recorded tr passes xs ys k.
Proof.
  intros (ev & w & dx & dy & rest & d1 & d2 & t & x & y
          & H1 & H2 & H3 & _ & H5 & H6 & _ & H8 & H9).
  exists ev, w, dx, dy, rest, d1, d2, x, y. repeat split; auto.
Qed.

Lemma getitem_Ok_inv {V : Type} (d : gmap string V) v x :
  getitem d v = Ok x -> exists k, v = VStr k /\ d !! k = Some x.
Proof.
  unfold getitem. destruct v as [k | q]; [| discriminate].
  destruct (d !! k) as [x' |] eqn:Hk; [| discriminate].
  intros [= <-]. eauto.
Qed.

Lemma add_time_Ok_inv t w t' :
  add_time t w = Ok t' -> exists q, w = VNum q /\ t' = (t + q)%Q.
Proof. destruct w as [? | q]; [discriminate |]. intros [= <-]. eauto. Qed.

Lemma row_two (row : list Z) dx dy :
  row !! 0%nat = Some dx -> row !! 1%nat = Some dy ->
  exists rest, row = dx :: dy :: rest.
Proof.
  destruct row as [| a [| b rest]]; try discriminate.
  intros [= ->] [= ->]. eauto.
Qed.

Lemma run_trace_spec {E : Type} (bind : string -> dist -> E -> option value * E)
    s e d0 x0 y0 t0 ts0 :
  heap s !! initial (self s) = Some d0 ->
  d0 !! "prey" = Some x0 -> d0 !! "pred" = Some y0 ->
  times (self s) = t0 :: ts0 ->
  exists at_ ap aq,
    times (self (final_store (run_in bind s e))) = times (self s) ++ at_ /\
    prey (trajectory (self (final_store (run_in bind s e)))) =
      prey (trajectory (self s)) ++ ap /\
    pred (trajectory (self (final_store (run_in bind s e)))) =
      pred (trajectory (self s)) ++ aq /\
    length ap = length at_ /\ length aq = length at_ /\
    (outcome (run_in bind s e) = Ok tt ->
     length at_ = Z.to_nat (N (self s) - 1)) /\
    forall k, (k < length at_)%nat ->
      pass_exact (transitions (self s)) (drop 1 (calls (run_in bind s e)))
        (t0 :: at_) (x0 :: ap) (y0 :: aq) k.
Proof.
  intros Hd0 Hx0 Hy0 Ht.
  pose (tr := transitions (self s)).
  pose (Q := fun (len : nat) (rs : result unit * store) (passes : list call) =>
    exists at_ ap aq,
      times (self rs.2) = times (self s) ++ at_ /\
      prey (trajectory (self rs.2)) = prey (trajectory (self s)) ++ ap /\
      pred (trajectory (self rs.2)) = pred (trajectory (self s)) ++ aq /\
      length ap = length at_ /\ length aq = length at_ /\
      (rs.1 = Ok tt -> length at_ = len) /\
      forall k, (k < length at_)%nat ->
        pass_exact tr passes (t0 :: at_) (x0 :: ap) (y0 :: aq) k).
  assert (HQ0 : forall err s' passes len,
            self s' = self s -> Q len (Err err, s') passes).
  { intros err s' passes len Hs. exists [], [], []. cbn [fst snd].
    rewrite Hs, !app_nil_r. repeat split; try reflexivity; try discriminate.
    intros k Hk. inversion Hk. }
  assert (Hlen : length (range 1 (N (self s))) = Z.to_nat (N (self s) - 1)).
  { unfold range. apply length_seqZ. }
  apply (sat_run_in (fun _ => True)
           (fun rs log => Q (Z.to_nat (N (self s) - 1)) rs (drop 1 log)));
    [| apply Forall_True].
  apply sat_run; [congruence |].
  intros d1 Hd1 ecology s1 c0. rewrite Hd0 in Hd1. injection Hd1 as <-.
  split; [intros _; apply HQ0; reflexivity |]. intros v _.
  split; [intros ? _; apply HQ0; reflexivity |]. intros theta _.
  split; [congruence |]. intros t1 ts1 Hts. rewrite Ht in Hts.
  injection Hts as <- <-.
  rewrite <- Hlen. set (rng := range 1 (N (self s))).
  apply (sat_mono _ (fun rs passes => Q (length rng) (unit_of rs.1, rs.2) passes)).
  { intros rs passes HQ. cbn [drop]. exact HQ. }
  apply (sat_for_each _ _ _
    (fun k t s' passes =>
       exists at_ ap aq d x y,
         times (self s') = times (self s) ++ at_ /\
         prey (trajectory (self s')) = prey (trajectory (self s)) ++ ap /\
         pred (trajectory (self s')) = pred (trajectory (self s)) ++ aq /\
         transitions (self s') = tr /\
         length at_ = k /\ length ap = k /\ length aq = k /\
         length passes = (2 * k)%nat /\
         (t0 :: at_) !! k = Some t /\ (x0 :: ap) !! k = Some x /\
         (y0 :: aq) !! k = Some y /\
         heap s' !! ecology = Some d /\
         d !! "prey" = Some x /\ d !! "pred" = Some y /\
         forall j, (j < k)%nat ->
           pass_exact tr passes (t0 :: at_) (x0 :: ap) (y0 :: aq) j)).
  - intros k i t s' passes Hk
      (at_ & ap & aq & d & x & y & Hat & Hap & Haq & Htr & Lt & Lp & Lq & Ll
       & Ht' & Hx' & Hy' & Hd & Hdx & Hdy & Hrec).
    assert (Hi : i = Z.of_nat k + 1).
    { unfold rng, range in Hk. apply lookup_seqZ in Hk as [-> _]. lia. }
    assert (Herr : forall err s'' passes',
              self s'' = self s' -> Q (length rng) (Err err, s'') (passes ++ passes')).
    { intros err s'' passes' Hs. exists at_, ap, aq. cbn [fst snd].
      rewrite Hs. repeat split; try assumption; try congruence.
      intros j Hj. rewrite Lt in Hj.
      rewrite <- (app_nil_r (t0 :: at_)), <- (app_nil_r (x0 :: ap)),
        <- (app_nil_r (y0 :: aq)).
      apply pass_exact_app, Hrec, Hj. }
    apply (sat_step _ _ _ _ _ _ d); [exact Hd | |].
    { intros err _. apply Herr. reflexivity. }
    intros hz x2 y2 _ Hx2 Hy2 c1 c2.
    assert (x2 = x) as -> by congruence. assert (y2 = y) as -> by congruence.
    split; [intros _; apply Herr; reflexivity |]. intros ev _.
    split; [intros ? _; apply Herr; reflexivity |]. intros row Hrow.
    split; [intros _; apply Herr; reflexivity |]. intros w _.
    destruct (add_time t w) as [t' | err] eqn:Hadd; [| apply Herr; reflexivity].
    unfold fire.
    destruct (row !! 0%nat) as [dx |] eqn:Hr0; [| apply Herr; reflexivity].
    destruct (row !! 1%nat) as [dy |] eqn:Hr1; cbn [fst snd];
      [| apply Herr; reflexivity].
    destruct (row_two _ _ _ Hr0 Hr1) as [rest ->].
    destruct (getitem_Ok_inv _ _ _ Hrow) as (kev & -> & Hkev).
    destruct (add_time_Ok_inv _ _ _ Hadd) as (q & -> & ->).
    exists (at_ ++ [(t + q)%Q]), (ap ++ [max0 (x + dx)]), (aq ++ [max0 (y + dy)]).
    eexists _, (max0 (x + dx)), (max0 (y + dy)).
    cbn [self heap times trajectory prey pred transitions].
    rewrite Hat, Hap, Haq, <- !app_assoc, !length_app, Lt, Lp, Lq, Ll.
    cbn [length].
    split; [reflexivity |]. split; [reflexivity |]. split; [reflexivity |].
    split; [exact Htr |].
    split; [lia |]. split; [lia |]. split; [lia |]. split; [lia |].
    split; [rewrite app_comm_cons; apply list_lookup_middle; cbn; lia |].
    split; [rewrite app_comm_cons; apply list_lookup_middle; cbn; lia |].
    split; [rewrite app_comm_cons; apply list_lookup_middle; cbn; lia |].
    split; [apply lookup_insert_eq |].
    split; [rewrite lookup_insert_ne by (symmetry; exact prey_ne_pred);
            apply lookup_insert_eq |].
    split; [apply lookup_insert_eq |].
    intros j Hj. destruct (decide (j = k)) as [-> | Hne].
    + exists kev, q, dx, dy, rest, (Discrete hz),
        (Exponential (sum (dict_values hz))), t, x, y.
      rewrite Htr in Hkev.
      split; [rewrite <- Hi; apply list_lookup_middle; lia |].
      split.
      { rewrite <- Hi. change [c1 (Some (VStr kev)); c2 (Some (VNum q))]
          with ([c1 (Some (VStr kev))] ++ [c2 (Some (VNum q))]).
        rewrite app_assoc. apply list_lookup_middle.
        rewrite length_app. cbn [length]. lia. }
      split; [exact Hkev |].
      rewrite !app_comm_cons.
      split; [apply lookup_app_l_Some, Ht' |].
      split; [apply lookup_app_l_Some, Hx' |].
      split; [apply lookup_app_l_Some, Hy' |].
      split; [apply (list_lookup_middle (t0 :: at_)); cbn; lia |].
      split; [apply (list_lookup_middle (x0 :: ap)); cbn; lia |].
      apply (list_lookup_middle (y0 :: aq)); cbn; lia.
    + rewrite !app_comm_cons. apply pass_exact_app, Hrec. lia.
  - intros t s' passes
      (at_ & ap & aq & d & x & y & Hat & Hap & Haq & _ & Lt & Lp & Lq & _
       & _ & _ & _ & _ & _ & _ & Hrec).
    exists at_, ap, aq. cbn [fst snd unit_of].
    repeat split; try assumption; try congruence.
    intros k Hk. apply Hrec. lia.
  - exists [], [], [], d0, x0, y0. rewrite !app_nil_r.
    cbn [s1 self heap length].
    repeat split; try reflexivity; try assumption.
    + apply lookup_insert_eq.
    + intros j Hj. inversion Hj.
Qed.

Lemma run_only_appends {E : Type} (bind : string -> dist -> E -> option value * E)
    s e :
  exists at_ ap aq,
    self (final_store (run_in bind s e)) =
      mkLV (transitions (self s)) (select_hyp (self s)) (initial (self s))
        (times (self s) ++ at_)
        (mkTrajectory (prey (trajectory (self s)) ++ ap)
           (pred (trajectory (self s)) ++ aq))
        (N (self s)) /\
    length ap = length at_ /\ length aq = length at_ /\
    (length at_ <= Z.to_nat (N (self s) - 1))%nat /\
    (outcome (run_in bind s e) = Ok tt ->
     length at_ = Z.to_nat (N (self s) - 1)).
Proof.
  pose (R := fun (k : nat) (s' : store) =>
    exists at_ ap aq,
      self s' =
        mkLV (transitions (self s)) (select_hyp (self s)) (initial (self s))
          (times (self s) ++ at_)
          (mkTrajectory (prey (trajectory (self s)) ++ ap)
             (pred (trajectory (self s)) ++ aq))
          (N (self s)) /\
      length at_ = k /\ length ap = k /\ length aq = k).
  assert (HR0 : forall s', self s' = self s -> R 0%nat s').
  { intros s' Hs. exists [], [], []. rewrite Hs, !app_nil_r.
    destruct (self s) as [? ? ? ? [? ?] ?]. auto. }
  assert (Hlen : length (range 1 (N (self s))) = Z.to_nat (N (self s) - 1)).
  { unfold range. apply length_seqZ. }
  rewrite <- Hlen. set (rng := range 1 (N (self s))).
  pose (P := fun (rs : result unit * store) =>
    exists k, R k rs.2 /\ (k <= length rng)%nat /\
              (rs.1 = Ok tt -> k = length rng)).
  assert (HP : P (run_in bind s e).1).
  { assert (HP0 : forall err s', self s' = self s -> P (Err err, s')).
    { intros err s' Hs. exists 0%nat. split; [apply HR0, Hs |].
      split; [lia | discriminate]. }
    apply (sat_run_in (fun _ => True) (fun rs _ => P rs)); [| apply Forall_True].
    apply sat_run; [intros _; apply HP0; reflexivity |].
    intros d0 _ ecology s1 c0.
    split; [intros _; apply HP0; reflexivity |]. intros v _.
    split; [intros ? _; apply HP0; reflexivity |]. intros theta _.
    split; [intros _; apply HP0; reflexivity |]. intros t0 ts _.
    apply (sat_for_each _ _ _
             (fun k _ s' _ => R k s' /\ exists d, heap s' !! ecology = Some d)).
    - intros k i t s' log Hk [HR [d Hd]].
      apply lookup_lt_Some in Hk.
      assert (Herr : forall err s'', self s'' = self s' -> P (Err err, s'')).
      { intros err s'' Hs. exists k.
        split; [| split; [unfold rng; lia | discriminate]].
        destruct HR as (at_ & ap & aq & HR). exists at_, ap, aq.
        cbn [snd]. rewrite Hs. exact HR. }
      apply (sat_step _ _ _ _ _ _ d); [exact Hd | |].
      { intros err _. apply Herr. reflexivity. }
      intros hz x y _ Hx Hy c1 c2.
      split; [intros _; apply Herr; reflexivity |]. intros ev _.
      split; [intros ? _; apply Herr; reflexivity |]. intros row _.
      split; [intros _; apply Herr; reflexivity |]. intros w _.
      destruct (add_time t w) as [t' | err]; [| apply Herr; reflexivity].
      unfold fire.
      destruct (row !! 0%nat) as [dx |]; [| apply Herr; reflexivity].
      destruct (row !! 1%nat) as [dy |]; cbn [fst snd];
        [| apply Herr; reflexivity].
      split; [| eexists; apply lookup_insert_eq].
      destruct HR as (at_ & ap & aq & Hs & Lt & Lp & Lq).
      exists (at_ ++ [t']), (ap ++ [max0 (x + dx)]), (aq ++ [max0 (y + dy)]).
      cbn [self]. rewrite Hs. cbn [transitions select_hyp initial times
        trajectory prey pred N]. rewrite <- !app_assoc, !length_app.
      cbn [length]. split; [reflexivity |]. repeat split; lia.
    - intros t s' log [HR _]. exists (length rng). cbn [fst snd]. auto.
    - split; [apply HR0; reflexivity |]. eexists. apply lookup_insert_eq. }
  destruct HP as (k & (at_ & ap & aq & Hs & Lt & Lp & Lq) & Hle & Hok).
  exists at_, ap, aq. rewrite Lt, Lp, Lq.
  split; [exact Hs |]. split; [reflexivity |]. split; [reflexivity |].
  split; [exact Hle | exact Hok].
Qed.

(** X1.  Every count a run records follows from the count before it: on a
    simulator built by [__init__], the [k]-th pass bound "event_k+1" to an
    event with a row in the transition table and "t_k+1" to a number, and
    entry [k + 1] of each count sequence is entry [k] plus its component of
    that row, clamped at zero (for counts and sums that fit 64 bits); this
    holds for every recorded entry, however the run ends. *)
Theorem run_records_each_pass {E : Type}
    (bind : string -> dist -> E -> option value * E) (e : E)
    tr l n hyp t0 (h : gmap loc (gmap string Z)) o :
  __init__ tr l n hyp t0 h = Ok o ->
  forall k,
    (S k < length (times (self (final_store (run_in bind (mkStore h o) e)))))%nat ->
    pass_recorded tr (drop 1 (calls (run_in bind (mkStore h o) e)))
      (prey (trajectory (self (final_store (run_in bind (mkStore h o) e)))))
      (pred (trajectory (self (final_store (run_in bind (mkStore h o) e)))))
      k.
Proof.
  intros Hinit k Hk.
  destruct (init_initial _ _ _ _ _ _ _ Hinit)
    as (Hl & Htr & _ & _ & Ht & d & x & y & Hd & Hx & Hy & Htraj).
  destruct (run_trace_spec bind (mkStore h o) e d x y t0 [])
    as (at_ & ap & aq & Hat & Hap & Haq & _ & _ & _ & Hrec);
    cbn [heap self]; try assumption; [rewrite Hl; exact Hd |].
  cbn [self] in *. rewrite Ht in Hat. rewrite Htraj in Hap, Haq.
  cbn [prey pred app] in Hat, Hap, Haq.
  rewrite Hat, Hap, Haq in *. rewrite <- Htr.
  apply (pass_exact_recorded _ _ (t0 :: at_)), Hrec.
  cbn [length] in Hk. lia.
Qed.

(** X2.  A run only appends.  Whatever the state of the simulator, the
    replies of the environment and the way the run ends, the fields
    [transitions], [select_hyp], [initial] and [N] keep their values, and the
    time, prey and pred sequences are extended by equally many entries: at
    most [max(0, N - 1)], and exactly that many when the run completes. *)
Theorem run_extends_sequences_in_step {E : Type}
    (bind : string -> dist -> E -> option value * E) (s : store) (e : E) :
  exists at_ ap aq,
    self (final_store (run_in bind s e)) =
      mkLV (transitions (self s)) (select_hyp (self s)) (initial (self s))
        (times (self s) ++ at_)
        (mkTrajectory (prey (trajectory (self s)) ++ ap)
           (pred (trajectory (self s)) ++ aq))
        (N (self s)) /\
    length ap = length at_ /\ length aq = length at_ /\
    (length at_ <= Z.to_nat (Z.max 0 (N (self s) - 1)))%nat /\
    (outcome (run_in bind s e) = Ok tt ->
     length at_ = Z.to_nat (Z.max 0 (N (self s) - 1))).
Proof.
  destruct (run_only_appends bind s e) as (at_ & ap & aq & Hs & Lp & Lq & Hle & Hok).
  exists at_, ap, aq. repeat split; try assumption.
  - lia.
  - intros H. rewrite (Hok H). lia.
Qed.

(** X3.  The simulator object is not reset between runs.  A second run on the
    same object appends after the entries of the first, and its passes start
    over from the counts of the initial dictionary, not from where the first
    run ended; after two completed runs each sequence has
    [2 * max(1, N) - 1] entries. *)
Theorem second_run_appends_and_restarts {E1 E2 : Type}
    (bind1 : string -> dist -> E1 -> option value * E1) (e1 : E1)
    (bind2 : string -> dist -> E2 -> option value * E2) (e2 : E2)
    tr l n hyp t0 (h : gmap loc (gmap string Z)) o :
  __init__ tr l n hyp t0 h = Ok o ->
  let r1 := run_in bind1 (mkStore h o) e1 in
  let r2 := run_in bind2 (final_store r1) e2 in
  exists x y at2 ap2 aq2,
    trajectory o = mkTrajectory [x] [y] /\
    times (self (final_store r2)) = times (self (final_store r1)) ++ at2 /\
    prey (trajectory (self (final_store r2))) =
      prey (trajectory (self (final_store r1))) ++ ap2 /\
    pred (trajectory (self (final_store r2))) =
      pred (trajectory (self (final_store r1))) ++ aq2 /\
    length ap2 = length at2 /\ length aq2 = length at2 /\
    (forall k, (k < length at2)%nat ->
       pass_recorded tr (drop 1 (calls r2)) (x :: ap2) (y :: aq2) k) /\
    (outcome r1 = Ok tt -> outcome r2 = Ok tt ->
     length (times (self (final_store r2))) = Z.to_nat (2 * Z.max 1 n - 1)).
Proof.
  intros Hinit r1 r2.
  destruct (init_initial _ _ _ _ _ _ _ Hinit)
    as (Hl & Htr & _ & Hn & Ht & d & x & y & Hd & Hx & Hy & Htraj).
  destruct (run_only_appends bind1 (mkStore h o) e1)
    as (at1 & ap1 & aq1 & Hs1 & _ & _ & _ & Hok1).
  fold r1 in Hs1, Hok1. cbn [self] in Hs1, Hok1.
  destruct (run_frame bind1 (mkStore h o) e1) as [_ Hheap]. fold r1 in Hheap.
  specialize (Hheap l d Hd). cbn [heap] in Hheap.
  assert (Hi1 : initial (self (final_store r1)) = l) by (rewrite Hs1; exact Hl).
  assert (Ht1 : times (self (final_store r1)) = t0 :: at1).
  { rewrite Hs1. cbn [times]. rewrite Ht. reflexivity. }
  assert (Htr1 : transitions (self (final_store r1)) = tr)
    by (rewrite Hs1; exact Htr).
  assert (Hn1 : N (self (final_store r1)) = n) by (rewrite Hs1; exact Hn).
  destruct (run_trace_spec bind2 (final_store r1) e2 d x y t0 at1)
    as (at2 & ap2 & aq2 & Hat & Hap & Haq & Lp & Lq & Hok2 & Hrec);
    try assumption; [rewrite Hi1; exact Hheap |].
  fold r2 in Hat, Hap, Haq, Hok2, Hrec. rewrite Htr1 in Hrec.
  exists x, y, at2, ap2, aq2.
  repeat (split; [assumption |]).
  split; [intros k Hk; exact (pass_exact_recorded _ _ _ _ _ _ (Hrec k Hk)) |].
  intros H1 H2. rewrite Hat, Ht1, length_app. cbn [length].
  rewrite (Hok2 H2), Hn1, (Hok1 H1), Hn. lia.
Qed.

(** X4.  The simulator holds the caller's dictionary, not a copy of it.  The
    first trajectory entries are the counts read when the object was built;
    the passes of a run start from the counts the dictionary holds when the
    run starts. *)
Theorem run_reads_initial_when_it_starts {E : Type}
    (bind : string -> dist -> E -> option value * E) (e : E)
    tr l n hyp t0 (h h' : gmap loc (gmap string Z)) o d' x' y' :
  __init__ tr l n hyp t0 h = Ok o ->
  h' !! l = Some d' -> d' !! "prey" = Some x' -> d' !! "pred" = Some y' ->
  exists d x y at_ ap aq,
    h !! l = Some d /\ d !! "prey" = Some x /\ d !! "pred" = Some y /\
    times (self (final_store (run_in bind (mkStore h' o) e))) = t0 :: at_ /\
    prey (trajectory (self (final_store (run_in bind (mkStore h' o) e)))) =
      x :: ap /\
    pred (trajectory (self (final_store (run_in bind (mkStore h' o) e)))) =
      y :: aq /\
    length ap = length at_ /\ length aq = length at_ /\
    forall k, (k < length at_)%nat ->
      pass_recorded tr (drop 1 (calls (run_in bind (mkStore h' o) e)))
        (x' :: ap) (y' :: aq) k.
Proof.
  intros Hinit Hd' Hx' Hy'.
  destruct (init_initial _ _ _ _ _ _ _ Hinit)
    as (Hl & Htr & _ & _ & Ht & d & x & y & Hd & Hx & Hy & Htraj).
  destruct (run_trace_spec bind (mkStore h' o) e d' x' y' t0 [])
    as (at_ & ap & aq & Hat & Hap & Haq & Lp & Lq & _ & Hrec);
    cbn [heap self]; try assumption; [rewrite Hl; exact Hd' |].
  cbn [self] in *. rewrite Ht in Hat. rewrite Htraj in Hap, Haq.
  cbn [prey pred app] in Hat, Hap, Haq. rewrite Htr in Hrec.
  exists d, x, y, at_, ap, aq. repeat (split; [assumption |]).
  intros k Hk. exact (pass_exact_recorded _ _ _ _ _ _ (Hrec k Hk)).
Qed.

(** ** The calls of a run *)

Lemma getitem_Err_inv {V : Type} (d : gmap string V) v err :
  getitem d v = Err err -> err = KeyError v.
Proof.
  unfold getitem. destruct v as [k | q]; [| intros [= <-]; reflexivity].
  destruct (d !! k); [discriminate | intros [= <-]; reflexivity].
Qed.

Lemma get_hazards_Err_inv ecology theta err :
  get_hazards ecology theta = Err err -> exists k, err = KeyError (VStr k).
Proof.
  unfold get_hazards.
  repeat match goal with
  | |- context [getitem ?d ?k] =>
      let H := fresh "H" in
      destruct (getitem d k) eqn:H;
      [| apply getitem_Err_inv in H; intros [= <-]; eauto]
  end.
  discriminate.
Qed.

Lemma length_step_labels (rng : list Z) :
  length (rng ≫= step_labels) = (2 * length rng)%nat.
Proof.
  induction rng as [| i rng IH]; [reflexivity |].
  cbn [mbind list_bind]. rewrite length_app, IH. cbn [step_labels length]. lia.
Qed.

Lemma run_calls_protocol {E : Type} (bind : string -> dist -> E -> option value * E)
    s e :
  stops_when_env_raises (outcome (run_in bind s e)) (calls (run_in bind s e)) /\
  (outcome (run_in bind s e) = Ok tt ->
   length (calls (run_in bind s e)) = length (run_labels (N (self s)))).
Proof.
  pose (answered := fun c : call => is_Some (c_reply c)).
  assert (Hquiet : forall (err : exn) log (out : result unit),
            out = Err err -> err ≠ EnvError -> Forall answered log ->
            stops_when_env_raises out log /\
            (out = Ok tt -> length log = length (run_labels (N (self s))))).
  { intros err log out -> Hne Hlog. split; [| discriminate].
    left. split; [exact Hlog | congruence]. }
  assert (Hraised : forall log c (out : result unit),
            out = Err EnvError -> c_reply c = None -> Forall answered log ->
            stops_when_env_raises out (log ++ [c]) /\
            (out = Ok tt -> length (log ++ [c]) = length (run_labels (N (self s))))).
  { intros log c out -> Hc Hlog. split; [| discriminate].
    right. exists log, c. auto. }
  apply (sat_run_in (fun _ => True)
    (fun rs log =>
       stops_when_env_raises rs.1 log /\
       (rs.1 = Ok tt -> length log = length (run_labels (N (self s))))));
    [| apply Forall_True].
  apply sat_run.
  { intros _. apply (Hquiet NoSuchObject); [reflexivity | discriminate | constructor]. }
  intros d0 _ ecology s1 c0.
  assert (A0 : forall v, Forall answered [c0 (Some v)]).
  { intros v. apply Forall_singleton. eexists. reflexivity. }
  split; [intros _; apply (Hraised []); [reflexivity .. | constructor] |].
  intros v _. split.
  { intros err Herr. apply getitem_Err_inv in Herr as ->.
    apply (Hquiet (KeyError v)); [reflexivity | discriminate | apply A0]. }
  intros theta _.
  split; [intros _; apply (Hquiet IndexError); [reflexivity | discriminate | apply A0] |].
  intros t0 ts _.
  set (rng := range 1 (N (self s))).
  assert (Hlabels : length (run_labels (N (self s))) = S (2 * length rng)).
  { unfold run_labels. cbn [length]. fold rng. rewrite length_step_labels.
    reflexivity. }
  apply (sat_mono _
    (fun rs log =>
       (forall err, rs.1 = Err err ->
          (err ≠ EnvError /\ Forall answered log) \/
          (err = EnvError /\ exists pre c, log = pre ++ [c] /\ Forall answered pre
                                           /\ c_reply c = None)) /\
       (forall t, rs.1 = Ok t -> Forall answered log /\
                                 length log = (2 * length rng)%nat))).
  { intros [[t | err] s'] log [Herr Hok]; cbn [fst snd unit_of] in *.
    - destruct (Hok t eq_refl) as [Hlog Hlen]. split.
      + left. split; [| discriminate]. apply Forall_cons. split; [| exact Hlog].
        eexists. reflexivity.
      + intros _. cbn [length]. rewrite Hlen, Hlabels. reflexivity.
    - destruct (Herr err eq_refl) as [[Hne Hlog] | (-> & pre & c & -> & Hpre & Hc)].
      + apply (Hquiet err); [reflexivity | exact Hne |].
        apply Forall_cons. split; [eexists; reflexivity | exact Hlog].
      + rewrite app_comm_cons. apply Hraised; [reflexivity | exact Hc |].
        apply Forall_cons. split; [eexists; reflexivity | exact Hpre]. }
  apply (sat_for_each _ _ _
    (fun k _ s' log =>
       Forall answered log /\ length log = (2 * k)%nat /\
       exists d, heap s' !! ecology = Some d)).
  - intros k i t s' log _ (Hlog & Hlen & d & Hd).
    assert (Hq : forall (err : exn) log', err ≠ EnvError -> Forall answered log' ->
              (forall err', @Err Q err = Err err' ->
                 (err' ≠ EnvError /\ Forall answered (log ++ log')) \/
                 (err' = EnvError /\
                  exists pre c, log ++ log' = pre ++ [c] /\ Forall answered pre
                                /\ c_reply c = None)) /\
              (forall t', @Err Q err = Ok t' ->
                 Forall answered (log ++ log') /\
                 length (log ++ log') = (2 * length rng)%nat)).
    { intros err log' Hne Hlog'. split; [| discriminate].
      intros err' [= <-]. left. split; [exact Hne |].
      apply Forall_app. auto. }
    assert (Hr : forall pre c, Forall answered pre -> c_reply c = None ->
              (forall err', @Err Q EnvError = Err err' ->
                 (err' ≠ EnvError /\ Forall answered (log ++ pre ++ [c])) \/
                 (err' = EnvError /\
                  exists pre' c', log ++ pre ++ [c] = pre' ++ [c']
                                  /\ Forall answered pre' /\ c_reply c' = None)) /\
              (forall t', @Err Q EnvError = Ok t' ->
                 Forall answered (log ++ pre ++ [c]) /\
                 length (log ++ pre ++ [c]) = (2 * length rng)%nat)).
    { intros pre c Hpre Hc. split; [| discriminate].
      intros err' [= <-]. right. split; [reflexivity |].
      exists (log ++ pre), c. rewrite app_assoc.
      split; [reflexivity |]. split; [apply Forall_app; auto | exact Hc]. }
    apply (sat_step _ _ _ _ _ _ d); [exact Hd | |].
    { intros err Herr. apply get_hazards_Err_inv in Herr as [key ->].
      apply Hq; [discriminate | constructor]. }
    intros hz x y _ Hx Hy c1 c2.
    assert (A1 : forall r, answered (c1 (Some r))) by (intros r; eexists; reflexivity).
    assert (A2 : forall r, answered (c2 (Some r))) by (intros r; eexists; reflexivity).
    split; [intros _; apply (Hr []); [constructor | reflexivity] |].
    intros ev _. split.
    { intros err Herr. apply getitem_Err_inv in Herr as ->.
      apply Hq; [discriminate | apply Forall_singleton, A1]. }
    intros row _.
    split; [intros _; apply (Hr [c1 (Some ev)]);
            [apply Forall_singleton, A1 | reflexivity] |].
    intros w _.
    assert (A12 : Forall answered [c1 (Some ev); c2 (Some w)]).
    { apply Forall_cons. split; [apply A1 | apply Forall_singleton, A2]. }
    destruct (add_time t w) as [t' | err] eqn:Hadd.
    2:{ destruct w; [| discriminate]. injection Hadd as <-.
        apply Hq; [discriminate | exact A12]. }
    unfold fire.
    destruct (row !! 0%nat) as [dx |]; [| apply Hq; [discriminate | exact A12]].
    destruct (row !! 1%nat) as [dy |]; cbn [fst snd];
      [| apply Hq; [discriminate | exact A12]].
    split; [apply Forall_app; auto |].
    split; [rewrite length_app, Hlen; cbn [length]; lia |].
    eexists. apply lookup_insert_eq.
  - intros t s' log (Hlog & Hlen & _). cbn [fst snd].
    split; [discriminate |]. intros t' _. auto.
  - split; [constructor |]. split; [reflexivity |].
    exists d0. apply lookup_insert_eq.
Qed.

(** X5.  A run never calls the environment again after a call to [env.bind]
    raised: either every call got a reply and the run did not end in an
    exception of the environment, or exactly the last call raised and the run
    ended in it.  A completed run bound, in this order and once each, the
    labels "theta", "event_1", "t_1", ..., "event_N-1", "t_N-1". *)
Theorem run_binds_labels_in_order {E : Type}
    (bind : string -> dist -> E -> option value * E) (s : store) (e : E) :
  stops_when_env_raises (outcome (run_in bind s e)) (calls (run_in bind s e)) /\
  (outcome (run_in bind s e) = Ok tt ->
   c_label <$> calls (run_in bind s e) = run_labels (N (self s))) /\
  NoDup (c_label <$> calls (run_in bind s e)).
Proof.
  destruct (run_calls_protocol bind s e) as [Hstop Hlen].
  split; [exact Hstop |]. split; [| apply run_log_NoDup].
  intros Hok. apply prefix_length_eq; [apply run_log_labels |].
  rewrite length_fmap, (Hlen Hok). reflexivity.
Qed.

(** ** A reply that is no hypothesis *)

Lemma interp_run_theta {E : Type} (bind : string -> dist -> E -> option value * E)
    s e d0 v err :
  heap s !! initial (self s) = Some d0 ->
  (bind "theta" (Discrete (hypothesis_prior (select_hyp (self s)))) e).1 = Some v ->
  getitem theta_hypotheses v = Err err ->
  run_in bind s e =
    (Err (KeyError v),
     mkStore (<[fresh (dom (heap s)) := d0]> (heap s)) (self s),
     [mkCall "theta" (Discrete (hypothesis_prior (select_hyp (self s)))) (Some v)]).
Proof.
  intros Hd0 Hv Herr. pose proof (getitem_Err_inv _ _ _ Herr) as ->.
  unfold run_in, run. cbn zeta.
  run_stmt (eq_refl : get_self s = Ret (Ok (self s), s)).
  assert (Hdc : deepcopy (initial (self s)) s =
                Ret (Ok (fresh (dom (heap s))),
                     mkStore (<[fresh (dom (heap s)) := d0]> (heap s)) (self s))).
  { unfold deepcopy. rewrite Hd0. reflexivity. }
  run_stmt Hdc. rewrite interp_env_bind_then, Hv. rewrite Herr.
  match goal with
  | |- context [bindM (lift (Err ?x)) ?f ?s1] =>
      rewrite (bindM_Ret (lift (Err x)) f s1 (Err x, s1) eq_refl)
  end.
  reflexivity.
Qed.

Lemma unknown_prior (hyp : string) :
  hyp ∉ ["none"; "H1"; "H2"; "H3"] ->
  hypothesis_prior hyp = [("H1", 0); ("H2", 0); ("H3", 0); (hyp, 1)]%Q /\
  getitem theta_hypotheses (VStr hyp) = Err (KeyError (VStr hyp)).
Proof.
  rewrite !not_elem_of_cons. intros (Hn & H1' & H2' & H3' & _).
  split.
  - unfold hypothesis_prior. destruct (decide (hyp ≠ "none")); [| contradiction].
    cbn [dict_set].
    destruct (decide ("H1" = hyp)); [congruence |].
    destruct (decide ("H2" = hyp)); [congruence |].
    destruct (decide ("H3" = hyp)); [congruence |]. reflexivity.
  - unfold getitem.
    assert (Hnone : theta_hypotheses !! hyp = None).
    { unfold theta_hypotheses. apply not_elem_of_list_to_map_1.
      cbn [fmap list_fmap fst]. rewrite !not_elem_of_cons. auto using not_elem_of_nil. }
    rewrite Hnone. reflexivity.
Qed.

(** X6.  A reply to "theta" that is not a key of [theta_hypotheses] ends the
    run with [KeyError] of that reply, after this one call and before any
    pass: nothing is recorded.  A [select_hyp] other than "none", "H1", "H2"
    and "H3" is not rejected by the constructor; it gives a prior of four keys
    with all the weight on [select_hyp] itself, which is no such key. *)
Theorem reply_outside_hypotheses_raises_KeyError {E : Type}
    (bind : string -> dist -> E -> option value * E) (s : store) (e : E)
    d0 v err :
  heap s !! initial (self s) = Some d0 ->
  (bind "theta" (Discrete (hypothesis_prior (select_hyp (self s)))) e).1 = Some v ->
  getitem theta_hypotheses v = Err err ->
  outcome (run_in bind s e) = Err (KeyError v) /\
  self (final_store (run_in bind s e)) = self s /\
  calls (run_in bind s e) =
    [mkCall "theta" (Discrete (hypothesis_prior (select_hyp (self s)))) (Some v)] /\
  (select_hyp (self s) ∉ ["none"; "H1"; "H2"; "H3"] ->
   hypothesis_prior (select_hyp (self s)) =
     [("H1", 0); ("H2", 0); ("H3", 0); (select_hyp (self s), 1)]%Q /\
   getitem theta_hypotheses (VStr (select_hyp (self s))) =
     Err (KeyError (VStr (select_hyp (self s))))).
Proof.
  intros Hd0 Hv Herr.
  rewrite (interp_run_theta bind s e d0 v err Hd0 Hv Herr). cbn [fst snd self].
  repeat (split; [reflexivity |]). apply unknown_prior.
Qed.

(** ** The hazards a run hands over *)

Lemma theta_hypotheses_positive v theta a b c :
  getitem theta_hypotheses v = Ok theta ->
  theta !! "spawn_prey" = Some a -> theta !! "prey2pred" = Some b ->
  theta !! "pred_dies" = Some c ->
  (0 < a /\ 0 < b /\ 0 < c)%Q.
Proof.
  intros Hth. apply getitem_Ok_inv in Hth as (k & _ & Hk).
  unfold theta_hypotheses in Hk. apply elem_of_list_to_map_2 in Hk.
  rewrite !elem_of_cons, elem_of_nil in Hk.
  destruct Hk as [[= _ ->] | [[= _ ->] | [[= _ ->] | []]]];
    vm_compute; intros [= <-] [= <-] [= <-]; repeat split.
Qed.

Lemma hazards_nonneg (a b c : Q) (x y : Z) :
  (0 < a)%Q -> (0 < b)%Q -> (0 < c)%Q -> 0 <= x -> 0 <= y ->
  (0 <= a * inject_Z x /\ 0 <= b * inject_Z x * inject_Z y /\
   0 <= c * inject_Z y)%Q.
Proof.
  intros Pa Pb Pc Px Py.
  pose proof (inject_Z_nonneg x Px) as Qx.
  pose proof (inject_Z_nonneg y Py) as Qy.
  repeat split.
  - apply Qmult_le_0_compat; [apply Qlt_le_weak, Pa | exact Qx].
  - apply Qmult_le_0_compat; [| exact Qy].
    apply Qmult_le_0_compat; [apply Qlt_le_weak, Pb | exact Qx].
  - apply Qmult_le_0_compat; [apply Qlt_le_weak, Pc | exact Qy].
Qed.

Lemma sum_three (p q r : Q) : (sum [p; q; r] == p + q + r)%Q.
Proof. unfold sum. cbn [fold_left]. ring. Qed.

Lemma hazard_calls_nonneg v theta d x y hz l1 l2 r1 r2 :
  getitem theta_hypotheses v = Ok theta ->
  get_hazards d theta = Ok hz ->
  d !! "prey" = Some x -> d !! "pred" = Some y -> 0 <= x -> 0 <= y ->
  nonneg_dist (mkCall l1 (Discrete hz) r1) /\
  nonneg_dist (mkCall l2 (Exponential (sum (dict_values hz))) r2).
Proof.
  intros Hth Hhz Hx Hy Px Py.
  destruct (get_hazards_Ok _ _ _ Hhz)
    as (a & b & c & x' & y' & Ha & Hb & Hc & Hx' & Hy' & ->).
  assert (x' = x) as -> by congruence. assert (y' = y) as -> by congruence.
  destruct (theta_hypotheses_positive _ _ _ _ _ Hth Ha Hb Hc) as (Pa & Pb & Pc).
  destruct (hazards_nonneg a b c x y Pa Pb Pc Px Py) as (H1' & H2' & H3').
  unfold nonneg_dist. cbn [c_dist]. split.
  - repeat (apply Forall_cons; split; [assumption |]). constructor.
  - cbn [dict_values fmap list_fmap snd]. rewrite sum_three.
    lra.
Qed.

Lemma dict_set_nonneg (k : string) (d : list (string * Q)) :
  Forall (fun kv => (0 <= kv.2)%Q) d ->
  Forall (fun kv => (0 <= kv.2)%Q) (dict_set k 1%Q d).
Proof.
  induction 1 as [| [k' v'] d Hv Hd IH]; cbn [dict_set].
  - apply Forall_singleton. discriminate.
  - destruct (decide (k' = k)); apply Forall_cons; split; auto. discriminate.
Qed.

Lemma prior_nonneg (hyp : string) l r :
  nonneg_dist (mkCall l (Discrete (hypothesis_prior hyp)) r).
Proof.
  unfold nonneg_dist, hypothesis_prior. cbn [c_dist].
  destruct (decide (hyp ≠ "none")).
  - apply dict_set_nonneg. repeat (apply Forall_cons; split; [discriminate |]).
    constructor.
  - repeat (apply Forall_cons; split; [discriminate |]). constructor.
Qed.

Lemma run_nonneg_dists {E : Type} (bind : string -> dist -> E -> option value * E)
    s e (g : Prop) :
  (g -> forall d x y, heap s !! initial (self s) = Some d ->
                      d !! "prey" = Some x -> d !! "pred" = Some y ->
                      0 <= x /\ 0 <= y) ->
  Forall nonneg_dist (drop 3 (calls (run_in bind s e))) /\
  (g -> Forall nonneg_dist (calls (run_in bind s e))).
Proof.
  intros Hg.
  apply (sat_run_in (fun _ => True)
    (fun _ log => Forall nonneg_dist (drop 3 log) /\ (g -> Forall nonneg_dist log)));
    [| apply Forall_True].
  apply sat_run; [intros _; split; [| intros _]; constructor |].
  intros d0 Hd0 ecology s1 c0.
  assert (H0 : forall r, Forall nonneg_dist (drop 3 [c0 r]) /\
                         (g -> Forall nonneg_dist [c0 r])).
  { intros r. split; [constructor |]. intros _.
    apply Forall_singleton, prior_nonneg. }
  split; [intros _; apply H0 |]. intros v _.
  split; [intros ? _; apply H0 |]. intros theta Hth.
  split; [intros _; apply H0 |]. intros t0 ts _.
  apply (sat_mono _
    (fun _ log => Forall nonneg_dist (drop 2 log) /\ (g -> Forall nonneg_dist log))).
  { intros _ log [H2 Hall]. split; [exact H2 |]. intros G.
    apply Forall_cons. split; [apply prior_nonneg | exact (Hall G)]. }
  apply (sat_for_each _ _ _
    (fun k _ s' log =>
       Forall nonneg_dist (drop 2 log) /\ (g -> Forall nonneg_dist log) /\
       length log = (2 * k)%nat /\
       exists d, heap s' !! ecology = Some d /\
         ((0 < k)%nat \/ g -> forall x y, d !! "prey" = Some x ->
                                         d !! "pred" = Some y -> 0 <= x /\ 0 <= y))).
  - intros k i t s' log _ (H2 & Hall & Hlen & d & Hd & Hpos).
    assert (Hext : forall log',
              (length log' <= 2)%nat ->
              ((0 < k)%nat \/ g -> Forall nonneg_dist log') ->
              Forall nonneg_dist (drop 2 (log ++ log')) /\
              (g -> Forall nonneg_dist (log ++ log'))).
    { intros log' Hl' Hn. split.
      - destruct k as [| k].
        + destruct log; [| discriminate Hlen]. cbn [app].
          rewrite drop_ge by exact Hl'. constructor.
        + rewrite drop_app_le by lia. apply Forall_app. split; [exact H2 |].
          apply Hn. left. lia.
      - intros G. apply Forall_app. split; [exact (Hall G) | apply Hn; right; exact G]. }
    apply (sat_step _ _ _ _ _ _ d); [exact Hd | |].
    { intros err _. apply (Hext []); [cbn; lia | constructor]. }
    intros hz x y Hhz Hx Hy c1 c2.
    assert (Hc : (0 < k)%nat \/ g -> forall r1 r2,
              nonneg_dist (c1 r1) /\ nonneg_dist (c2 r2)).
    { intros Hk r1 r2. destruct (Hpos Hk x y Hx Hy) as [Px Py].
      exact (hazard_calls_nonneg v theta d x y hz _ _ r1 r2 Hth Hhz Hx Hy Px Py). }
    assert (H1' : forall r, Forall nonneg_dist (drop 2 (log ++ [c1 r])) /\
                            (g -> Forall nonneg_dist (log ++ [c1 r]))).
    { intros r. apply Hext; [cbn; lia |]. intros Hk.
      apply Forall_singleton. exact (proj1 (Hc Hk r None)). }
    assert (H2' : forall r r', Forall nonneg_dist (drop 2 (log ++ [c1 r; c2 r'])) /\
                               (g -> Forall nonneg_dist (log ++ [c1 r; c2 r']))).
    { intros r r'. apply Hext; [cbn; lia |]. intros Hk.
      destruct (Hc Hk r r') as [N1 N2].
      apply Forall_cons. split; [exact N1 | apply Forall_singleton, N2]. }
    split; [intros _; apply H1' |]. intros ev _.
    split; [intros ? _; apply H1' |]. intros row _.
    split; [intros _; apply H2' |]. intros w _.
    destruct (add_time t w) as [t' | err]; [| apply H2'].
    unfold fire.
    destruct (row !! 0%nat) as [dx |]; [| apply H2'].
    destruct (row !! 1%nat) as [dy |]; cbn [fst snd]; [| apply H2'].
    destruct (H2' (Some ev) (Some w)) as [D2 Dall].
    split; [exact D2 |]. split; [exact Dall |].
    split; [rewrite length_app, Hlen; cbn [length]; lia |].
    eexists. split; [apply lookup_insert_eq |].
    intros _ x' y'.
    rewrite lookup_insert_ne by (symmetry; exact prey_ne_pred).
    rewrite !lookup_insert_eq. intros [= <-] [= <-]. unfold max0. lia.
  - intros t s' log (H2 & Hall & _). auto.
  - split; [constructor |]. split; [intros _; constructor |].
    split; [reflexivity |]. exists d0. split; [apply lookup_insert_eq |].
    intros [Hk | G] x y Hx Hy; [lia |]. exact (Hg G d0 x y Hd0 Hx Hy).
Qed.

(** X7.  Because the counts are clamped after every pass, every distribution
    handed to [env.bind] after the first pass has non-negative weights and a
    non-negative rate, whatever the initial counts; with non-negative initial
    counts this holds for every call of the run. *)
Theorem run_hands_over_nonnegative_hazards {E : Type}
    (bind : string -> dist -> E -> option value * E) (s : store) (e : E)
    d0 x0 y0 :
  heap s !! initial (self s) = Some d0 ->
  d0 !! "prey" = Some x0 -> d0 !! "pred" = Some y0 ->
  Forall nonneg_dist (drop 3 (calls (run_in bind s e))) /\
  (0 <= x0 -> 0 <= y0 -> Forall nonneg_dist (calls (run_in bind s e))).
Proof.
  intros Hd0 Hx0 Hy0.
  destruct (run_nonneg_dists bind s e (0 <= x0 /\ 0 <= y0)) as [H3' Hall].
  { intros G d x y Hd Hx Hy.
    assert (d = d0) as -> by congruence.
    assert (x = x0) as -> by congruence. assert (y = y0) as -> by congruence.
    exact G. }
  split; [exact H3' |]. intros Px Py. apply Hall. split; assumption.
Qed.

(** ** The hazards of the notebook's rates *)

Lemma Zdigits2_mul (a b : Z) :
  0 <= a -> 0 <= b -> Zdigits2 (a * b) <= Zdigits2 a + Zdigits2 b.
Proof.
  intros Ha Hb.
  pose proof (Zdigits2_gt a Ha). pose proof (Zdigits2_gt b Hb).
  pose proof (Zdigits2_nonneg a). pose proof (Zdigits2_nonneg b).
  apply Zdigits2_bound; [nia | lia |].
  rewrite Z.pow_add_r by lia. nia.
Qed.

(** A rounded finite value has a mantissa of 53 bits at most and an exponent
    of 971 at most. *)
Lemma binary_round_aux_bounded (s s' : bool) (m e : Z) (l : location)
    (m' : positive) (e' : Z) :
  0 <= m ->
  binary_round_aux prec emax s m e l = S754_finite s' m' e' ->
  Zdigits2 (Z.pos m') <= prec /\ e' <= emax - prec.
Proof.
  intros Hm. unfold binary_round_aux.
  destruct (shr_fexp_bound m e l Hm) as (N1 & _ & _).
  destruct (shr_fexp prec emax m e l) as [mrs1 e1]. cbn [fst snd] in N1.
  set (mr := round_nearest_even (shr_m mrs1) (loc_of_shr_record mrs1)).
  assert (Nr : 0 <= mr) by (apply round_nearest_even_nonneg, N1).
  destruct (shr_fexp_bound mr e1 loc_Exact Nr) as (N2 & E2 & D2).
  destruct (shr_fexp prec emax mr e1 loc_Exact) as [mrs2 e2].
  cbn [fst snd] in N2, E2, D2.
  destruct (shr_m mrs2) as [| q | q] eqn:Hq; [discriminate | | discriminate].
  destruct (e2 <=? emax - prec) eqn:Hle; [| discriminate].
  intros [= _ <- <-]. apply Z.leb_le in Hle. split; [| exact Hle].
  destruct D2 as [D2 | D2]; [discriminate D2 |].
  unfold fexp, SpecFloat.emin, prec, emax in *. lia.
Qed.

Lemma float_of_int_bounded (z : Z) (s : bool) (m : positive) (e : Z) :
  float_of_int z = Value (S754_finite s m e) ->
  Zdigits2 (Z.pos m) <= prec /\ e <= emax - prec.
Proof.
  unfold float_of_int, binary_normalize, binary_round.
  destruct z as [| p | p]; [discriminate | |];
    destruct (shl_align _ _ _) as [mz ez];
    match goal with
    | |- context [binary_round_aux ?a ?b ?c ?d ?e ?f] =>
        destruct (binary_round_aux a b c d e f) as [| | | s0 m0 e0] eqn:Hr;
          try discriminate
    end;
    intros [= -> -> ->];
    exact (binary_round_aux_bounded _ s (Z.pos mz) ez loc_Exact m e
             (Pos2Z.is_nonneg mz) Hr).
Qed.

(** Such a rate times a count does not overflow. *)
Lemma small_rate_times_count (r : num) (z : Z) (q : num) :
  small_rate r -> 0 <= z -> py_mul r (Int z) = Value q ->
  q <> Float (S754_infinity false).
Proof.
  intros Hr Hz. destruct r as [k | f]; [contradiction |].
  destruct f as [| | | [] m e]; try contradiction. destruct Hr as [Dm He].
  cbn [py_mul].
  destruct (float_of_int z) as [g |] eqn:Hg; [| discriminate].
  cbn [and_then]. intros [= <-].
  destruct (float_of_int_nonneg z g Hz Hg) as [-> | (mg & eg & ->)];
    [discriminate |].
  destruct (float_of_int_bounded z false mg eg Hg) as [Dg Eg].
  cbn [SFmul xorb].
  pose proof (Zdigits2_mul (Z.pos m) (Z.pos mg) ltac:(lia) ltac:(lia)) as Dmul.
  assert (Hfin : binary_round_aux prec emax false (Z.pos (m * mg)) (e + eg)
                   loc_Exact = S754_zero false \/
                 exists m' e', binary_round_aux prec emax false (Z.pos (m * mg))
                                 (e + eg) loc_Exact = S754_finite false m' e').
  { apply binary_round_aux_finite; unfold emax, prec in *; [lia | lia |].
    rewrite Pos2Z.inj_mul. lia. }
  destruct Hfin as [-> | (m' & e' & ->)]; discriminate.
Qed.

Lemma notebook_rates (theta : gmap string num) :
  theta ∈ [Py.H1; Py.H2; Py.H3] ->
  exists a b c,
    theta !! "spawn_prey" = Some a /\ theta !! "prey2pred" = Some b /\
    theta !! "pred_dies" = Some c /\
    positive_rate a /\ positive_rate b /\ positive_rate c /\ small_rate b.
Proof.
  rewrite !elem_of_cons, elem_of_nil.
  intros [-> | [-> | [-> | []]]]; eexists _, _, _;
    (split; [vm_compute; reflexivity |]); (split; [vm_compute; reflexivity |]);
    (split; [vm_compute; reflexivity |]);
    (split; [first [exact I | reflexivity] |]); (split; [exact I |]);
    (split; [exact I |]); vm_compute; split; discriminate.
Qed.

(** X13.  For the three rate sets of the notebook and counts that are not
    negative, every hazard [get_hazards] returns in Python's arithmetic is
    [>= 0], never NaN; with no prey the hazards of spawn_prey and prey2pred
    are zero, and with no predators those of prey2pred and pred_dies are. *)
Theorem notebook_hazards_are_nonneg (ecology : gmap string Z)
    (theta : gmap string num) (x y : Z) hz :
  theta ∈ [Py.H1; Py.H2; Py.H3] ->
  ecology !! "prey" = Some x -> ecology !! "pred" = Some y ->
  0 <= x -> 0 <= y ->
  Py.get_hazards ecology theta = Value hz ->
  exists h1 h2 h3,
    hz = [("spawn_prey", h1); ("prey2pred", h2); ("pred_dies", h3)] /\
    py_nonneg h1 = true /\ py_nonneg h2 = true /\ py_nonneg h3 = true /\
    (x = 0 -> py_is_zero h1 = true /\ py_is_zero h2 = true) /\
    (y = 0 -> py_is_zero h2 = true /\ py_is_zero h3 = true).
Proof.
  intros Hth Hx Hy Px Py Hhz.
  destruct (notebook_rates theta Hth)
    as (a & b & c & Ha & Hb & Hc & Pa & Pb & Pc & Sb).
  unfold Py.get_hazards in Hhz.
  rewrite (item_Some _ _ _ Ha), (item_Some _ _ _ Hb), (item_Some _ _ _ Hc),
    (item_Some _ _ _ Hx), (item_Some _ _ _ Hy) in Hhz.
  cbn [and_then] in Hhz.
  apply and_then_Value in Hhz as (h1 & E1 & Hhz).
  apply and_then_Value in Hhz as (q & E2 & Hhz).
  apply and_then_Value in Hhz as (h2 & E3 & Hhz).
  apply and_then_Value in Hhz as (h3 & E4 & [= <-]).
  exists h1, h2, h3.
  destruct (py_mul_rate_count a x h1 Pa Px E1) as [N1 Z1].
  destruct (py_mul_rate_count b x q Pb Px E2) as [Nq Zq].
  destruct (py_mul_rate_count c y h3 Pc Py E4) as [N3 Z3].
  pose proof (small_rate_times_count b x q Sb Px E2) as Hfin.
  destruct (py_mul_product_count q y h2 Nq Hfin Py E3) as (N2 & Zz & Z2).
  split; [reflexivity |].
  split; [exact (py_nonneg_of _ N1) |].
  split; [exact (py_nonneg_of _ N2) |].
  split; [exact (py_nonneg_of _ N3) |].
  split.
  - intros X0. split; [exact (py_is_zero_of _ (Z1 X0)) |].
    exact (py_is_zero_of _ (Zz (Zq X0))).
  - intros Y0. split; [exact (py_is_zero_of _ (Z2 Y0)) |].
    exact (py_is_zero_of _ (Z3 Y0)).
Qed.

(** X8.  [get_hazards] raises nothing on counts below [2^1023] in magnitude:
    with the three rates and the two counts in their dictionaries it returns
    a mapping.  (Beyond the range of the floats the conversion of a count
    raises OverflowError.) *)
Theorem get_hazards_returns_in_float_range (ecology : gmap string Z)
    (theta : gmap string num) (a b c : num) (x y : Z) :
  theta !! "spawn_prey" = Some a ->
  theta !! "prey2pred" = Some b ->
  theta !! "pred_dies" = Some c ->
  ecology !! "prey" = Some x -> ecology !! "pred" = Some y ->
  Z.abs x < 2 ^ 1023 -> Z.abs y < 2 ^ 1023 ->
  exists h1 h2 h3,
    Py.get_hazards ecology theta =
      Value [("spawn_prey", h1); ("prey2pred", h2); ("pred_dies", h3)].
Proof.
  intros Ha Hb Hc Hx Hy Rx Ry. unfold Py.get_hazards.
  rewrite (item_Some _ _ _ Ha), (item_Some _ _ _ Hb), (item_Some _ _ _ Hc),
    (item_Some _ _ _ Hx), (item_Some _ _ _ Hy).
  cbn [and_then].
  destruct (py_mul_in_range a x Rx) as [h1 ->]. cbn [and_then].
  destruct (py_mul_in_range b x Rx) as [q ->]. cbn [and_then].
  destruct (py_mul_in_range q y Ry) as [h2 ->]. cbn [and_then].
  destruct (py_mul_in_range c y Ry) as [h3 ->]. cbn [and_then].
  eauto.
Qed.

(** ** The evidence of the notebook *)

Lemma evidence_of_lookup (m : gmap string value) (l : string) :
  evidence_of m !! l = if occurs_in l "theta" then None else m !! l.
Proof.
  unfold evidence_of. destruct (occurs_in l "theta") eqn:Ho.
  - apply map_lookup_filter_None_2. right. intros v _ Hv.
    cbn [fst] in Hv. congruence.
  - destruct (m !! l) as [v |] eqn:Hm.
    + apply map_lookup_filter_Some_2; [exact Hm | exact Ho].
    + apply map_lookup_filter_None_2. left. exact Hm.
Qed.

Lemma trace_of_lookup_Some (log : list call) (l : string) (v : value) :
  trace_of log !! l = Some v -> l ∈ c_label <$> log.
Proof.
  induction log as [| c log IH].
  { change (trace_of []) with (∅ : gmap string value).
    rewrite lookup_empty. discriminate. }
  rewrite trace_of_cons. cbn [fmap list_fmap]. rewrite elem_of_cons.
  destruct (c_reply c) as [v' |]; [| auto].
  destruct (decide (c_label c = l)) as [-> | Hne]; [auto |].
  rewrite lookup_insert_ne by exact Hne. auto.
Qed.

Lemma run_labels_cases (n : Z) (l : string) :
  l ∈ run_labels n ->
  l = "theta" \/
  exists i : Z, l = "event_" +:+ pretty i \/ l = "t_" +:+ pretty i.
Proof.
  unfold run_labels. rewrite elem_of_cons. intros [-> | Hin]; [auto |].
  right. apply list_elem_of_bind in Hin as (i & Hi & _). exists i.
  unfold step_labels in Hi. rewrite !elem_of_cons, elem_of_nil in Hi.
  destruct Hi as [-> | [-> | []]]; auto.
Qed.

Lemma pass_labels_not_in_theta (i : Z) :
  occurs_in ("event_" +:+ pretty i) "theta" = false /\
  occurs_in ("t_" +:+ pretty i) "theta" = false.
Proof. split; reflexivity. Qed.

Lemma run_log_label_in {E : Type} (bind : string -> dist -> E -> option value * E)
    s e l :
  l ∈ c_label <$> calls (run_in bind s e) -> l ∈ run_labels (N (self s)).
Proof.
  intros Hin. destruct (run_log_labels bind s e) as [k Hk]. rewrite Hk.
  apply elem_of_app. auto.
Qed.

Lemma run_label_not_in_theta (n : Z) (l : string) :
  l ∈ run_labels n -> l ≠ "theta" -> occurs_in l "theta" = false.
Proof.
  intros Hin Hne. apply run_labels_cases in Hin.
  destruct Hin as [-> | [i [-> | ->]]]; [contradiction | |].
  - exact (proj1 (pass_labels_not_in_theta i)).
  - exact (proj2 (pass_labels_not_in_theta i)).
Qed.

(** X9.  The evidence the notebook takes from the trace of a run is that
    trace without the hypothesis: its filter keeps a label unless the label
    occurs in the string 'theta', which among the labels of a run is true of
    "theta" alone, so every "event_i" and "t_i" stays with its value. *)
Theorem evidence_is_trace_without_theta {E : Type}
    (bind : string -> dist -> E -> option value * E) (s : store) (e : E) :
  evidence_of (trace_of (calls (run_in bind s e))) =
    delete "theta" (trace_of (calls (run_in bind s e))) /\
  forall (trace_value : gmap string value) (l : string),
    evidence_of trace_value !! l =
      if occurs_in l "theta" then None else trace_value !! l.
Proof.
  split; [| apply evidence_of_lookup].
  apply map_eq. intros l. rewrite evidence_of_lookup.
  destruct (decide (l = "theta")) as [-> | Hne].
  - rewrite lookup_delete_eq. reflexivity.
  - rewrite lookup_delete_ne by congruence.
    destruct (trace_of (calls (run_in bind s e)) !! l) as [v |] eqn:Hl;
      [| destruct (occurs_in l "theta"); reflexivity].
    apply trace_of_lookup_Some, run_log_label_in in Hl.
    rewrite (run_label_not_in_theta _ _ Hl Hne). reflexivity.
Qed.


(** ** Two runs side by side *)

Lemma interp_pbind {E X Y : Type} (bind : string -> dist -> E -> option value * E)
    (p : prog X) (f : X -> prog Y) (e : E) :
  interp bind (pbind p f) e =
  ((interp bind (f (interp bind p e).1.1) (interp bind p e).1.2).1,
   (interp bind p e).2 ++
   (interp bind (f (interp bind p e).1.1) (interp bind p e).1.2).2).
Proof.
  revert e. induction p as [x | l d k IH]; intros e.
  - cbn [pbind interp fst snd app].
    destruct (interp bind (f x) e) as [[y e'] log]. reflexivity.
  - cbn [pbind interp fst snd]. rewrite IH. cbn [fst snd].
    destruct (interp bind (f _) _) as [[y e'] log]. reflexivity.
Qed.

Lemma sim_interp_forced {E1 E2 X1 X2 : Type} (R : X1 -> X2 -> Prop)
    (bind1 : string -> dist -> E1 -> option value * E1)
    (bind2 : string -> dist -> E2 -> option value * E2)
    (evidence : gmap string value) (p1 : prog X1) (p2 : prog X2) (e1 : E1) (e2 : E2) :
  sim R p1 p2 ->
  forces evidence bind2 ->
  Forall (fun c => exists v, c_reply c = Some v /\ evidence !! c_label c = Some v)
         (interp bind1 p1 e1).2 ->
  R (interp bind1 p1 e1).1.1 (interp bind2 p2 e2).1.1 /\
  c_label <$> (interp bind2 p2 e2).2 = c_label <$> (interp bind1 p1 e1).2 /\
  c_reply <$> (interp bind2 p2 e2).2 = c_reply <$> (interp bind1 p1 e1).2.
Proof.
  intros Hsim Hforce. revert p2 e1 e2 Hsim.
  induction p1 as [x1 | l1 d1 k1 IH]; intros [x2 | l2 d2 k2] e1 e2 Hsim Hev;
    cbn [sim] in Hsim; try contradiction.
  - auto.
  - destruct Hsim as [<- Hsim]. cbn [interp fst snd] in *.
    apply Forall_cons in Hev as [(v & Hv & Hl) Hev]. cbn [c_reply c_label] in *.
    rewrite (Hforce l1 d2 e2 v Hl). rewrite Hv in *.
    destruct (IH _ _ (bind1 l1 d1 e1).2 (bind2 l1 d2 e2).2 (Hsim (Some v)) Hev)
      as (HR & Hlab & Hrep).
    cbn [fmap list_fmap c_label c_reply]. rewrite Hlab, Hrep. auto.
Qed.

Lemma sim_bindM {B1 B2 C1 C2 : Type}
    (Rm : result B1 * store -> result B2 * store -> Prop)
    (R : result C1 * store -> result C2 * store -> Prop)
    (m1 : M B1) (m2 : M B2) (f1 : B1 -> M C1) (f2 : B2 -> M C2) s1 s2 :
  sim Rm (m1 s1) (m2 s2) ->
  (forall r1 s1' r2 s2', Rm (r1, s1') (r2, s2') ->
     match r1, r2 with
     | Ok a1, Ok a2 => sim R (f1 a1 s1') (f2 a2 s2')
     | Err e1, Err e2 => R (Err e1, s1') (Err e2, s2')
     | _, _ => False
     end) ->
  sim R (bindM m1 f1 s1) (bindM m2 f2 s2).
Proof.
  intros Hm Hf. unfold bindM.
  generalize dependent (m2 s2). induction (m1 s1) as [[r1 s1'] | l1 d1 k1 IH];
    intros [[r2 s2'] | l2 d2 k2] Hm; cbn [sim] in Hm; try contradiction.
  - cbn [pbind fst snd]. specialize (Hf r1 s1' r2 s2' Hm).
    destruct r1, r2; try contradiction; exact Hf.
  - destruct Hm as [<- Hm]. cbn [pbind sim]. split; [reflexivity |].
    intros r. apply IH, Hm.
Qed.

Lemma sim_env_bind {R : result value * store -> result value * store -> Prop}
    (l : string) (d1 d2 : dist) s1 s2 :
  (forall v, R (Ok v, s1) (Ok v, s2)) ->
  R (Err EnvError, s1) (Err EnvError, s2) ->
  sim R (env_bind l d1 s1) (env_bind l d2 s2).
Proof.
  intros Hv Hn. unfold env_bind. cbn [sim]. split; [reflexivity |].
  intros [v |]; cbn [sim]; auto.
Qed.

Lemma sim_mono {X1 X2 : Type} (R R' : X1 -> X2 -> Prop) (p1 : prog X1) (p2 : prog X2) :
  (forall x1 x2, R x1 x2 -> R' x1 x2) -> sim R p1 p2 -> sim R' p1 p2.
Proof.
  intros HR. revert p2. induction p1 as [x1 | l1 d1 k1 IH];
    intros [x2 | l2 d2 k2] Hsim; cbn [sim] in *; try contradiction.
  - apply HR, Hsim.
  - destruct Hsim as [Hl Hk]. split; [exact Hl |]. intros r. apply IH, Hk.
Qed.

Lemma theta_has_rates v theta :
  getitem theta_hypotheses v = Ok theta ->
  exists a b c,
    theta !! "spawn_prey" = Some a /\ theta !! "prey2pred" = Some b /\
    theta !! "pred_dies" = Some c.
Proof.
  intros Hth. apply getitem_Ok_inv in Hth as (k & _ & Hk).
  unfold theta_hypotheses in Hk. apply elem_of_list_to_map_2 in Hk.
  rewrite !elem_of_cons, elem_of_nil in Hk.
  destruct Hk as [[= _ ->] | [[= _ ->] | [[= _ ->] | []]]];
    eexists _, _, _; repeat split; vm_compute; reflexivity.
Qed.

Lemma get_hazards_by_counts d theta a b c :
  theta !! "spawn_prey" = Some a -> theta !! "prey2pred" = Some b ->
  theta !! "pred_dies" = Some c ->
  get_hazards d theta =
  match d !! "prey" with
  | None => Err (KeyError (VStr "prey"))
  | Some x =>
      match d !! "pred" with
      | None => Err (KeyError (VStr "pred"))
      | Some y =>
          Ok [ ("spawn_prey", a * inject_Z x);
               ("prey2pred", b * inject_Z x * inject_Z y);
               ("pred_dies", c * inject_Z y) ]%Q
      end
  end.
Proof.
  intros Ha Hb Hc. unfold get_hazards.
  rewrite (getitem_Some _ _ _ Ha), (getitem_Some _ _ _ Hb), (getitem_Some _ _ _ Hc).
  unfold getitem.
  destruct (d !! "prey"); [| reflexivity]. destruct (d !! "pred"); reflexivity.
Qed.

Lemma fire_alike ecology row t' d x y s1 s2 :
  same_but_hyp s1 s2 ->
  ends_alike (fire ecology row t' d x y s1) (fire ecology row t' d x y s2) /\
  (forall a, (fire ecology row t' d x y s1).1 = Ok a ->
             is_Some (heap (fire ecology row t' d x y s1).2 !! ecology)).
Proof.
  intros (Hh & Htr & Hi & Ht & Htj & Hn). unfold fire, ends_alike, same_but_hyp.
  destruct (row !! 0%nat) as [dx |].
  2:{ split; [| discriminate]. cbn [fst snd]. repeat split; assumption. }
  destruct (row !! 1%nat) as [dy |];
    cbn [fst snd heap self transitions initial times trajectory N].
  2:{ split; [| discriminate]. rewrite Hh. repeat split; assumption. }
  split.
  - rewrite Hh, Htr, Hi, Ht, Htj, Hn. repeat split.
  - intros _ _. rewrite lookup_insert_eq. eexists. reflexivity.
Qed.

Lemma sim_step theta1 theta2 v1 v2 ecology i t s1 s2 d :
  getitem theta_hypotheses v1 = Ok theta1 ->
  getitem theta_hypotheses v2 = Ok theta2 ->
  same_but_hyp s1 s2 ->
  heap s1 !! ecology = Some d ->
  sim (fun rs1 rs2 =>
         ends_alike rs1 rs2 /\
         (forall a, rs1.1 = Ok a -> is_Some (heap rs1.2 !! ecology)))
      (step ecology theta1 i t s1) (step ecology theta2 i t s2).
Proof.
  intros Hth1 Hth2 Hsame Hd1.
  assert (Hd2 : heap s2 !! ecology = Some d).
  { destruct Hsame as [<- _]. exact Hd1. }
  assert (Htr : transitions (self s1) = transitions (self s2)) by apply Hsame.
  assert (Halike : forall (err : exn),
            ends_alike (@Err Q err, s1) (@Err Q err, s2) /\
            (forall a, (@Err Q err, s1).1 = Ok a -> is_Some (heap s1 !! ecology))).
  { intros err. split; [split; [reflexivity | exact Hsame] | discriminate]. }
  destruct (theta_has_rates _ _ Hth1) as (a1 & b1 & c1 & Ha1 & Hb1 & Hc1).
  destruct (theta_has_rates _ _ Hth2) as (a2 & b2 & c2 & Ha2 & Hb2 & Hc2).
  unfold step.
  run_stmt (read_dict_eq _ _ _ Hd1). run_stmt (read_dict_eq _ _ _ Hd2).
  rewrite (get_hazards_by_counts d theta1 a1 b1 c1 Ha1 Hb1 Hc1).
  rewrite (get_hazards_by_counts d theta2 a2 b2 c2 Ha2 Hb2 Hc2).
  destruct (d !! "prey") as [x |] eqn:Hx.
  2:{ run_stmt (eq_refl : lift (Err (KeyError (VStr "prey"))) s1 = Ret (Err _, s1)).
      run_stmt (eq_refl : lift (Err (KeyError (VStr "prey"))) s2 = Ret (Err _, s2)).
      apply Halike. }
  destruct (d !! "pred") as [y |] eqn:Hy.
  2:{ run_stmt (eq_refl : lift (Err (KeyError (VStr "pred"))) s1 = Ret (Err _, s1)).
      run_stmt (eq_refl : lift (Err (KeyError (VStr "pred"))) s2 = Ret (Err _, s2)).
      apply Halike. }
  match goal with
  | |- sim _ (bindM (lift (Ok ?h1)) _ _) (bindM (lift (Ok ?h2)) _ _) =>
      run_stmt (eq_refl : lift (Ok h1) s1 = Ret (Ok h1, s1));
      run_stmt (eq_refl : lift (Ok h2) s2 = Ret (Ok h2, s2))
  end.
  run_stmt (eq_refl : get_self s1 = Ret (Ok (self s1), s1)).
  run_stmt (eq_refl : get_self s2 = Ret (Ok (self s2), s2)).
  apply (sim_bindM (fun rs1 rs2 => rs1.1 = rs2.1 /\ rs1.2 = s1 /\ rs2.2 = s2)).
  { apply sim_env_bind; cbn [fst snd]; auto. }
  intros r1 s1' r2 s2' (Hr & Hs1 & Hs2). cbn [fst snd] in Hr, Hs1, Hs2. subst.
  destruct r2 as [ev | err]; [| apply Halike].
  rewrite <- Htr.
  destruct (getitem (transitions (self s1)) ev) as [row | err].
  2:{ run_stmt (eq_refl : lift (Err err) s1 = Ret (Err err, s1)).
      run_stmt (eq_refl : lift (Err err) s2 = Ret (Err err, s2)).
      apply Halike. }
  run_stmt (eq_refl : lift (Ok row) s1 = Ret (Ok row, s1)).
  run_stmt (eq_refl : lift (Ok row) s2 = Ret (Ok row, s2)).
  apply (sim_bindM (fun rs1 rs2 => rs1.1 = rs2.1 /\ rs1.2 = s1 /\ rs2.2 = s2)).
  { apply sim_env_bind; cbn [fst snd]; auto. }
  intros r1 s1' r2 s2' (Hr & Hs1 & Hs2). cbn [fst snd] in Hr, Hs1, Hs2. subst.
  destruct r2 as [w | err]; [| apply Halike].
  destruct (add_time t w) as [t' | err].
  2:{ run_stmt (eq_refl : lift (Err err) s1 = Ret (Err err, s1)).
      run_stmt (eq_refl : lift (Err err) s2 = Ret (Err err, s2)).
      apply Halike. }
  run_stmt (eq_refl : lift (Ok t') s1 = Ret (Ok t', s1)).
  run_stmt (eq_refl : lift (Ok t') s2 = Ret (Ok t', s2)).
  rewrite (step_tail_eq _ _ _ s1 _ _ _ Hd1 Hx Hy).
  rewrite (step_tail_eq _ _ _ s2 _ _ _ Hd2 Hx Hy).
  cbn [sim]. apply fire_alike, Hsame.
Qed.

Lemma sim_for_each theta1 theta2 v1 v2 ecology (rng : list Z) t s1 s2 :
  getitem theta_hypotheses v1 = Ok theta1 ->
  getitem theta_hypotheses v2 = Ok theta2 ->
  same_but_hyp s1 s2 ->
  is_Some (heap s1 !! ecology) ->
  sim ends_alike
      (for_each rng (step ecology theta1) t s1)
      (for_each rng (step ecology theta2) t s2).
Proof.
  intros Hth1 Hth2. revert t s1 s2.
  induction rng as [| i rng IH]; intros t s1 s2 Hsame [d Hd].
  - cbn [for_each sim]. split; [reflexivity | exact Hsame].
  - cbn [for_each].
    eapply sim_bindM; [exact (sim_step _ _ _ _ _ i t _ _ _ Hth1 Hth2 Hsame Hd) |].
    intros r1 s1' r2 s2' [[Hr Hs] Hheap]. cbn [fst snd] in Hr, Hs, Hheap. subst r2.
    destruct r1 as [t' | err].
    + apply IH; [exact Hs | exact (Hheap t' eq_refl)].
    + split; [reflexivity | exact Hs].
Qed.

Lemma run_in_after_theta {E : Type} (bind : string -> dist -> E -> option value * E)
    s e d0 v theta t0 ts :
  heap s !! initial (self s) = Some d0 ->
  (bind "theta" (Discrete (hypothesis_prior (select_hyp (self s)))) e).1 = Some v ->
  getitem theta_hypotheses v = Ok theta ->
  times (self s) = t0 :: ts ->
  run_in bind s e =
    let ecology := fresh (dom (heap s)) in
    let loop :=
      interp bind
        (for_each (range 1 (N (self s))) (step ecology theta) t0
           (mkStore (<[ecology := d0]> (heap s)) (self s)))
        (bind "theta" (Discrete (hypothesis_prior (select_hyp (self s)))) e).2 in
    (unit_of loop.1.1.1, loop.1.1.2,
     mkCall "theta" (Discrete (hypothesis_prior (select_hyp (self s)))) (Some v)
     :: loop.2).
Proof.
  intros Hd0 Hv Hth Hts. unfold run_in, run. cbn zeta.
  run_stmt (eq_refl : get_self s = Ret (Ok (self s), s)).
  assert (Hdc : deepcopy (initial (self s)) s =
                Ret (Ok (fresh (dom (heap s))),
                     mkStore (<[fresh (dom (heap s)) := d0]> (heap s)) (self s))).
  { unfold deepcopy. rewrite Hd0. reflexivity. }
  run_stmt Hdc. rewrite interp_env_bind_then, Hv. rewrite Hth, Hts.
  set (s1 := mkStore _ _).
  run_stmt (eq_refl : lift (Ok theta) s1 = Ret (Ok theta, s1)).
  run_stmt (eq_refl : lift (Ok t0) s1 = Ret (Ok t0, s1)).
  unfold bindM. rewrite interp_pbind.
  destruct (interp bind (for_each _ _ _ _) _) as [[[[t' | err] s'] e'] log];
    cbn [fst snd interp unit_of]; rewrite app_nil_r; reflexivity.
Qed.

(** X10.  The trajectory of a run does not depend on the hypothesis drawn.
    Take a run in which every call got a reply, and a second simulator built
    from the same arguments except possibly [select_hyp], run in an
    environment that forces the notebook's evidence of the first run; when
    both replies to "theta" are keys of [theta_hypotheses], however they
    differ, the second run ends like the first: same outcome, times,
    trajectories and working copy, with the same replies to every "event_i"
    and "t_i". *)
Theorem trajectory_does_not_depend_on_hypothesis {E1 E2 : Type}
    (bind1 : string -> dist -> E1 -> option value * E1) (e1 : E1)
    (bind2 : string -> dist -> E2 -> option value * E2) (e2 : E2)
    tr l n hyp1 hyp2 t0 (h : gmap loc (gmap string Z)) o1 o2
    v1 v2 theta1 theta2 :
  __init__ tr l n hyp1 t0 h = Ok o1 ->
  __init__ tr l n hyp2 t0 h = Ok o2 ->
  (bind1 "theta" (Discrete (hypothesis_prior hyp1)) e1).1 = Some v1 ->
  getitem theta_hypotheses v1 = Ok theta1 ->
  (bind2 "theta" (Discrete (hypothesis_prior hyp2)) e2).1 = Some v2 ->
  getitem theta_hypotheses v2 = Ok theta2 ->
  Forall (fun c => is_Some (c_reply c)) (calls (run_in bind1 (mkStore h o1) e1)) ->
  forces (evidence_of (trace_of (calls (run_in bind1 (mkStore h o1) e1)))) bind2 ->
  outcome (run_in bind2 (mkStore h o2) e2) =
    outcome (run_in bind1 (mkStore h o1) e1) /\
  times (self (final_store (run_in bind2 (mkStore h o2) e2))) =
    times (self (final_store (run_in bind1 (mkStore h o1) e1))) /\
  trajectory (self (final_store (run_in bind2 (mkStore h o2) e2))) =
    trajectory (self (final_store (run_in bind1 (mkStore h o1) e1))) /\
  heap (final_store (run_in bind2 (mkStore h o2) e2)) =
    heap (final_store (run_in bind1 (mkStore h o1) e1)) /\
  c_label <$> calls (run_in bind2 (mkStore h o2) e2) =
    c_label <$> calls (run_in bind1 (mkStore h o1) e1) /\
  c_reply <$> drop 1 (calls (run_in bind2 (mkStore h o2) e2)) =
    c_reply <$> drop 1 (calls (run_in bind1 (mkStore h o1) e1)).
Proof.
  intros Hi1 Hi2 Hv1 Hth1 Hv2 Hth2 Hsome Hforce.
  destruct (init_initial _ _ _ _ _ _ _ Hi1)
    as (Hl1 & Htr1 & Hh1 & Hn1 & Ht1 & d & x & y & Hd & Hx & Hy & Htj1).
  destruct (init_initial _ _ _ _ _ _ _ Hi2)
    as (Hl2 & Htr2 & Hh2 & Hn2 & Ht2 & d' & x' & y' & Hd' & Hx' & Hy' & Htj2).
  assert (d' = d) as -> by congruence.
  assert (x' = x) as -> by congruence. assert (y' = y) as -> by congruence.
  pose proof (trace_of_lookup _ (run_log_NoDup bind1 (mkStore h o1) e1) Hsome) as Hev.
  pose proof (run_log_NoDup bind1 (mkStore h o1) e1) as Hnd.
  pose proof (run_log_label_in bind1 (mkStore h o1) e1) as Hin.
  set (ev := evidence_of (trace_of (calls (run_in bind1 (mkStore h o1) e1)))) in *.
  assert (Hevl : forall lab w,
            trace_of (calls (run_in bind1 (mkStore h o1) e1)) !! lab = Some w ->
            lab ≠ "theta" -> ev !! lab = Some w).
  { intros lab w Hlab Hne. unfold ev. rewrite evidence_of_lookup.
    rewrite (run_label_not_in_theta (N (self (mkStore h o1))) lab); [exact Hlab | | exact Hne].
    apply Hin. eapply trace_of_lookup_Some, Hlab. }
  clearbody ev.
  rewrite (run_in_after_theta bind1 (mkStore h o1) e1 d v1 theta1 t0 [])
    in Hev, Hnd, Hevl |- *;
    cbn [heap self]; try (rewrite ?Hl1, ?Hh1; assumption).
  rewrite (run_in_after_theta bind2 (mkStore h o2) e2 d v2 theta2 t0 []);
    cbn [heap self]; try (rewrite ?Hl2, ?Hh2; assumption).
  cbn zeta in *. cbn [heap self fst snd drop fmap list_fmap c_label] in *.
  rewrite Hn1, Hn2, Hh1, Hh2 in *.
  set (ecology := fresh (dom h)) in *.
  set (s1 := mkStore (<[ecology := d]> h) o1) in *.
  set (s2 := mkStore (<[ecology := d]> h) o2) in *.
  set (e1' := (bind1 "theta" (Discrete (hypothesis_prior hyp1)) e1).2) in *.
  set (e2' := (bind2 "theta" (Discrete (hypothesis_prior hyp2)) e2).2) in *.
  assert (Hsame : same_but_hyp s1 s2).
  { unfold same_but_hyp, s1, s2. cbn [heap self].
    repeat split; congruence. }
  assert (Hheap : is_Some (heap s1 !! ecology)).
  { exists d. apply lookup_insert_eq. }
  apply Forall_cons in Hev as [_ Hev]. apply NoDup_cons in Hnd as [Hnotin _].
  assert (Hev' : Forall (fun c => exists v, c_reply c = Some v /\
                                            ev !! c_label c = Some v)
                   (interp bind1
                      (for_each (range 1 n) (step ecology theta1) t0 s1) e1').2).
  { apply Forall_forall. intros c Hc.
    rewrite Forall_forall in Hev. destruct (Hev c Hc) as (w & Hw & Hlw).
    exists w. split; [exact Hw |]. apply Hevl; [exact Hlw |].
    intros Heq. apply Hnotin. rewrite <- Heq.
    apply list_elem_of_fmap. exists c. auto. }
  destruct (sim_interp_forced ends_alike bind1 bind2 ev _ _ e1' e2'
              (sim_for_each theta1 theta2 v1 v2 ecology (range 1 n) t0 s1 s2
                 Hth1 Hth2 Hsame Hheap)
              Hforce Hev')
    as ([Hout (Hhp & _ & _ & Htm & Htj & _)] & Hlab & Hrep).
  rewrite <- Hout, <- Hhp, <- Htm, <- Htj, !drop_0, Hlab, Hrep. repeat split.
Qed.

(** ** The hypothesis marginals *)

Lemma sat_always (A : call -> Prop) {X : Type} (P : X -> list call -> Prop)
    (p : prog X) :
  (forall x log, P x log) -> sat A P p.
Proof.
  revert P. induction p as [x | l d k IH]; intros P HP.
  - apply HP.
  - intros r _. apply IH. intros x log. apply HP.
Qed.

Lemma theta_hypotheses_dom k theta :
  theta_hypotheses !! k = Some theta -> k ∈ ["H1"; "H2"; "H3"].
Proof.
  unfold theta_hypotheses. cbn [list_to_map foldr fst snd uncurry].
  intros Hk. rewrite !elem_of_cons.
  destruct (decide (k = "H1")) as [-> | N1]; [auto |].
  destruct (decide (k = "H2")) as [-> | N2]; [auto |].
  destruct (decide (k = "H3")) as [-> | N3]; [auto |].
  rewrite !lookup_insert_ne in Hk by congruence.
  rewrite lookup_empty in Hk. discriminate.
Qed.

Lemma completed_run_theta {E : Type}
    (bind : string -> dist -> E -> option value * E) s e :
  outcome (run_in bind s e) = Ok tt ->
  exists k, k ∈ ["H1"; "H2"; "H3"] /\
            trace_of (calls (run_in bind s e)) !! "theta" = Some (VStr k).
Proof.
  apply (sat_run_in (fun _ => True)
           (fun rs log => rs.1 = Ok tt ->
              exists k, k ∈ ["H1"; "H2"; "H3"] /\
                        trace_of log !! "theta" = Some (VStr k)));
    [| apply Forall_True].
  apply sat_run; [discriminate |].
  intros d0 _ ecology s1 c0.
  split; [discriminate |]. intros v _.
  split; [discriminate |]. intros theta Hth.
  split; [discriminate |]. intros t0 ts _.
  apply sat_always. intros rs log _.
  destruct (getitem_Ok_inv _ _ _ Hth) as (k & -> & Hk).
  exists k. split; [exact (theta_hypotheses_dom _ _ Hk) |].
  rewrite trace_of_cons. cbn [c_reply c_label c0]. apply lookup_insert_eq.
Qed.

Lemma thetas_Ok_iff results :
  (exists vs, thetas results = Ok vs) <->
  Forall (fun trace_value => is_Some (trace_value !! "theta")) results.
Proof.
  induction results as [| tv rest IH]; cbn [thetas getitem].
  { split; [constructor | eauto]. }
  rewrite Forall_cons, <- IH.
  destruct (tv !! "theta") as [v |] eqn:Hv.
  - split.
    + intros [vs Hvs]. split; [eauto |].
      destruct (thetas rest) as [vs' | e]; [eauto | discriminate].
    + intros [_ [vs' ->]]. eauto.
  - split; [intros [vs [=]] | intros [[v [=]] _]].
Qed.

Lemma thetas_Err_iff results e :
  thetas results = Err e <->
  e = KeyError (VStr "theta") /\
  Exists (fun trace_value => trace_value !! "theta" = None) results.
Proof.
  induction results as [| tv rest IH]; cbn [thetas getitem].
  { split; [discriminate | intros [_ H]; inversion H]. }
  rewrite Exists_cons.
  destruct (tv !! "theta") as [v |] eqn:Hv.
  - destruct (thetas rest) as [vs' | e'].
    + split; [discriminate |]. intros [He [[=] | Hex]].
      discriminate (proj2 IH (conj He Hex)).
    + split.
      * intros [= ->]. destruct (proj1 IH eq_refl) as [-> Hex]. auto.
      * intros [-> [[=] | Hex]]. rewrite (proj2 IH (conj eq_refl Hex)).
        reflexivity.
  - split; [intros [= <-]; auto | intros [-> _]; reflexivity].
Qed.

Lemma thetas_length results vs : thetas results = Ok vs -> length vs = length results.
Proof.
  revert vs. induction results as [| tv rest IH]; cbn [thetas]; intros vs.
  { intros [= <-]. reflexivity. }
  destruct (getitem tv (VStr "theta")) as [v |]; [| discriminate].
  destruct (thetas rest) as [vs' |]; [| discriminate].
  intros [= <-]. cbn [length]. rewrite (IH vs' eq_refl). reflexivity.
Qed.

Lemma count_bounds (vs : list value) (x : value) :
  0 <= count vs x <= Z.of_nat (length vs).
Proof.
  induction vs as [| v vs IH]; cbn [count length]; [lia |].
  destruct (value_eqb v x); lia.
Qed.

Lemma Zdigits2_le (a b : Z) : 0 <= a -> a <= b -> Zdigits2 a <= Zdigits2 b.
Proof.
  intros Ha Hab. apply Zdigits2_bound; [lia | apply Zdigits2_nonneg |].
  pose proof (Zdigits2_gt b ltac:(lia)). lia.
Qed.

Lemma Zdigits2_shiftl (m s : Z) :
  0 <= m -> 0 <= s -> Zdigits2 (Z.shiftl m s) <= Zdigits2 m + s.
Proof.
  intros Hm Hs. rewrite Z.shiftl_mul_pow2 by lia.
  pose proof (Zdigits2_gt m Hm). pose proof (Zdigits2_nonneg m).
  apply Zdigits2_bound; [nia | lia |].
  rewrite Z.pow_add_r by lia.
  assert (0 < 2 ^ s) by (apply Z.pow_pos_nonneg; lia). nia.
Qed.

Lemma SFdiv_core_binary_bound (m1 m2 : positive) :
  let r := SFdiv_core_binary prec emax (Z.pos m1) 0 (Z.pos m2) 0 in
  0 <= r.1.1 /\ r.1.2 <= 0 /\ Zdigits2 r.1.1 + r.1.2 <= Zdigits2 (Z.pos m1).
Proof.
  unfold SFdiv_core_binary.
  set (e' := Z.min _ _).
  assert (He' : e' <= 0) by (unfold e'; lia).
  set (s := 0 - 0 - e'). assert (Hs : s = - e') by (unfold s; lia).
  set (m' := match s with Z.pos _ => Z.shiftl (Z.pos m1) s | Z0 => Z.pos m1 | Z.neg _ => 0 end).
  assert (Hm' : 0 <= m' /\ Zdigits2 m' <= Zdigits2 (Z.pos m1) + s).
  { unfold m'. destruct s as [| p | p] eqn:Es; [cbn [Zdigits2]; lia | | lia].
    split; [apply Z.shiftl_nonneg; lia |].
    apply Zdigits2_shiftl; lia. }
  destruct Hm' as [Hm0 Hmd].
  pose proof (Z_div_mod m' (Z.pos m2) ltac:(lia)) as Hdiv.
  destruct (Z.div_eucl m' (Z.pos m2)) as [q r]. cbn [fst snd].
  destruct Hdiv as [Heq Hr].
  assert (Hq : 0 <= q <= m') by nia.
  split; [lia |]. split; [exact He' |].
  pose proof (Zdigits2_le q m' ltac:(lia) ltac:(lia)). lia.
Qed.

(** A quotient of a dividend below [2^1023] in magnitude is in the range of
    the floats. *)
Lemma py_truediv_in_range (a b : Z) :
  b <> 0 -> Z.abs a < 2 ^ 1023 -> exists f, py_truediv a b = Value (Float f).
Proof.
  intros Hb Ha. unfold py_truediv. destruct (decide (b = 0)); [contradiction |].
  assert (Hfin : forall sx sy m1 m2, Z.pos m1 < 2 ^ 1023 ->
            exists f, SFdiv prec emax (S754_finite sx m1 0) (S754_finite sy m2 0) = f /\
                      (f = S754_zero (xorb sx sy) \/
                       exists m e, f = S754_finite (xorb sx sy) m e)).
  { intros sx sy m1 m2 Hm. eexists. split; [reflexivity |]. cbn [SFdiv].
    destruct (SFdiv_core_binary_bound m1 m2) as (H0 & He & Hd).
    destruct (SFdiv_core_binary prec emax (Z.pos m1) 0 (Z.pos m2) 0) as [[mz ez] lz].
    cbn [fst snd] in H0, He, Hd.
    apply binary_round_aux_finite; [exact H0 | unfold emax, prec; lia |].
    pose proof (Zdigits2_bound (Z.pos m1) 1023 ltac:(lia) ltac:(lia) Hm). lia. }
  assert (Hret : forall sx sy m1 m2, Z.pos m1 < 2 ^ 1023 ->
            exists f,
              match SFdiv prec emax (S754_finite sx m1 0) (S754_finite sy m2 0) with
              | S754_infinity _ => Fails OverflowError
              | g => Value (Float g)
              end = Value (Float f)).
  { intros sx sy m1 m2 Hm.
    destruct (Hfin sx sy m1 m2 Hm) as (f & -> & [-> | (m & e & ->)]); eauto. }
  destruct a as [| p | p], b as [| q | q]; try contradiction; cbn [int_operand];
    try (cbn [SFdiv]; eauto; fail); apply Hret; lia.
Qed.

Lemma py_truediv_Fails (a b : Z) (e : py_exn) :
  py_truediv a b = Fails e ->
  (b = 0 /\ e = ZeroDivisionError) \/ (b <> 0 /\ e = OverflowError).
Proof.
  unfold py_truediv. destruct (decide (b = 0)) as [-> | Hb].
  - intros [= <-]. auto.
  - destruct (SFdiv prec emax (int_operand a) (int_operand b));
      try discriminate. intros [= <-]. auto.
Qed.

Lemma marginals_eq results num_samp :
  marginals results num_samp =
  match thetas results with
  | Err e => Fails (Raised e)
  | Ok vs =>
      and_then (py_truediv (count vs (VStr "H1")) num_samp) (fun q1 =>
      and_then (py_truediv (count vs (VStr "H2")) num_samp) (fun q2 =>
      and_then (py_truediv (count vs (VStr "H3")) num_samp) (fun q3 =>
      Value [("H1", q1); ("H2", q2); ("H3", q3)])))
  end.
Proof.
  unfold marginals, marginal. cbn [dict_comprehension].
  destruct (thetas results) as [vs | e]; [| reflexivity].
  change ("H" +:+ pretty 1) with "H1". change ("H" +:+ pretty 2) with "H2".
  change ("H" +:+ pretty 3) with "H3".
  destruct (py_truediv (count vs (VStr "H1")) num_samp) as [q1 |];
    [| reflexivity].
  cbn [and_then dict_comprehension dict_set].
  destruct (py_truediv (count vs (VStr "H2")) num_samp) as [q2 |];
    [| reflexivity].
  cbn [and_then dict_comprehension dict_set].
  destruct (py_truediv (count vs (VStr "H3")) num_samp) as [q3 |];
    reflexivity.
Qed.

Lemma marginals_in_range results vs num_samp :
  thetas results = Ok vs -> num_samp <> 0 ->
  Z.of_nat (length results) < 2 ^ 1023 ->
  exists q1 q2 q3,
    py_truediv (count vs (VStr "H1")) num_samp = Value q1 /\
    py_truediv (count vs (VStr "H2")) num_samp = Value q2 /\
    py_truediv (count vs (VStr "H3")) num_samp = Value q3 /\
    marginals results num_samp = Value [("H1", q1); ("H2", q2); ("H3", q3)].
Proof.
  intros Hvs Hn Hlen. rewrite marginals_eq, Hvs.
  pose proof (thetas_length _ _ Hvs) as Hl.
  assert (Hq : forall x, exists f, py_truediv (count vs x) num_samp = Value (Float f)).
  { intros x. apply py_truediv_in_range; [exact Hn |].
    pose proof (count_bounds vs x). lia. }
  destruct (Hq (VStr "H1")) as [f1 H1']. destruct (Hq (VStr "H2")) as [f2 H2'].
  destruct (Hq (VStr "H3")) as [f3 H3'].
  exists (Float f1), (Float f2), (Float f3).
  rewrite H1', H2', H3'. cbn [and_then]. auto.
Qed.

Lemma count_hypotheses (vs : list value) :
  Forall (fun v => exists k, v = VStr k /\ k ∈ ["H1"; "H2"; "H3"]) vs ->
  count vs (VStr "H1") + count vs (VStr "H2") + count vs (VStr "H3")
  = Z.of_nat (length vs).
Proof.
  induction 1 as [| v vs (k & -> & Hk) _ IH]; [reflexivity |].
  cbn [count length]. rewrite Nat2Z.inj_succ, <- IH.
  rewrite !elem_of_cons, elem_of_nil in Hk.
  destruct Hk as [-> | [-> | [-> | []]]]; vm_compute value_eqb; lia.
Qed.

Lemma thetas_of_completed results vs :
  Forall completed_trace results ->
  thetas results = Ok vs ->
  Forall (fun v => exists k, v = VStr k /\ k ∈ ["H1"; "H2"; "H3"]) vs.
Proof.
  intros Hall. revert vs.
  induction Hall as [| tv rest Htv _ IH]; cbn [thetas getitem]; intros vs.
  { intros [= <-]. constructor. }
  destruct Htv as [E bind s e Hok ->].
  destruct (completed_run_theta bind s e Hok) as (k & Hk & ->).
  destruct (thetas rest) as [vs' |]; [| discriminate].
  intros [= <-]. constructor; eauto.
Qed.

(** X11.  How the cell of the marginals ends.  It raises KeyError('theta')
    exactly when some result has no "theta", whatever [num_samp] is; it
    raises ZeroDivisionError exactly when every result has one and
    [num_samp] is 0, also on an empty list of results; otherwise, for fewer
    than [2^1023] results, it is the dictionary with the keys "H1", "H2",
    "H3" in this order, each with the number of results whose "theta" equals
    the key, divided by [num_samp] in Python's true division. *)
Theorem marginals_raise_or_count (results : list (gmap string value))
    (num_samp : Z) :
  (marginals results num_samp = Fails (Raised (KeyError (VStr "theta"))) <->
   Exists (fun trace_value => trace_value !! "theta" = None) results) /\
  (marginals results num_samp = Fails ZeroDivisionError <->
   Forall (fun trace_value => is_Some (trace_value !! "theta")) results /\
   num_samp = 0) /\
  (Forall (fun trace_value => is_Some (trace_value !! "theta")) results ->
   num_samp <> 0 -> Z.of_nat (length results) < 2 ^ 1023 ->
   exists vs q1 q2 q3,
     thetas results = Ok vs /\
     py_truediv (count vs (VStr "H1")) num_samp = Value q1 /\
     py_truediv (count vs (VStr "H2")) num_samp = Value q2 /\
     py_truediv (count vs (VStr "H3")) num_samp = Value q3 /\
     marginals results num_samp = Value [("H1", q1); ("H2", q2); ("H3", q3)]).
Proof.
  pose proof (thetas_Ok_iff results) as HOk.
  pose proof (thetas_Err_iff results) as HErr.
  assert (Hdiv : forall vs e,
            and_then (py_truediv (count vs (VStr "H1")) num_samp) (fun q1 =>
            and_then (py_truediv (count vs (VStr "H2")) num_samp) (fun q2 =>
            and_then (py_truediv (count vs (VStr "H3")) num_samp) (fun q3 =>
            Value [("H1", q1); ("H2", q2); ("H3", q3)]))) = Fails e ->
            (num_samp = 0 /\ e = ZeroDivisionError) \/
            (num_samp <> 0 /\ e = OverflowError)).
  { intros vs e.
    destruct (py_truediv (count vs (VStr "H1")) num_samp) as [q1 |] eqn:E1;
      cbn [and_then]; [| intros [= <-]; exact (py_truediv_Fails _ _ _ E1)].
    destruct (py_truediv (count vs (VStr "H2")) num_samp) as [q2 |] eqn:E2;
      cbn [and_then]; [| intros [= <-]; exact (py_truediv_Fails _ _ _ E2)].
    destruct (py_truediv (count vs (VStr "H3")) num_samp) as [q3 |] eqn:E3;
      cbn [and_then]; [discriminate |].
    intros [= <-]; exact (py_truediv_Fails _ _ _ E3). }
  split; [| split].
  - rewrite marginals_eq. destruct (thetas results) as [vs | e] eqn:Hvs.
    + split.
      * intros Hf. destruct (Hdiv vs _ Hf) as [[_ [=]] | [_ [=]]].
      * intros Hex. discriminate (proj2 (HErr _) (conj eq_refl Hex)).
    + destruct (proj1 (HErr e) eq_refl) as [-> Hex]. split; auto.
  - rewrite marginals_eq. destruct (thetas results) as [vs | e] eqn:Hvs.
    + assert (Hall : Forall (fun tv => is_Some (tv !! "theta")) results)
        by (apply HOk; eauto).
      split.
      * intros Hf. destruct (Hdiv vs _ Hf) as [[Hn _] | [_ [=]]]. auto.
      * intros [_ ->]. unfold py_truediv.
        destruct (decide (0 = 0)); [reflexivity | contradiction].
    + split; [discriminate |]. intros [Hall _].
      apply HOk in Hall as [vs [=]].
  - intros Hall Hn Hlen. apply HOk in Hall as [vs Hvs].
    destruct (marginals_in_range results vs num_samp Hvs Hn Hlen)
      as (q1 & q2 & q3 & H1' & H2' & H3' & Hm).
    exists vs, q1, q2, q3. auto.
Qed.

(** X12.  Over the traces of runs that returned, the marginals account for
    every result: with [num_samp] other than 0 and fewer than [2^1023]
    results the cell returns the three quotients [c1 / num_samp],
    [c2 / num_samp], [c3 / num_samp] of counts that add up to the number of
    results. *)
Theorem marginals_of_completed_runs_add_up (results : list (gmap string value))
    (num_samp : Z) :
  Forall completed_trace results ->
  num_samp <> 0 ->
  Z.of_nat (length results) < 2 ^ 1023 ->
  exists c1 c2 c3 q1 q2 q3,
    0 <= c1 /\ 0 <= c2 /\ 0 <= c3 /\
    c1 + c2 + c3 = Z.of_nat (length results) /\
    py_truediv c1 num_samp = Value q1 /\
    py_truediv c2 num_samp = Value q2 /\
    py_truediv c3 num_samp = Value q3 /\
    marginals results num_samp = Value [("H1", q1); ("H2", q2); ("H3", q3)].
Proof.
  intros Hall Hn Hlen.
  assert (HOk : exists vs, thetas results = Ok vs).
  { apply thetas_Ok_iff. eapply Forall_impl; [exact Hall |].
    intros tv [E bind s e Hok ->].
    destruct (completed_run_theta bind s e Hok) as (k & _ & ->). eauto. }
  destruct HOk as [vs Hvs].
  pose proof (thetas_of_completed results vs Hall Hvs) as Hin.
  pose proof (thetas_length _ _ Hvs) as Hl.
  destruct (marginals_in_range results vs num_samp Hvs Hn Hlen)
    as (q1 & q2 & q3 & H1' & H2' & H3' & Hm).
  exists (count vs (VStr "H1")), (count vs (VStr "H2")), (count vs (VStr "H3")),
    q1, q2, q3.
  pose proof (count_bounds vs (VStr "H1")). pose proof (count_bounds vs (VStr "H2")).
  pose proof (count_bounds vs (VStr "H3")).
  repeat (split; [lia || assumption |]).
  split; [rewrite (count_hypotheses vs Hin), Hl; reflexivity |].
  auto.
Qed.

(** ** Instances of the further properties *)

(** X1 at the second pass of a three-entry run of the notebook's simulator. *)
Lemma run_records_each_pass_witness :
  let s := mkStore (notebook_heap 50 100) (sim_50_100 3) in
  __init__ notebook_transitions 0%nat 3 "H1" default_t0 (notebook_heap 50 100)
    = Ok (sim_50_100 3) /\
  (2 < length (times (self (final_store (run_in scripted s replies_3)))))%nat /\
  pass_recorded notebook_transitions (drop 1 (calls (run_in scripted s replies_3)))
    (prey (trajectory (self (final_store (run_in scripted s replies_3)))))
    (pred (trajectory (self (final_store (run_in scripted s replies_3)))))
    1.
Proof.
  intros s.
  assert (Hi : __init__ notebook_transitions 0%nat 3 "H1" default_t0
                 (notebook_heap 50 100) = Ok (sim_50_100 3))
    by (vm_compute; reflexivity).
  assert (Hk : (2 < length (times (self (final_store
                                           (run_in scripted s replies_3)))))%nat)
    by (vm_compute; lia).
  split; [exact Hi |]. split; [exact Hk |].
  exact (run_records_each_pass scripted replies_3 notebook_transitions 0%nat 3
           "H1" default_t0 (notebook_heap 50 100) (sim_50_100 3) Hi 1%nat Hk).
Defined.

(** X3 on two completed runs of the notebook's simulator with [N = 3]. *)
Lemma second_run_appends_and_restarts_witness :
  let r1 := run_in scripted (mkStore (notebook_heap 50 100) (sim_50_100 3))
              replies_3 in
  let r2 := run_in scripted (final_store r1) replies_3 in
  __init__ notebook_transitions 0%nat 3 "H1" default_t0 (notebook_heap 50 100)
    = Ok (sim_50_100 3) /\
  outcome r1 = Ok tt /\ outcome r2 = Ok tt /\
  length (times (self (final_store r2))) = Z.to_nat (2 * Z.max 1 3 - 1).
Proof.
  intros r1 r2.
  assert (Hi : __init__ notebook_transitions 0%nat 3 "H1" default_t0
                 (notebook_heap 50 100) = Ok (sim_50_100 3))
    by (vm_compute; reflexivity).
  assert (H1' : outcome r1 = Ok tt) by (vm_compute; reflexivity).
  assert (H2' : outcome r2 = Ok tt) by (vm_compute; reflexivity).
  split; [exact Hi |]. split; [exact H1' |]. split; [exact H2' |].
  destruct (second_run_appends_and_restarts scripted replies_3 scripted replies_3
              notebook_transitions 0%nat 3 "H1" default_t0
              (notebook_heap 50 100) (sim_50_100 3) Hi)
    as (x & y & at2 & ap2 & aq2 & _ & _ & _ & _ & _ & _ & _ & Hlen).
  exact (Hlen H1' H2').
Defined.

(** X4 on the notebook's simulator, run after the caller changed the
    dictionary to [{'prey': 7, 'pred': 9}]. *)
Lemma run_reads_initial_when_it_starts_witness :
  let s := mkStore (notebook_heap 7 9) (sim_50_100 3) in
  __init__ notebook_transitions 0%nat 3 "H1" default_t0 (notebook_heap 50 100)
    = Ok (sim_50_100 3) /\
  notebook_heap 7 9 !! 0%nat = Some (ecology_of 7 9) /\
  ecology_of 7 9 !! "prey" = Some 7 /\ ecology_of 7 9 !! "pred" = Some 9 /\
  exists d x y at_ ap aq,
    notebook_heap 50 100 !! 0%nat = Some d /\
    d !! "prey" = Some x /\ d !! "pred" = Some y /\
    times (self (final_store (run_in scripted s replies_3))) = default_t0 :: at_ /\
    prey (trajectory (self (final_store (run_in scripted s replies_3)))) = x :: ap /\
    pred (trajectory (self (final_store (run_in scripted s replies_3)))) = y :: aq /\
    length ap = length at_ /\ length aq = length at_ /\
    forall k, (k < length at_)%nat ->
      pass_recorded notebook_transitions
        (drop 1 (calls (run_in scripted s replies_3)))
        (7 :: ap) (9 :: aq) k.
Proof.
  intros s.
  assert (Hi : __init__ notebook_transitions 0%nat 3 "H1" default_t0
                 (notebook_heap 50 100) = Ok (sim_50_100 3))
    by (vm_compute; reflexivity).
  assert (Hh : notebook_heap 7 9 !! 0%nat = Some (ecology_of 7 9))
    by (vm_compute; reflexivity).
  assert (Hx : ecology_of 7 9 !! "prey" = Some 7) by (vm_compute; reflexivity).
  assert (Hy : ecology_of 7 9 !! "pred" = Some 9) by (vm_compute; reflexivity).
  repeat (split; [assumption |]).
  exact (run_reads_initial_when_it_starts scripted replies_3
           notebook_transitions 0%nat 3 "H1" default_t0
           (notebook_heap 50 100) (notebook_heap 7 9) (sim_50_100 3)
           (ecology_of 7 9) 7 9 Hi Hh Hx Hy).
Defined.

(** X6 on [LV(transitions, {'prey': 50, 'pred': 100}, 3, select_hyp="H4")],
    when the environment replies the one key of the prior with a positive
    weight. *)
Lemma reply_outside_hypotheses_raises_KeyError_witness :
  let s := mkStore (notebook_heap 50 100)
             (mkLV notebook_transitions "H4" 0%nat [default_t0]
                (mkTrajectory [50] [100]) 3) in
  __init__ notebook_transitions 0%nat 3 "H4" default_t0 (notebook_heap 50 100)
    = Ok (self s) /\
  heap s !! initial (self s) = Some (ecology_of 50 100) /\
  (scripted "theta" (Discrete (hypothesis_prior (select_hyp (self s))))
     [VStr "H4"]).1 = Some (VStr "H4") /\
  getitem theta_hypotheses (VStr "H4") = Err (KeyError (VStr "H4")) /\
  outcome (run_in scripted s [VStr "H4"]) = Err (KeyError (VStr "H4")) /\
  self (final_store (run_in scripted s [VStr "H4"])) = self s /\
  hypothesis_prior "H4" = [("H1", 0); ("H2", 0); ("H3", 0); ("H4", 1)]%Q.
Proof.
  intros s.
  assert (Hi : __init__ notebook_transitions 0%nat 3 "H4" default_t0
                 (notebook_heap 50 100) = Ok (self s))
    by (vm_compute; reflexivity).
  assert (Hh : heap s !! initial (self s) = Some (ecology_of 50 100))
    by (vm_compute; reflexivity).
  assert (Hv : (scripted "theta" (Discrete (hypothesis_prior (select_hyp (self s))))
                  [VStr "H4"]).1 = Some (VStr "H4")) by reflexivity.
  assert (He : getitem theta_hypotheses (VStr "H4") = Err (KeyError (VStr "H4")))
    by (vm_compute; reflexivity).
  assert (Hn : select_hyp (self s) ∉ ["none"; "H1"; "H2"; "H3"]).
  { cbn [s self select_hyp]. rewrite !not_elem_of_cons.
    repeat split; try discriminate. apply not_elem_of_nil. }
  repeat (split; [assumption |]).
  destruct (reply_outside_hypotheses_raises_KeyError scripted s [VStr "H4"]
              (ecology_of 50 100) (VStr "H4") (KeyError (VStr "H4")) Hh Hv He)
    as (Hout & Hself & _ & Hprior).
  split; [exact Hout |]. split; [exact Hself |]. exact (proj1 (Hprior Hn)).
Defined.

(** X7 on a run that starts from the negative prey count -5. *)
Lemma run_hands_over_nonnegative_hazards_witness :
  let s := mkStore (notebook_heap (-5) 100) (sim_50_100 3) in
  heap s !! initial (self s) = Some (ecology_of (-5) 100) /\
  ecology_of (-5) 100 !! "prey" = Some (-5) /\
  ecology_of (-5) 100 !! "pred" = Some 100 /\
  Forall nonneg_dist (drop 3 (calls (run_in scripted s replies_3))).
Proof.
  intros s.
  assert (Hh : heap s !! initial (self s) = Some (ecology_of (-5) 100))
    by (vm_compute; reflexivity).
  assert (Hx : ecology_of (-5) 100 !! "prey" = Some (-5))
    by (vm_compute; reflexivity).
  assert (Hy : ecology_of (-5) 100 !! "pred" = Some 100)
    by (vm_compute; reflexivity).
  repeat (split; [assumption |]).
  exact (proj1 (run_hands_over_nonnegative_hazards scripted s replies_3
                  (ecology_of (-5) 100) (-5) 100 Hh Hx Hy)).
Defined.

(** X8 at the notebook's population under the rates of "H1". *)
Lemma get_hazards_returns_in_float_range_witness :
  exists h1 h2 h3,
    Py.get_hazards (ecology_of 50 100) Py.H1 =
      Value [("spawn_prey", h1); ("prey2pred", h2); ("pred_dies", h3)].
Proof.
  pose (b := default (Int 0) (Py.H1 !! "prey2pred")).
  pose (c := default (Int 0) (Py.H1 !! "pred_dies")).
  apply (get_hazards_returns_in_float_range (ecology_of 50 100) Py.H1
           (Int 1) b c 50 100);
    [vm_compute; reflexivity | vm_compute; reflexivity | vm_compute; reflexivity
    | vm_compute; reflexivity | vm_compute; reflexivity | lia | lia].
Defined.

(** X10 on the notebook: a run under "H1", and the conditioned simulator
    built without [select_hyp], whose environment replies "H2" to "theta". *)
Lemma trajectory_does_not_depend_on_hypothesis_witness :
  let r1 := run_in scripted (mkStore (notebook_heap 50 100) (sim_50_100 3))
              replies_3 in
  let o2 := mkLV notebook_transitions "none" 0%nat [default_t0]
              (mkTrajectory [50] [100]) 3 in
  let r2 := run_in (conditioned (evidence_of (trace_of (calls r1))) scripted)
              (mkStore (notebook_heap 50 100) o2) [VStr "H2"] in
  __init__ notebook_transitions 0%nat 3 "H1" default_t0 (notebook_heap 50 100)
    = Ok (sim_50_100 3) /\
  __init__ notebook_transitions 0%nat 3 "none" default_t0 (notebook_heap 50 100)
    = Ok o2 /\
  getitem theta_hypotheses (VStr "H1") = Ok H1 /\
  getitem theta_hypotheses (VStr "H2") = Ok H2 /\
  Forall (fun c => is_Some (c_reply c)) (calls r1) /\
  outcome r2 = outcome r1 /\
  times (self (final_store r2)) = times (self (final_store r1)) /\
  trajectory (self (final_store r2)) = trajectory (self (final_store r1)).
Proof.
  intros r1 o2 r2.
  assert (Hi1 : __init__ notebook_transitions 0%nat 3 "H1" default_t0
                  (notebook_heap 50 100) = Ok (sim_50_100 3))
    by (vm_compute; reflexivity).
  assert (Hi2 : __init__ notebook_transitions 0%nat 3 "none" default_t0
                  (notebook_heap 50 100) = Ok o2)
    by (vm_compute; reflexivity).
  assert (Ht1 : getitem theta_hypotheses (VStr "H1") = Ok H1)
    by (vm_compute; reflexivity).
  assert (Ht2 : getitem theta_hypotheses (VStr "H2") = Ok H2)
    by (vm_compute; reflexivity).
  assert (Hs : Forall (fun c => is_Some (c_reply c)) (calls r1)).
  { vm_compute. repeat (apply List.Forall_cons; [eexists; reflexivity |]).
    apply List.Forall_nil. }
  assert (Hv1 : (scripted "theta" (Discrete (hypothesis_prior "H1")) replies_3).1
                = Some (VStr "H1")) by reflexivity.
  assert (Hv2 : (conditioned (evidence_of (trace_of (calls r1))) scripted
                   "theta" (Discrete (hypothesis_prior "none")) [VStr "H2"]).1
                = Some (VStr "H2")) by (vm_compute; reflexivity).
  repeat (split; [assumption |]).
  destruct (trajectory_does_not_depend_on_hypothesis
              scripted replies_3
              (conditioned (evidence_of (trace_of (calls r1))) scripted)
              [VStr "H2"]
              notebook_transitions 0%nat 3 "H1" "none" default_t0
              (notebook_heap 50 100) (sim_50_100 3) o2
              (VStr "H1") (VStr "H2") H1 H2
              Hi1 Hi2 Hv1 Ht1 Hv2 Ht2 Hs (conditioned_forces _ scripted))
    as (Hout & Htm & Htj & _).
  split; [exact Hout |]. split; [exact Htm | exact Htj].
Defined.

(** X12 on the traces of two completed runs of the notebook's simulator, one
    under "H1" and one under "H2", with [num_samp = 2]. *)
Lemma marginals_of_completed_runs_add_up_witness :
  let s := mkStore (notebook_heap 50 100) (sim_50_100 3) in
  let results :=
    [trace_of (calls (run_in scripted s replies_3));
     trace_of (calls (run_in scripted s (VStr "H2" :: drop 1 replies_3)))] in
  outcome (run_in scripted s replies_3) = Ok tt /\
  outcome (run_in scripted s (VStr "H2" :: drop 1 replies_3)) = Ok tt /\
  exists c1 c2 c3 q1 q2 q3,
    c1 + c2 + c3 = 2 /\
    py_truediv c1 2 = Value q1 /\ py_truediv c2 2 = Value q2 /\
    py_truediv c3 2 = Value q3 /\
    marginals results 2 = Value [("H1", q1); ("H2", q2); ("H3", q3)].
Proof.
  intros s results.
  assert (H1' : outcome (run_in scripted s replies_3) = Ok tt)
    by (vm_compute; reflexivity).
  assert (H2' : outcome (run_in scripted s (VStr "H2" :: drop 1 replies_3)) = Ok tt)
    by (vm_compute; reflexivity).
  split; [exact H1' |]. split; [exact H2' |].
  assert (Hall : Forall completed_trace results).
  { apply Forall_cons. split.
    - exact (completed_trace_of _ scripted s replies_3 H1' eq_refl).
    - apply Forall_cons. split; [| apply Forall_nil; exact I].
      exact (completed_trace_of _ scripted s (VStr "H2" :: drop 1 replies_3)
               H2' eq_refl). }
  destruct (marginals_of_completed_runs_add_up results 2 Hall)
    as (c1 & c2 & c3 & q1 & q2 & q3 & _ & _ & _ & Hsum & D1 & D2 & D3 & Hm);
    [lia | cbn [results length]; lia |].
  exists c1, c2, c3, q1, q2, q3. auto.
Defined.

(** X13 at the notebook's population under the rates of "H3". *)
Lemma notebook_hazards_are_nonneg_witness :
  exists hz h1 h2 h3,
    Py.get_hazards (ecology_of 50 100) Py.H3 = Value hz /\
    hz = [("spawn_prey", h1); ("prey2pred", h2); ("pred_dies", h3)] /\
    py_nonneg h1 = true /\ py_nonneg h2 = true /\ py_nonneg h3 = true.
Proof.
  pose (hz := match Py.get_hazards (ecology_of 50 100) Py.H3 with
              | Value hz => hz
              | Fails _ => []
              end).
  assert (Hhz : Py.get_hazards (ecology_of 50 100) Py.H3 = Value hz)
    by (vm_compute; reflexivity).
  destruct (notebook_hazards_are_nonneg (ecology_of 50 100) Py.H3 50 100 hz)
    as (h1 & h2 & h3 & Heq & N1 & N2 & N3 & _);
    [set_solver | vm_compute; reflexivity | vm_compute; reflexivity
    | lia | lia | exact Hhz |].
  exists hz, h1, h2, h3. auto.
Defined.
